(** * Event-Flow-Orchestration-Engine: the workflow runtime, embedded in Rocq

    A shallow embedding of [src/engine/processus.js], [src/engine/api.js] and
    the two persistence backends [src/engine/persistence/file.js] and
    [src/engine/persistence/mongo.js].

    Modelling conventions.
    - A JavaScript value is a [jsval]: the JSON values plus the number [NaN]
      (which the duration arithmetic can produce).  Numbers are integers
      ([Z]); strings are sequences of 8-bit code units.  A property that is
      absent reads as [None], which stands for [undefined].
    - An object keeps its properties in insertion order, as an association
      list; [assign_prop] is [o[k] = v] (overwrite in place, else append).
      Keys that look like array indices, which JS would reorder, are not
      used as task names.
    - A task is a plain object.  An array in task position would receive
      expando properties ([status], [timeOpened]) that no JSON value can
      carry; the scans below treat anything that is not a plain object the
      way the source treats a non-object entry.
    - The callback-passing code is written in direct style: a function that
      calls back with [(err, value)] returns that pair.  [Date.now()] reads a
      clock [clock : nat -> Z] at a tick counter that every read advances.
    - [asyncLib.parallel] is sequentialised: the handlers of one batch run to
      completion in queue order, and the batch reports the first error in
      that order.  A handler is a function of the task object it is given
      and reports exactly once, with that same object. *)

From Stdlib Require Import ZArith String Ascii List Bool Lia.
From stdpp Require Import base gmap strings pretty list sorting.

#[local] Set Warnings "-register-all".

Open Scope string_scope.
Open Scope Z_scope.

(* ================================================================== *)
(** * JavaScript values *)
(* ================================================================== *)

Inductive jsval : Type :=
| JNull
| JBool (b : bool)
| JNum (n : Z)
| JNaN
| JStr (s : string)
| JArr (items : list jsval)
| JObj (props : list (string * jsval)).

Abbreviation props := (list (string * jsval)).

(** Own-property read on a property list; [None] is [undefined]. *)
Fixpoint lookup_prop (k : string) (ps : props) : option jsval :=
  match ps with
  | [] => None
  | (k', v) :: ps' => if String.eqb k k' then Some v else lookup_prop k ps'
  end.

(** [o[k] = v]: an existing key keeps its place, a new key goes last. *)
Fixpoint assign_prop (k : string) (v : jsval) (ps : props) : props :=
  match ps with
  | [] => [(k, v)]
  | (k', v') :: ps' =>
      if String.eqb k k' then (k, v) :: ps' else (k', v') :: assign_prop k v ps'
  end.

Fixpoint remove_prop (k : string) (ps : props) : props :=
  match ps with
  | [] => []
  | (k', v') :: ps' =>
      if String.eqb k k' then ps' else (k', v') :: remove_prop k ps'
  end.

Definition get_prop (o : jsval) (k : string) : option jsval :=
  match o with JObj ps => lookup_prop k ps | _ => None end.

Definition set_prop (o : jsval) (k : string) (v : jsval) : jsval :=
  match o with JObj ps => JObj (assign_prop k v ps) | _ => o end.

(** Assignment of a value that may be [undefined].  A property holding
    [undefined] is dropped by the JSON clone that [validateWorkflow] performs
    before anything reads it, so it is modelled as removed. *)
Definition set_prop_opt (o : jsval) (k : string) (v : option jsval) : jsval :=
  match v with
  | Some x => set_prop o k x
  | None => match o with JObj ps => JObj (remove_prop k ps) | _ => o end
  end.

(** [typeof v === 'object' && v] for the plain objects of the model. *)
Definition is_object (v : jsval) : bool :=
  match v with JObj _ => true | _ => false end.

(** ToBoolean, with [None] for [undefined]. *)
Definition truthy (v : option jsval) : bool :=
  match v with
  | None | Some JNull | Some JNaN => false
  | Some (JBool b) => b
  | Some (JNum n) => negb (n =? 0)
  | Some (JStr s) => negb (String.eqb s EmptyString)
  | Some (JArr _) | Some (JObj _) => true
  end.

(** [v === "s"] for a string literal. *)
Definition str_is (v : option jsval) (s : string) : bool :=
  match v with Some (JStr x) => String.eqb x s | _ => false end.

(** [v === true]. *)
Definition is_true (v : option jsval) : bool :=
  match v with Some (JBool true) => true | _ => false end.

(** The status of a task, [task.status]. *)
Definition status_of (t : jsval) : option jsval := get_prop t "status".

(** ** Characters *)

Definition lower_ascii (c : ascii) : ascii :=
  let n := nat_of_ascii c in
  if (Nat.leb 65 n && Nat.leb n 90)%bool then ascii_of_nat (n + 32) else c.

Fixpoint toLowerCase (s : string) : string :=
  match s with
  | EmptyString => EmptyString
  | String c s' => String (lower_ascii c) (toLowerCase s')
  end.

(** A regular-expression word character, [\w]. *)
Definition is_word (c : ascii) : bool :=
  let n := nat_of_ascii c in
  ((Nat.leb 48 n && Nat.leb n 57) || (Nat.leb 65 n && Nat.leb n 90)
   || (Nat.leb 97 n && Nat.leb n 122) || Nat.eqb n 95)%bool.

Definition is_digit (c : ascii) : bool :=
  let n := nat_of_ascii c in (Nat.leb 48 n && Nat.leb n 57)%bool.

Definition digit_val (c : ascii) : Z := Z.of_nat (nat_of_ascii c) - 48.

(** ** [getBoolean], [isBlocking], [setConditionValues] (processus.js) *)

Definition getBoolean (value : option jsval) : bool :=
  match value with
  | Some (JBool b) => b
  | Some (JStr s) => String.eqb (toLowerCase s) "true"
  | Some (JNum n) => negb (n =? 0)
  | Some JNaN => true
  | _ => false
  end.

Definition isBlocking (task : jsval) : bool := getBoolean (get_prop task "blocking").

Definition setConditionValues (task : jsval) : jsval :=
  let task1 :=
    match get_prop task "skipIf" with
    | Some v => set_prop task "skipIf" (JBool (getBoolean (Some v)))
    | None => task
    end in
  match get_prop task1 "errorIf" with
  | Some v => set_prop task1 "errorIf" (JBool (getBoolean (Some v)))
  | None => task1
  end.

(* ================================================================== *)
(** * Strings: the built-ins the engine calls *)
(* ================================================================== *)

Definition dquote : ascii := "034"%char.
Definition backslash : ascii := "092"%char.
Definition newline : ascii := "010"%char.
Definition str1 (c : ascii) : string := String c EmptyString.

Fixpoint spaces (n : nat) : string :=
  match n with O => EmptyString | S n' => String " " (spaces n') end.

Fixpoint drop_str (n : nat) (s : string) : string :=
  match n, s with
  | S n', String _ s' => drop_str n' s'
  | _, _ => s
  end.

Fixpoint take_str (n : nat) (s : string) : string :=
  match n, s with
  | S n', String c s' => String c (take_str n' s')
  | _, _ => EmptyString
  end.

(** [s.slice(2, -1)]. *)
Definition slice_2_m1 (s : string) : string :=
  take_str (String.length s - 3) (drop_str 2 s).

(** [s.indexOf(pat)] as the pair (text before, text after) of the first
    occurrence. *)
Fixpoint split_first (pat s : string) : option (string * string) :=
  if String.prefix pat s then Some (EmptyString, drop_str (String.length pat) s)
  else match s with
       | EmptyString => None
       | String c s' =>
           match split_first pat s' with
           | Some (b, a) => Some (String c b, a)
           | None => None
           end
       end.

(** GetSubstitution for a string pattern (no capture groups): [$$], [$&],
    [$`] and [$'] are special, every other character is copied. *)
Fixpoint get_substitution (matched before after repl : string) : string :=
  match repl with
  | EmptyString => EmptyString
  | String "$" (String "$" r) => String "$" (get_substitution matched before after r)
  | String "$" (String "&" r) => matched +:+ get_substitution matched before after r
  | String "$" (String "`" r) => before +:+ get_substitution matched before after r
  | String "$" (String "'" r) => after +:+ get_substitution matched before after r
  | String c r => String c (get_substitution matched before after r)
  end.

(** [s.replace(pat, repl)] with a string pattern: first occurrence only. *)
Definition replace_first (pat repl s : string) : string :=
  match split_first pat s with
  | Some (b, a) => b +:+ get_substitution pat b a repl +:+ a
  | None => s
  end.

(** [s.replace(/c/g, repl)] for a one-character pattern and a replacement
    without [$]. *)
Fixpoint replace_char (c : ascii) (repl s : string) : string :=
  match s with
  | EmptyString => EmptyString
  | String x s' =>
      (if Ascii.eqb x c then repl else str1 x) +:+ replace_char c repl s'
  end.

(** [s.replace(/\b/g, repl)]: in a regular expression [\b] is the
    word-boundary assertion, so [repl] is inserted wherever a word character
    meets a non-word character or an end of the string. *)
Fixpoint replace_word_boundaries (prev_word : bool) (repl s : string) : string :=
  match s with
  | EmptyString => if prev_word then repl else EmptyString
  | String c s' =>
      let w := is_word c in
      (if xorb prev_word w then repl else EmptyString)
        +:+ String c (replace_word_boundaries w repl s')
  end.

(** ** [JSON.stringify(v, null, 2)] *)

Definition hex_digit (n : nat) : ascii :=
  if Nat.ltb n 10 then ascii_of_nat (48 + n) else ascii_of_nat (87 + n).

Definition quote_char (c : ascii) : string :=
  let n := nat_of_ascii c in
  if Nat.eqb n 34 then String backslash (str1 dquote)
  else if Nat.eqb n 92 then String backslash (str1 backslash)
  else if Nat.eqb n 8 then String backslash "b"
  else if Nat.eqb n 12 then String backslash "f"
  else if Nat.eqb n 10 then String backslash "n"
  else if Nat.eqb n 13 then String backslash "r"
  else if Nat.eqb n 9 then String backslash "t"
  else if Nat.ltb n 32 then
    String backslash
      ("u00" +:+ String (hex_digit (Nat.div n 16)) (str1 (hex_digit (Nat.modulo n 16))))
  else str1 c.

Fixpoint quote_body (s : string) : string :=
  match s with
  | EmptyString => EmptyString
  | String c s' => quote_char c +:+ quote_body s'
  end.

Definition quote (s : string) : string :=
  String dquote (quote_body s +:+ str1 dquote).

Definition nl_indent (n : nat) : string := String newline (spaces (2 * n)).

Fixpoint stringify (n : nat) (v : jsval) : string :=
  match v with
  | JNull | JNaN => "null"
  | JBool true => "true"
  | JBool false => "false"
  | JNum z => pretty z
  | JStr s => quote s
  | JArr [] => "[]"
  | JArr (x :: xs) =>
      "[" +:+ nl_indent (S n) +:+ stringify (S n) x
      +:+ (fix more (l : list jsval) : string :=
             match l with
             | [] => EmptyString
             | y :: l' => "," +:+ nl_indent (S n) +:+ stringify (S n) y +:+ more l'
             end) xs
      +:+ nl_indent n +:+ "]"
  | JObj [] => "{}"
  | JObj ((k, x) :: ps) =>
      "{" +:+ nl_indent (S n) +:+ quote k +:+ ": " +:+ stringify (S n) x
      +:+ (fix more (l : props) : string :=
             match l with
             | [] => EmptyString
             | (k', y) :: l' =>
                 "," +:+ nl_indent (S n) +:+ quote k' +:+ ": "
                 +:+ stringify (S n) y +:+ more l'
             end) ps
      +:+ nl_indent n +:+ "}"
  end.

Definition JSON_stringify (v : jsval) : string := stringify 0 v.

(** ** [String(v)]

    The numbers of the model are integers, printed by their decimal
    digits, as the source prints a safe integer ([safe_numbers]); from 1e21
    on the source switches to exponent notation, which is outside the
    model. *)

Fixpoint js_String (v : jsval) : string :=
  match v with
  | JNull => "null"
  | JBool true => "true"
  | JBool false => "false"
  | JNum z => pretty z
  | JNaN => "NaN"
  | JStr s => s
  | JArr l =>
      (fix join (first : bool) (l : list jsval) : string :=
         match l with
         | [] => EmptyString
         | y :: l' =>
             (if first then EmptyString else ",")
             +:+ match y with JNull => EmptyString | _ => js_String y end
             +:+ join false l'
         end) true l
  | JObj _ => "[object Object]"
  end.

(** ** [JSON.parse] *)

Definition is_json_ws (c : ascii) : bool :=
  let n := nat_of_ascii c in
  (Nat.eqb n 32 || Nat.eqb n 9 || Nat.eqb n 10 || Nat.eqb n 13)%bool.

Fixpoint skip_ws (s : string) : string :=
  match s with
  | String c s' => if is_json_ws c then skip_ws s' else s
  | EmptyString => s
  end.

Fixpoint parse_digits (acc : Z) (s : string) : Z * string :=
  match s with
  | String c s' =>
      if is_digit c then parse_digits (10 * acc + digit_val c) s' else (acc, s)
  | EmptyString => (acc, s)
  end.

(** Only integer literals belong to the model: a fraction or an exponent
    makes the parse fail here. *)
Definition ends_number (s : string) : bool :=
  match s with
  | String c _ =>
      negb (Ascii.eqb c "." || Ascii.eqb c "e" || Ascii.eqb c "E" || is_digit c)
  | EmptyString => true
  end.

Definition parse_unsigned (s : string) : option (Z * string) :=
  match s with
  | String c r =>
      if Ascii.eqb c "0" then
        if ends_number r then Some (0, r) else None
      else if is_digit c then
        let '(n, rest) := parse_digits 0 s in
        if ends_number rest then Some (n, rest) else None
      else None
  | EmptyString => None
  end.

Definition parse_number (s : string) : option (jsval * string) :=
  match s with
  | String "-" r =>
      match parse_unsigned r with
      | Some (n, rest) => Some (JNum (- n), rest)
      | None => None
      end
  | _ =>
      match parse_unsigned s with
      | Some (n, rest) => Some (JNum n, rest)
      | None => None
      end
  end.

Definition hex_val (c : ascii) : option nat :=
  let n := nat_of_ascii c in
  if (Nat.leb 48 n && Nat.leb n 57)%bool then Some (n - 48)%nat
  else if (Nat.leb 97 n && Nat.leb n 102)%bool then Some (n - 87)%nat
  else if (Nat.leb 65 n && Nat.leb n 70)%bool then Some (n - 55)%nat
  else None.

Definition simple_escape (c : ascii) : option ascii :=
  let n := nat_of_ascii c in
  if Nat.eqb n 34 then Some dquote
  else if Nat.eqb n 92 then Some backslash
  else if Nat.eqb n 47 then Some "/"%char
  else if Nat.eqb n 98 then Some "008"%char
  else if Nat.eqb n 102 then Some "012"%char
  else if Nat.eqb n 110 then Some "010"%char
  else if Nat.eqb n 114 then Some "013"%char
  else if Nat.eqb n 116 then Some "009"%char
  else None.

(** The body of a string literal, up to and including the closing quote.
    A raw control character and an unknown escape are syntax errors; a
    [\uXXXX] above [00FF] has no 8-bit code unit and fails here. *)
Fixpoint parse_chars (s : string) : option (string * string) :=
  match s with
  | EmptyString => None
  | String c r =>
      if Ascii.eqb c dquote then Some (EmptyString, r)
      else if Ascii.eqb c backslash then
        match r with
        | String e r1 =>
            match simple_escape e with
            | Some x =>
                match parse_chars r1 with
                | Some (body, rest) => Some (String x body, rest)
                | None => None
                end
            | None =>
                match e, r1 with
                | "u"%char, String h1 (String h2 (String h3 (String h4 r2))) =>
                    match hex_val h1, hex_val h2, hex_val h3, hex_val h4 with
                    | Some O, Some O, Some a, Some b =>
                        match parse_chars r2 with
                        | Some (body, rest) =>
                            Some (String (ascii_of_nat (16 * a + b)) body, rest)
                        | None => None
                        end
                    | _, _, _, _ => None
                    end
                | _, _ => None
                end
            end
        | EmptyString => None
        end
      else if Nat.ltb (nat_of_ascii c) 32 then None
      else
        match parse_chars r with
        | Some (body, rest) => Some (String c body, rest)
        | None => None
        end
  end.

Definition expect (lit : string) (v : jsval) (s : string) : option (jsval * string) :=
  if String.prefix lit s then Some (v, drop_str (String.length lit) s) else None.

Fixpoint parse_value (fuel : nat) (s : string) : option (jsval * string) :=
  match fuel with
  | O => None
  | S fuel' =>
      match skip_ws s with
      | EmptyString => None
      | String c r as s0 =>
          if Ascii.eqb c "n" then expect "null" JNull s0
          else if Ascii.eqb c "t" then expect "true" (JBool true) s0
          else if Ascii.eqb c "f" then expect "false" (JBool false) s0
          else if Ascii.eqb c dquote then
            match parse_chars r with
            | Some (body, rest) => Some (JStr body, rest)
            | None => None
            end
          else if Ascii.eqb c "[" then
            match skip_ws r with
            | String "]" rest => Some (JArr [], rest)
            | _ => parse_elements fuel' r []
            end
          else if Ascii.eqb c "{" then
            match skip_ws r with
            | String "}" rest => Some (JObj [], rest)
            | _ => parse_members fuel' r []
            end
          else parse_number s0
      end
  end
with parse_elements (fuel : nat) (s : string) (acc : list jsval)
  : option (jsval * string) :=
  match fuel with
  | O => None
  | S fuel' =>
      match parse_value fuel' s with
      | Some (v, r) =>
          match skip_ws r with
          | String "," r' => parse_elements fuel' r' (v :: acc)
          | String "]" r' => Some (JArr (rev (v :: acc)), r')
          | _ => None
          end
      | None => None
      end
  end
with parse_members (fuel : nat) (s : string) (acc : props)
  : option (jsval * string) :=
  match fuel with
  | O => None
  | S fuel' =>
      match skip_ws s with
      | String c r =>
          if Ascii.eqb c dquote then
            match parse_chars r with
            | Some (k, r1) =>
                match skip_ws r1 with
                | String ":" r2 =>
                    match parse_value fuel' r2 with
                    | Some (v, r3) =>
                        (* a repeated key overwrites the earlier value in place *)
                        let acc' := assign_prop k v acc in
                        match skip_ws r3 with
                        | String "," r4 => parse_members fuel' r4 acc'
                        | String "}" r4 => Some (JObj acc', r4)
                        | _ => None
                        end
                    | None => None
                    end
                | _ => None
                end
            | None => None
            end
          else None
      | EmptyString => None
      end
  end.

(** [JSON.parse(s)]; [None] is a thrown [SyntaxError].  Every recursive call
    consumes input at least every second step, so the fuel suffices. *)
Definition JSON_parse (s : string) : option jsval :=
  match parse_value (2 * String.length s + 2) s with
  | Some (v, rest) =>
      match skip_ws rest with
      | EmptyString => Some v
      | _ => None
      end
  | None => None
  end.

(** ** The reference pattern [/\$\[([^\]]+)\]/g] *)

(** The longest run of characters other than [close], and what follows it. *)
Fixpoint span_not (close : ascii) (s : string) : string * string :=
  match s with
  | EmptyString => (EmptyString, EmptyString)
  | String c s' =>
      if Ascii.eqb c close then (EmptyString, s)
      else let '(run, rest) := span_not close s' in (String c run, rest)
  end.

(** The match of the pattern anchored at the start of [s], if any. *)
Definition ref_at (s : string) : option string :=
  match s with
  | String "$" (String "[" body) =>
      match span_not "]" body with
      | (String c run, String _ _) => Some ("$[" +:+ String c run +:+ "]")
      | _ => None
      end
  | _ => None
  end.

(** [s.match(/\$\[([^\]]+)\]/g)]: all matches, left to right, without
    overlap ([skip] counts the characters of the last match still to pass).
    The empty list stands for the [null] of a failed match. *)
Fixpoint match_refs (skip : nat) (s : string) : list string :=
  match s with
  | EmptyString => []
  | String c s' =>
      match skip with
      | S k => match_refs k s'
      | O =>
          match ref_at s with
          | Some m => m :: match_refs (String.length m - 1) s'
          | None => match_refs 0 s'
          end
      end
  end.

(** ** [getData] *)

Fixpoint split_on (sep : ascii) (s : string) : list string :=
  match s with
  | EmptyString => [EmptyString]
  | String c s' =>
      if Ascii.eqb c sep then EmptyString :: split_on sep s'
      else match split_on sep s' with
           | [] => [str1 c]
           | w :: ws => String c w :: ws
           end
  end.

Fixpoint all_digits (s : string) : bool :=
  match s with
  | EmptyString => true
  | String c s' => (is_digit c && all_digits s')%bool
  end.

Fixpoint contains_char (c : ascii) (s : string) : bool :=
  match s with
  | EmptyString => false
  | String x s' => (Ascii.eqb x c || contains_char c s')%bool
  end.

(** A canonical array index: decimal digits without a leading zero. *)
Definition array_index (k : string) : option nat :=
  match k with
  | EmptyString => None
  | String c r =>
      if (all_digits k && (negb (Ascii.eqb c "0") || String.eqb r EmptyString))%bool
      then Some (Z.to_nat (fst (parse_digits 0 k)))
      else None
  end.

(** [current[key]] on own properties: the properties of an object, the
    elements and [length] of an array, the characters and [length] of a
    string.  Inherited properties are not modelled. *)
Definition js_index (current : jsval) (key : string) : option jsval :=
  match current with
  | JObj ps => lookup_prop key ps
  | JArr l =>
      if String.eqb key "length" then Some (JNum (Z.of_nat (List.length l)))
      else match array_index key with
           | Some i => nth_error l i
           | None => None
           end
  | JStr s =>
      if String.eqb key "length" then Some (JNum (Z.of_nat (String.length s)))
      else match array_index key with
           | Some i => match String.get i s with
                       | Some c => Some (JStr (str1 c))
                       | None => None
                       end
           | None => None
           end
  | _ => None
  end.

(** [p.match(/^([^\[]+)\[(\d+)\]$/)] as the pair (key, index). *)
Definition array_match (p : string) : option (string * nat) :=
  match span_not "[" p with
  | (String c key, String _ after) =>
      match span_not "]" after with
      | (String d digits, String _ EmptyString) =>
          if all_digits (String d digits)
          then Some (String c key, Z.to_nat (fst (parse_digits 0 (String d digits))))
          else None
      | _ => None
      end
  | _ => None
  end.

Definition getData_step (current : option jsval) (p : string) : option jsval :=
  match current with
  | None | Some JNull => current
  | Some cur =>
      match
        (if (contains_char "[" p && contains_char "]" p)%bool
         then array_match p else None)
      with
      | Some (key, index) =>
          match js_index cur key with
          | Some (JArr l) => nth_error l index
          | other => other
          end
      | None => js_index cur p
      end
  end.

(** [getData(workflow, path)] for a non-empty string path; [None] is
    [undefined]. *)
Definition getData (workflow : jsval) (path : string) : option jsval :=
  if String.eqb path EmptyString then None
  else fold_left getData_step (split_on "." path) (Some workflow).

(** ** [setTaskDataValues] *)

(** The chain of [replace] calls applied to a string value before it is
    spliced into the JSON text. *)
Definition escape_for_json (dataValue : string) : string :=
  let s1 := replace_char backslash (String backslash (str1 backslash)) dataValue in
  let s2 := replace_char "/" (String backslash "/") s1 in
  let s3 := replace_word_boundaries false (String backslash "b") s2 in
  let s4 := replace_char "012" (String backslash "f") s3 in
  let s5 := replace_char "010" (String backslash "n") s4 in
  let s6 := replace_char "013" (String backslash "r") s5 in
  let s7 := replace_char "009" (String backslash "t") s6 in
  let s8 := replace_char dquote (String backslash (str1 dquote)) s7 in
  replace_char "'" (String backslash "'") s8.

(** One turn of the loop over [refValues]. *)
Definition resolve_ref (workflow : jsval) (valueStr rawRef : string) : string :=
  let ref := slice_2_m1 rawRef in
  let dataValue := match getData workflow ref with Some v => v | None => JNull end in
  match dataValue with
  | JStr s => replace_first rawRef (escape_for_json s) valueStr
  | _ =>
      let jsonVal := JSON_stringify dataValue in
      let before := replace_first (String dquote (rawRef +:+ str1 dquote)) jsonVal valueStr in
      if String.eqb valueStr before
      then replace_first rawRef (js_String dataValue) valueStr
      else before
  end.

(** The body of the loop over the task's property keys: the new value of
    one property, read against the workflow as it stands. *)
Definition resolve_value (workflow : jsval) (value : jsval) : jsval :=
  let valueStr := JSON_stringify value in
  match match_refs 0 valueStr with
  | [] => value
  | refValues =>
      match JSON_parse (fold_left (resolve_ref workflow) refValues valueStr) with
      | Some parsed => parsed
      | None => value
      end
  end.

(* ================================================================== *)
(** * The task tree (processus.js) *)
(* ================================================================== *)

(** A reference to an object inside the workflow is the list of property
    names that leads to it from the root; two references alias exactly when
    the paths are equal. *)
Abbreviation path := (list string).

Fixpoint read_path (p : path) (v : jsval) : option jsval :=
  match p with
  | [] => Some v
  | k :: p' =>
      match get_prop v k with
      | Some c => read_path p' c
      | None => None
      end
  end.

Fixpoint write_path (p : path) (x : jsval) (v : jsval) : jsval :=
  match p with
  | [] => x
  | k :: p' =>
      match get_prop v k with
      | Some c => set_prop v k (write_path p' x c)
      | None => v
      end
  end.

(** [f] applied to the value of property [k], found by a structural walk
    over the property list. *)
Definition on_prop {A : Type} (k : string) (f : jsval -> A) (dflt : A) : props -> A :=
  fix go (ps : props) : A :=
    match ps with
    | [] => dflt
    | (k', v) :: ps' => if String.eqb k k' then f v else go ps'
    end.

Section ScanAllTasks.
Context {S : Type}.

(** The visitor receives the scan state, the reference of the task, the
    task and its name; it returns the new state, the task as it left it and
    the continue signal. *)
Variable callback : S -> path -> jsval -> string -> S * jsval * bool.

(** [scanAllTasks(tasks, deep, callback)].  [here] is the reference of the
    mapping being scanned.  The recursion enters the children the task had
    when the visitor was called: no visitor of the source that asks to
    continue replaces [task.tasks].  The mapping and its tasks are plain
    objects, visited in the order of the entries: the source also visits
    an array, under the names [0], [1], ..., and lists names that are array
    indices first; those mappings are outside the model, and the theorems
    about scans are stated for the mappings of [plain_mapping]. *)
Fixpoint scanAllTasks (deep : bool) (here : path) (tasks : jsval) (s : S)
  {struct tasks} : S * jsval * bool :=
  match tasks with
  | JObj entries =>
      let fix loop (l : props) (s : S) {struct l} : S * props * bool :=
        match l with
        | [] => (s, [], true)
        | (taskName, task) :: l' =>
            match task with
            | JObj fields =>
                let '(s1, task1, continueScan) :=
                  callback s (here ++ [taskName]) task taskName in
                if negb continueScan then (s1, (taskName, task1) :: l', false)
                else
                  let '(s2, task2, childScan) :=
                    if deep then
                      on_prop "tasks"
                        (fun children =>
                           let '(s2, children2, c) :=
                             scanAllTasks true (here ++ [taskName; "tasks"]) children s1 in
                           (s2, (if is_object children
                                 then set_prop task1 "tasks" children2
                                 else task1), c))
                        (s1, task1, true) fields
                    else (s1, task1, true) in
                  if negb childScan then (s2, (taskName, task2) :: l', false)
                  else
                    let '(s3, l3, c3) := loop l' s2 in
                    (s3, (taskName, task2) :: l3, c3)
            | _ =>
                let '(s3, l3, c3) := loop l' s in
                (s3, (taskName, task) :: l3, c3)
            end
        end in
      let '(s', entries', c) := loop entries s in
      (s', JObj entries', c)
  | _ => (s, tasks, true)
  end.
End ScanAllTasks.

(** A JS dictionary [name -> reference]: assignment keeps the place of an
    existing key. *)
Fixpoint dict_set {A : Type} (k : string) (v : A) (d : list (string * A))
  : list (string * A) :=
  match d with
  | [] => [(k, v)]
  | (k', v') :: d' =>
      if String.eqb k k' then (k, v) :: d' else (k', v') :: dict_set k v d'
  end.

(** [getTasksByStatus(parent, status, deep)]: the dictionary of the tasks
    with that status, by reference from [parent]. *)
Definition getTasksByStatus (parent : jsval) (status : string) (deep : bool)
  : list (string * path) :=
  match get_prop parent "tasks" with
  | Some tasks =>
      map (fun entry => (fst entry, "tasks" :: snd entry))
        (fst (fst (scanAllTasks
                     (fun openTasks p task name =>
                        ((if str_is (status_of task) status
                          then dict_set name p openTasks else openTasks), task, true))
                     deep [] tasks [])))
  | None => []
  end.

(** [childHasStatus(parent, status, all)]. The scan state is the pair
    [(hasChecked, matchStatus)].  The mapping is a plain object, as for
    [scanAllTasks]. *)
Definition childHasStatus (parent : jsval) (status : string) (all : bool) : bool :=
  match get_prop parent "tasks" with
  | Some (JObj (e :: entries)) =>
      let '(hasChecked, matchStatus) :=
        fst (fst (scanAllTasks
                    (fun (_ : bool * bool) (_ : path) task (_ : string) =>
                       let matchStatus := str_is (status_of task) status in
                       ((true, matchStatus), task,
                        if (matchStatus && negb all)%bool then false
                        else if (negb matchStatus && all)%bool then false
                        else true))
                    true [] (JObj (e :: entries)) (false, false))) in
      (hasChecked && matchStatus)%bool
  | _ => false
  end.

(** [setTaskStatusWaiting(workflow)]. *)
Definition setTaskStatusWaiting (workflow : jsval) : jsval :=
  let workflow := set_prop workflow "status" (JStr "open") in
  if negb (truthy (get_prop workflow "tasks")) then
    set_prop workflow "tasks" (JObj [])
  else
    match get_prop workflow "tasks" with
    | Some tasks =>
        set_prop workflow "tasks"
          (snd (fst (scanAllTasks
                       (fun (_ : unit) (_ : path) task (_ : string) =>
                          (tt,
                           (if negb (truthy (status_of task))
                            then set_prop task "status" (JStr "waiting") else task),
                           true))
                       true ["tasks"] tasks tt)))
    | None => workflow
    end.

Section Clock.
(** [Date.now()]: the clock reading at each successive call. *)
Variable clock : nat -> Z.

(** [openTasks(tasks)], threading the tick counter of the clock. *)
Fixpoint openTasks (tasks : jsval) (tick : nat) {struct tasks} : nat * jsval :=
  if negb (truthy (Some tasks)) then (tick, tasks)
  else
    let '(tick', tasks', _) :=
      scanAllTasks
        (fun (tick : nat) (_ : path) (task : jsval) (_ : string) =>
           match task with
           | JObj fields =>
               if str_is (status_of task) "open" then
                 let '(tick1, task1) :=
                   if childHasStatus task "waiting" false then
                     on_prop "tasks"
                       (fun children =>
                          let '(t, children') := openTasks children tick in
                          (t, set_prop task "tasks" children'))
                       (tick, task) fields
                   else (tick, task) in
                 (tick1, task1, negb (isBlocking task1))
               else if str_is (status_of task) "waiting" then
                 let task1 := set_prop task "status" (JStr "open") in
                 let task2 := set_prop task1 "timeOpened" (JNum (clock tick)) in
                 let '(tick3, task3) :=
                   if truthy (get_prop task "tasks") then
                     on_prop "tasks"
                       (fun children =>
                          let '(t, children') := openTasks children (S tick) in
                          (t, set_prop task2 "tasks" children'))
                       (S tick, task2) fields
                   else (S tick, task2) in
                 (tick3, task3, negb (isBlocking task3))
               else (tick, task, true)
           | _ => (tick, task, true)
           end)
        false [] tasks tick in
    (tick', tasks').

(** [openNextAvailableTask(workflow)]; the boolean it returns is not used
    by its caller. *)
Definition openNextAvailableTask (workflow : jsval) (tick : nat) : nat * jsval :=
  match get_prop workflow "tasks" with
  | Some tasks =>
      if truthy (Some tasks) then
        let '(tick', tasks') := openTasks tasks tick in
        (tick', set_prop workflow "tasks" tasks')
      else (tick, workflow)
  | None => (tick, workflow)
  end.
End Clock.

(* ================================================================== *)
(** * Errors, handlers and the store interface *)
(* ================================================================== *)

Inductive exn : Type :=
| Error (message : string)
| TypeError (message : string)
| SyntaxError (message : string).

Definition message_of (e : exn) : string :=
  match e with Error m | TypeError m | SyntaxError m => m end.

(** Where a run of the scheduler returned: a failed save at save point a,
    the paused check, a batch with a failed task, the idle check; or an
    exception caught by [execute]. *)
Inductive exit : Type :=
| ExitSaveFailed
| ExitPaused
| ExitBatchFailed
| ExitIdle
| ExitThrown.

(** [handler.default(workflowId, taskName, taskObject, callback)]: the error
    and the task the handler reports to its callback. *)
Definition handler : Type := option jsval -> string -> jsval -> option exn * jsval.

(** The outcome of [await import(specifier)]. *)
Inductive module : Type :=
| ImportFails (message : string)
| NoDefaultFunction
| DefaultExport (h : handler).

(** The operations of [persistence/store.js] that the engine calls.  A save
    is given the reading [Date.now()] would return and hands back the
    workflow object, which a backend may have stamped. *)
Class Store (St : Type) : Type := {
  saveInstance : St -> Z -> jsval -> St * jsval * option exn;
  loadInstance : St -> string -> Z -> exn + jsval;
}.

(** The only property a save may set on the workflow object is [_id] (the
    document backend lets the driver stamp it). *)
Class SaveFrame (St : Type) `{Store St} : Prop :=
  save_frame : forall st now workflow k,
    k <> "_id" ->
    get_prop (snd (fst (saveInstance st now workflow))) k = get_prop workflow k.

(* ================================================================== *)
(** * The engine (processus.js) *)
(* ================================================================== *)

Section Engine.
Context {St : Type} `{Store St}.

(** [Date.now()] at each successive call. *)
Variable clock : nat -> Z.
(** The JS binary [-] on two property reads, with its coercions. *)
Variable js_minus : option jsval -> option jsval -> jsval.
(** The dynamic [import()] of a handler module. *)
Variable import : string -> module.
(** [process.env] and the identifier [uuidv4()] draws. *)
Variable process_env : list (string * string).
Variable uuidv4 : string.

(** The tail shared by both branches of [executeTask]:
    [if (task.status === "executing") {...}]. *)
Definition complete_if_executing (task : jsval) (tick : nat) : nat * jsval :=
  if str_is (status_of task) "executing" then
    let t1 := set_prop task "status" (JStr "completed") in
    let t2 := set_prop t1 "timeCompleted" (JNum (clock tick)) in
    let t3 := set_prop t2 "handlerDuration"
                (js_minus (get_prop t2 "timeCompleted") (get_prop t2 "timeStarted")) in
    let t4 := set_prop t3 "totalDuration"
                (js_minus (get_prop t3 "timeCompleted") (get_prop t3 "timeOpened")) in
    (S tick, t4)
  else (tick, task).

(** [skip] as [executeTask] computes it. *)
Definition skip_of (taskObject : jsval) : bool :=
  (is_true (get_prop taskObject "skipIf")
   || is_true (get_prop taskObject "errorIf")
   || negb (truthy (get_prop taskObject "handler")))%bool.

(** What one call of [executeTask] did: the clock tick it left, the error
    and the task it reported, and whether the handler function ran. *)
Record executed : Type := Executed {
  ex_tick : nat;
  ex_err : option exn;
  ex_task : jsval;
  ex_invoked : bool;
}.

(** [executeTask(workflowId, taskName, taskObject, callback)]. *)
Definition executeTask (workflowId : option jsval) (taskName : string)
  (taskObject : jsval) (tick : nat) : executed :=
  let taskObject := set_prop taskObject "timeStarted" (JNum (clock tick)) in
  let tick := S tick in
  let skip := skip_of taskObject in
  let taskObject := set_prop taskObject "handlerExecuted" (JBool (negb skip)) in
  if negb skip then
    match
      match get_prop taskObject "handler" with
      | Some h => import (js_String h)
      | None => NoDefaultFunction
      end
    with
    | DefaultExport h =>
        let '(err, returnedTask) := h workflowId taskName taskObject in
        let '(err, returnedTask) :=
          match err with
          | Some e =>
              let r1 := set_prop returnedTask "errorMsg" (JStr (message_of e)) in
              let r2 := set_prop r1 "status" (JStr "error") in
              if is_true (get_prop r2 "ignoreError")
              then (None, set_prop r2 "status" (JStr "executing"))
              else (Some e, r2)
          | None => (None, returnedTask)
          end in
        let '(tick, returnedTask) := complete_if_executing returnedTask tick in
        let '(tick, returnedTask) :=
          if str_is (status_of returnedTask) "paused" then
            (S tick,
             set_prop returnedTask "handlerDuration"
               (js_minus (Some (JNum (clock tick))) (get_prop returnedTask "timeStarted")))
          else (tick, returnedTask) in
        Executed tick err returnedTask true
    | failed =>
        let msg :=
          match failed with
          | ImportFails m => m
          | _ => "Handler module must export a default function"
          end in
        let t1 := set_prop taskObject "errorMsg" (JStr msg) in
        let t2 := set_prop t1 "status" (JStr "error") in
        Executed tick (Some (Error ("Missing module or unexpected error! " +:+ msg)))
          t2 false
    end
  else
    let '(err, taskObject) :=
      if is_true (get_prop taskObject "errorIf") then
        let e := Error ("Task [" +:+ taskName +:+ "] has error condition set.") in
        (Some e,
         set_prop (set_prop taskObject "errorMsg" (JStr (message_of e)))
           "status" (JStr "error"))
      else (None, taskObject) in
    let '(tick, taskObject) := complete_if_executing taskObject tick in
    Executed tick err taskObject false.

(** [setTaskDataValues(workflow, task)], the task given by reference: the
    keys are those the task had on entry, and each property is resolved
    against the workflow as the previous assignments left it. *)
Definition setTaskDataValues (workflow : jsval) (p : path) : jsval :=
  match read_path p workflow with
  | Some (JObj fields) =>
      fold_left
        (fun wf propKey =>
           match read_path p wf with
           | Some task =>
               match get_prop task propKey with
               | Some value =>
                   write_path p (set_prop task propKey (resolve_value wf value)) wf
               | None => wf
               end
           | None => wf
           end)
        (map fst fields) workflow
  | _ => workflow
  end.

(** Apply a change to the task behind a reference. *)
Definition modify (p : path) (f : jsval -> jsval) (workflow : jsval) : jsval :=
  match read_path p workflow with
  | Some task => write_path p (f task) workflow
  | None => workflow
  end.

(** The three statements that precede every push on the execution queue:
    [setTaskDataValues(workflow, task); setConditionValues(task);
     task.status = "executing"]. *)
Definition prepare (p : path) (workflow : jsval) : jsval :=
  modify p (fun task => set_prop (setConditionValues task) "status" (JStr "executing"))
    (setTaskDataValues workflow p).

(** One turn of the loop that fills [taskExecutionQueue]. *)
Definition enqueue (acc : jsval * list (string * path)) (entry : string * path)
  : jsval * list (string * path) :=
  let '(workflow, queue) := acc in
  let p := snd entry in
  let is_open wf :=
    match read_path p wf with
    | Some task => str_is (status_of task) "open"
    | None => false
    end in
  let has_tasks wf :=
    match read_path p wf with
    | Some task => truthy (get_prop task "tasks")
    | None => false
    end in
  let '(workflow, queue) :=
    if (is_open workflow && negb (has_tasks workflow))%bool
    then (prepare p workflow, (queue ++ [entry])%list)
    else (workflow, queue) in
  if (is_open workflow && has_tasks workflow)%bool then
    match read_path p workflow with
    | Some task =>
        if childHasStatus task "completed" true
        then (prepare p workflow, (queue ++ [entry])%list)
        else (workflow, queue)
    | None => (workflow, queue)
    end
  else (workflow, queue).

(** [asyncLib.parallel(taskExecutionQueue, ...)]: every queued task is
    executed; the error handed to the final callback is the first one. *)
Definition run_one (acc : nat * jsval * option exn * list string)
  (entry : string * path) : nat * jsval * option exn * list string :=
  let '(tick, workflow, error, invoked) := acc in
  match read_path (snd entry) workflow with
  | Some taskObject =>
      let r := executeTask (get_prop workflow "id") (fst entry) taskObject tick in
      (ex_tick r,
       write_path (snd entry) (ex_task r) workflow,
       match error with Some e => Some e | None => ex_err r end,
       if ex_invoked r then (invoked ++ [fst entry])%list else invoked)
  | None => acc
  end.

Definition run_batch (queue : list (string * path)) (tick : nat) (workflow : jsval)
  : nat * jsval * option exn * list string :=
  fold_left run_one queue (tick, workflow, None, []).

(** The result of a run: the place where the scheduler returned, the store
    and the clock tick it leaves, the pair handed to the callback, and the
    names of the tasks whose handler function was called, in order. *)
Record run : Type := Run {
  run_exit : exit;
  run_store : St;
  run_tick : nat;
  run_err : option exn;
  run_instance : jsval;
  run_invoked : list string;
}.

(** [realExecute(workflow, callback)].  [fuel] bounds the number of
    batches; [None] means the bound was reached. *)
Fixpoint realExecute (fuel : nat) (st : St) (tick : nat) (invoked : list string)
  (workflow : jsval) : option run :=
  match fuel with
  | O => None
  | S fuel' =>
      (* save point a *)
      let '(st, workflow, err) := saveInstance st (clock tick) workflow in
      let tick := S tick in
      match err with
      | Some e => Some (Run ExitSaveFailed st tick (Some e) workflow invoked)
      | None =>
          match getTasksByStatus workflow "paused" true with
          | _ :: _ => Some (Run ExitPaused st tick None workflow invoked)
          | [] =>
              let '(tick, workflow) := openNextAvailableTask clock workflow tick in
              let openTasks := getTasksByStatus workflow "open" true in
              let '(workflow, taskExecutionQueue) :=
                fold_left enqueue openTasks (workflow, []) in
              match taskExecutionQueue with
              | _ :: _ =>
                  let '(tick, workflow, error, ran) :=
                    run_batch taskExecutionQueue tick workflow in
                  let invoked := (invoked ++ ran)%list in
                  match error with
                  | None => realExecute fuel' st tick invoked workflow
                  | Some error =>
                      let workflow := set_prop workflow "status" (JStr "error") in
                      (* save point b *)
                      let '(st, workflow, saveErr) :=
                        saveInstance st (clock tick) workflow in
                      Some (Run ExitBatchFailed st (S tick)
                              (match saveErr with
                               | Some e => Some e
                               | None => Some error
                               end)
                              workflow invoked)
                  end
              | [] =>
                  let workflow :=
                    if childHasStatus workflow "completed" true
                    then set_prop workflow "status" (JStr "completed")
                    else workflow in
                  (* save point c *)
                  let '(st, workflow, saveErr) :=
                    saveInstance st (clock tick) workflow in
                  Some (Run ExitIdle st (S tick) saveErr workflow invoked)
              end
          end
      end
  end.

(** [executePrePost(workflow, taskName, task, callback)].  The callback
    ignores what [executeTask] reports.  A hook that is truthy but not an
    object makes [task.status = "executing"] throw (module code is strict). *)
Definition executePrePost (workflow : jsval) (taskName : string) (tick : nat)
  (invoked : list string) : exn + (nat * jsval * list string) :=
  match get_prop workflow taskName with
  | Some task =>
      if truthy (Some task) then
        if is_object task then
          let workflow := setTaskDataValues workflow [taskName] in
          let workflow :=
            modify [taskName]
              (fun task =>
                 set_prop (set_prop (setConditionValues task) "status" (JStr "executing"))
                   "timeOpened" (JNum (clock tick)))
              workflow in
          match read_path [taskName] workflow with
          | Some task =>
              let r := executeTask (get_prop workflow "id") taskName task (S tick) in
              inr (ex_tick r, write_path [taskName] (ex_task r) workflow,
                   if ex_invoked r then (invoked ++ [taskName])%list else invoked)
          | None => inr (S tick, workflow, invoked)
          end
        else inl (TypeError "Cannot create property 'status'")
      else inr (tick, workflow, invoked)
  | None => inr (tick, workflow, invoked)
  end.

Definition doPre (workflow : jsval) := executePrePost workflow "pre workflow".
Definition doPost (workflow : jsval) := executePrePost workflow "post workflow".

(** [addEnvVars(workflow)]: assigns on the object it is given. *)
Definition addEnvVars (workflow : jsval) : jsval :=
  set_prop workflow "environment"
    (JObj (map (fun kv => (fst kv, JStr (snd kv))) process_env)).

(** [validateWorkflow(workflow)]: works on a JSON clone; [None] is the
    exception [JSON.parse] would throw. *)
Definition validateWorkflow (workflow : jsval) : option jsval :=
  match JSON_parse (JSON_stringify workflow) with
  | Some workflow =>
      let workflow := setTaskStatusWaiting workflow in
      Some (if negb (truthy (get_prop workflow "id"))
            then set_prop workflow "id" (JStr uuidv4)
            else workflow)
  | None => None
  end.

(** What a call of [execute] leaves behind: the object the caller passed
    in, as the call left it, and the run ([None] when the fuel ran out). *)
Record execution : Type := Execution {
  caller_object : jsval;
  outcome : option run;
}.

(** [execute(workflow, callback)]. *)
Definition execute (fuel : nat) (st : St) (tick : nat) (workflow : jsval)
  : execution :=
  if negb (is_object workflow) then
    Execution workflow
      (Some (Run ExitThrown st tick
               (Some (TypeError "Cannot create property 'environment'")) workflow []))
  else
    let caller := addEnvVars workflow in
    match validateWorkflow caller with
    | None =>
        Execution caller
          (Some (Run ExitThrown st tick (Some (SyntaxError "Unexpected token")) caller []))
    | Some workflow =>
        Execution caller
          match doPre workflow tick [] with
          | inl e => Some (Run ExitThrown st tick (Some e) workflow [])
          | inr (tick, wf, invoked) =>
              match realExecute fuel st tick invoked wf with
              | None => None
              | Some r =>
                  match run_err r with
                  | Some err2 => Some r
                  | None =>
                      match doPost (run_instance r) (run_tick r) (run_invoked r) with
                      | inl e =>
                          Some (Run ExitThrown (run_store r) (run_tick r) (Some e)
                                  (run_instance r) (run_invoked r))
                      | inr (tick, finalWf, invoked) =>
                          Some (Run (run_exit r) (run_store r) tick None finalWf invoked)
                      end
                  end
              end
          end
    end.

(** [mergeTask(originalTask, newTask)]; a property of [newTask] that is
    absent is assigned as [undefined]. *)
Definition mergeTask (originalTask newTask : jsval) (tick : nat) : jsval :=
  let t1 := set_prop_opt originalTask "parameters" (get_prop newTask "parameters") in
  let t2 := set_prop_opt t1 "status" (get_prop newTask "status") in
  let t3 := set_prop_opt t2 "errorIf" (get_prop newTask "errorIf") in
  let t4 := set_prop_opt t3 "skipIf" (get_prop newTask "skipIf") in
  let t5 := set_prop_opt t4 "tasks" (get_prop newTask "tasks") in
  let t6 := set_prop t5 "timeCompleted" (JNum (clock tick)) in
  set_prop t6 "totalDuration"
    (js_minus (get_prop t6 "timeCompleted") (get_prop t6 "timeOpened")).

(** One turn of the loop of [mergeTasks]: the first task named [t] in
    scan order is merged and the scan stops.  The scan state is the clock
    tick and the [TypeError] of reading a property of [null]. *)
Definition merge_named (tasks : props) (acc : nat * option exn * jsval) (t : string)
  : nat * option exn * jsval :=
  let '(tick, thrown, workflow) := acc in
  match thrown, get_prop workflow "tasks" with
  | None, Some wtasks =>
      let '(s, wtasks', _) :=
        scanAllTasks
          (fun (s : nat * option exn) (_ : path) (task : jsval) (name : string) =>
             if String.eqb t name then
               match lookup_prop t tasks with
               | Some JNull | None =>
                   ((fst s, Some (TypeError "Cannot read properties of null")), task, false)
               | Some newTask => ((S (fst s), None), mergeTask task newTask (fst s), false)
               end
             else (s, task, true))
          true ["tasks"] wtasks (tick, None) in
      (fst s, snd s, set_prop workflow "tasks" wtasks')
  | _, _ => acc
  end.

(** [mergeTasks(workflow, tasks)]. *)
Definition mergeTasks (workflow : jsval) (tasks : jsval) (tick : nat)
  : nat * option exn * jsval :=
  match tasks with
  | JObj entries => fold_left (merge_named entries) (map fst entries) (tick, None, workflow)
  | _ => (tick, None, workflow)
  end.

(** What the callback of [updateTasks] receives, and the store and clock
    left behind; [None] when the fuel ran out. *)
Record reply : Type := Reply {
  rp_store : St;
  rp_tick : nat;
  rp_err : option exn;
  rp_instance : option jsval;
  rp_invoked : list string;
}.

(** [updateTasks(id, tasks, callback)]. *)
Definition updateTasks (fuel : nat) (st : St) (tick : nat) (id : string)
  (tasks : jsval) : option reply :=
  match loadInstance st id 0 with
  | inl err => Some (Reply st tick (Some err) None [])
  | inr JNull => Some (Reply st tick (Some (TypeError "Cannot read properties of null")) None [])
  | inr workflow =>
      if negb (str_is (get_prop workflow "status") "completed") then
        let '(tick, thrown, mergedWorkflow) := mergeTasks workflow tasks tick in
        match thrown with
        | Some e => Some (Reply st tick (Some e) None [])
        | None =>
            match outcome (execute fuel st tick mergedWorkflow) with
            | Some r =>
                Some (Reply (run_store r) (run_tick r) (run_err r)
                        (Some (run_instance r)) (run_invoked r))
            | None => None
            end
        end
      else
        Some (Reply st tick
                (Some (Error ("Update failed, workflow [" +:+ id
                              +:+ "] has already completed!")))
                None [])
  end.

Definition reply_of (e : execution) : option reply :=
  match outcome e with
  | Some r =>
      Some (Reply (run_store r) (run_tick r) (run_err r) (Some (run_instance r))
              (run_invoked r))
  | None => None
  end.

(** [runWorkflow(defId, id, workflowTaskJSON, callback)], the exported
    entry point; [id] is [None] for [null] or [undefined]. *)
Definition runWorkflow (fuel : nat) (st : St) (tick : nat) (id : option string)
  (workflowTaskJSON : jsval) : option reply :=
  match id with
  | None => reply_of (execute fuel st tick workflowTaskJSON)
  | Some id => updateTasks fuel st tick id workflowTaskJSON
  end.

(** ** The module namespace of processus.js

    What [import * as p from './processus.js'] binds: one entry per
    [export] of the file.  [FnWorkflow] is a function called as
    [f(workflow, callback)], [FnUpdate] one called as
    [f(id, tasks, callback)]; [FnOther] is an export of another shape. *)
Inductive fnval : Type :=
| FnWorkflow (f : nat -> St -> nat -> jsval -> option reply)
| FnUpdate (f : nat -> St -> nat -> string -> jsval -> option reply)
| FnOther.

Definition processus : list (string * fnval) :=
  [("runWorkflow", FnOther);
   ("updateTasks", FnUpdate updateTasks);
   ("scanAllTasks", FnOther);
   ("getData", FnOther);
   ("setConditionValues", FnOther);
   ("isBlocking", FnOther);
   ("getBoolean", FnOther);
   ("default", FnOther)].

Fixpoint namespace_get (name : string) (ns : list (string * fnval)) : option fnval :=
  match ns with
  | [] => None
  | (n, f) :: ns' => if String.eqb name n then Some f else namespace_get name ns'
  end.

(** * The public API (api.js) *)

(** How a call of an API function ends: it throws, it calls back, it
    returns without calling back, or the model ran out of fuel. *)
Inductive api_result : Type :=
| Throws (e : exn)
| CallsBack (r : reply)
| Returns
| OutOfFuel.

Definition calls_back (r : option reply) : api_result :=
  match r with Some r => CallsBack r | None => OutOfFuel end.

(** [execute(workflow, callback)] of api.js. [workflow] is [None] for
    [undefined]; [callback_is_function] is [typeof callback === 'function']. *)
Definition api_execute (fuel : nat) (st : St) (tick : nat)
  (workflow : option jsval) (callback_is_function : bool) : api_result :=
  if negb (truthy workflow) then
    if callback_is_function
    then CallsBack (Reply st tick (Some (Error "Workflow object is required")) None [])
    else Throws (TypeError "callback is not a function")
  else if negb callback_is_function then
    Throws (Error "Callback function is required")
  else
    match workflow, namespace_get "execute" processus with
    | _, None => Throws (TypeError "p.execute is not a function")
    | Some workflow, Some (FnWorkflow f) => calls_back (f fuel st tick workflow)
    | _, Some _ => Returns
    end.

(** [updateWorkflow(workflowId, tasks, callback)] of api.js; an array
    passes the test [typeof tasks !== 'object'] as an object does. *)
Definition api_updateWorkflow (fuel : nat) (st : St) (tick : nat)
  (workflowId : string) (tasks : option jsval) (callback_is_function : bool)
  : api_result :=
  if String.eqb workflowId EmptyString then
    if callback_is_function
    then CallsBack (Reply st tick (Some (Error "Workflow ID is required")) None [])
    else Throws (TypeError "callback is not a function")
  else
    match tasks with
    | Some ((JObj _ | JArr _) as tasks) =>
        if negb callback_is_function then
          Throws (Error "Callback function is required")
        else
          match namespace_get "updateTasks" processus with
          | None => Throws (TypeError "p.updateTasks is not a function")
          | Some (FnUpdate f) => calls_back (f fuel st tick workflowId tasks)
          | Some _ => Returns
          end
    | _ =>
        if callback_is_function
        then CallsBack (Reply st tick (Some (Error "Tasks object is required")) None [])
        else Throws (TypeError "callback is not a function")
    end.
End Engine.

(* ================================================================== *)
(** * The file backend (persistence/file.js) *)
(* ================================================================== *)

Module FileStore.

(** The data directory: file name to contents. *)
Record t : Type := Make {
  dataDirectory : string;
  files : gmap string string;
}.

(** [path.join(gConfig.dataDirectory, id)] for an id that is a plain file
    name ([plain_id]): nothing in it for [path.join] to normalise. *)
Definition join (dir id : string) : string := dir +:+ "/" +:+ id.

(** Whether [name] matches the glob [`${current}_*`], for a [current]
    that holds nothing a glob pattern reads as a pattern ([plain_id]): the
    star stands for any characters but the slash. *)
Definition is_history_of (current name : string) : bool :=
  (String.prefix (current +:+ "_") name
   && negb (contains_char "/" (drop_str (String.length current + 1) name)))%bool.

(** [glob(`${current}_*`)]. *)
Definition glob_history (current : string) (fs : gmap string string)
  : gmap string string :=
  filter (fun kv => is_history_of current (fst kv) = true) fs.

(** The historical records held for an instance id. *)
Definition history_count (st : t) (id : string) : nat :=
  size (glob_history (join (dataDirectory st) id) (files st)).

(** The current record held for an instance id. *)
Definition current_record (st : t) (id : string) : option string :=
  files st !! join (dataDirectory st) id.

(** [saveInstance(workflow, callback)]: when the current file exists it is
    renamed to [`${current}_${Date.now()}`]; then the current file is
    written.  The data directory exists and the id is a plain file name
    ([plain_id]), so that the file system refuses neither step. *)
Definition saveInstance (st : t) (now : Z) (workflow : jsval)
  : t * jsval * option exn :=
  match get_prop workflow "id" with
  | Some (JStr id) =>
      let current := join (dataDirectory st) id in
      let archived :=
        match files st !! current with
        | Some contents =>
            <[current +:+ "_" +:+ pretty now := contents]> (delete current (files st))
        | None => files st
        end in
      (Make (dataDirectory st) (<[current := JSON_stringify workflow]> archived),
       workflow, None)
  | _ => (st, workflow, Some (TypeError "The path argument must be of type string"))
  end.

(** [loadInstance(id, rewind, callback)]. *)
Definition loadInstance (st : t) (id : string) (rewind : Z) : exn + jsval :=
  let current := join (dataDirectory st) id in
  let found := merge_sort String.le (map fst (map_to_list (glob_history current (files st)))) in
  let n := Z.of_nat (List.length found) in
  let targetFile :=
    if ((0 <? n) && (0 <? rewind))%bool then
      let rewind := if n <? rewind then n else rewind in
      let index := n - rewind in
      nth (Z.to_nat (if 0 <=? index then index else 0)) found current
    else current in
  match files st !! targetFile with
  | Some data =>
      match JSON_parse data with
      | Some workflowLoaded => inr workflowLoaded
      | None => inl (SyntaxError "Unexpected token")
      end
  | None => inl (Error "ENOENT: no such file or directory")
  end.

#[global] Instance store : Store t := Build_Store t saveInstance loadInstance.

End FileStore.

(* ================================================================== *)
(** * The document backend (persistence/mongo.js) *)
(* ================================================================== *)

Module MongoStore.

(** The two collections the instance operations touch.  The driver stamps
    a document that has no [_id] with a fresh one ([next_oid] numbers
    them), and the unique index on [id] rejects a second insert of an
    [id] into [instances]. *)
Record t : Type := Make {
  instances : list jsval;
  history : list jsval;
  next_oid : nat;
}.

Definition oid (n : nat) : jsval := JStr ("oid" +:+ pretty n).

Definition has_id (id : option jsval) (doc : jsval) : bool :=
  match id, get_prop doc "id" with
  | Some (JStr a), Some (JStr b) => String.eqb a b
  | _, _ => false
  end.

Definition has_oid (o : option jsval) (doc : jsval) : bool :=
  match o, get_prop doc "_id" with
  | Some (JStr a), Some (JStr b) => String.eqb a b
  | _, _ => false
  end.

Fixpoint replace_where (p : jsval -> bool) (doc : jsval) (docs : list jsval)
  : option (list jsval) :=
  match docs with
  | [] => None
  | d :: docs' =>
      if p d then Some (doc :: docs')
      else match replace_where p doc docs' with
           | Some r => Some (d :: r)
           | None => None
           end
  end.

(** The history row of a save:
    [{...clone, _id: undefined, id: `${workflow.id}_${Date.now()}`}]. *)
Definition history_row (st : t) (now : Z) (workflow : jsval) : jsval :=
  let idText :=
    match get_prop workflow "id" with
    | Some v => js_String v
    | None => "undefined"
    end in
  set_prop (set_prop workflow "_id" (oid (next_oid st))) "id"
    (JStr (idText +:+ "_" +:+ pretty now)).

(** [saveInstance(workflow, callback)]. *)
Definition saveInstance (st : t) (now : Z) (workflow : jsval)
  : t * jsval * option exn :=
  if negb (truthy (get_prop workflow "_id")) then
    let workflow := set_prop workflow "_id" (oid (next_oid st)) in
    let st := Make (instances st) (history st) (S (next_oid st)) in
    if existsb (has_id (get_prop workflow "id")) (instances st) then
      (st, workflow, Some (Error "E11000 duplicate key error"))
    else
      let row := history_row st now workflow in
      (Make (instances st ++ [workflow]) (history st ++ [row]) (S (next_oid st)),
       workflow, None)
  else
    match replace_where (has_oid (get_prop workflow "_id")) workflow (instances st) with
    | None =>
        (st, workflow,
         Some (Error ("Instance "
                      +:+ match get_prop workflow "id" with
                          | Some v => js_String v
                          | None => "undefined"
                          end +:+ " not found")))
    | Some docs =>
        let row := history_row st now workflow in
        (Make docs (history st ++ [row]) (S (next_oid st)), workflow, None)
    end.

Definition is_history_row (id : string) (doc : jsval) : bool :=
  match get_prop doc "id" with
  | Some (JStr s) => String.prefix (id +:+ "_") s
  | _ => false
  end.

Definition row_id (doc : jsval) : string :=
  match get_prop doc "id" with Some (JStr s) => s | _ => EmptyString end.

(** The historical records held for an instance id. *)
Definition history_count (st : t) (id : string) : nat :=
  List.length (List.filter (is_history_row id) (history st)).

(** [loadInstance(id, rewind, callback)]. *)
Definition loadInstance (st : t) (id : string) (rewind : Z) : exn + jsval :=
  if rewind =? 0 then
    match List.find (has_id (Some (JStr id))) (instances st) with
    | Some result => inr result
    | None => inl (Error ("Instance " +:+ id +:+ " not found"))
    end
  else
    let rows :=
      merge_sort (fun a b => String.le (row_id a) (row_id b))
        (List.filter (is_history_row id) (history st)) in
    match rows with
    | [] => inl (Error ("No history found for instance " +:+ id))
    | first :: _ =>
        let index := Z.of_nat (List.length rows) - 1 - rewind in
        inr (nth (Z.to_nat (if index <? 0 then 0 else index)) rows first)
    end.

#[global] Instance store : Store t := Build_Store t saveInstance loadInstance.

End MongoStore.

(* ================================================================== *)
(** * The handlers and a world for running the engine *)
(* ================================================================== *)

(** [taskHandlers/logHandler.js]: logs, leaves the task as it is. *)
Definition logHandler : handler :=
  fun _ taskName task =>
    if negb (truthy (get_prop task "parameters")) then
      (Some (Error ("Task [" +:+ taskName +:+ "] has no parameters property!")), task)
    else
      match get_prop task "parameters" with
      | Some parameters =>
          match get_prop parameters "log" with
          | None | Some JNull =>
              (Some (Error ("Task [" +:+ taskName +:+ "] has no parameters.log property!")),
               task)
          | Some _ => (None, task)
          end
      | None => (None, task)
      end.

(** [taskHandlers/testHandler.js]: [parameters.error === true] reports an
    error, [parameters.paused === true] sets the status to [paused]. *)
Definition testHandler : handler :=
  fun _ taskName task =>
    if negb (truthy (get_prop task "parameters")) then
      (Some (Error ("Task [" +:+ taskName +:+ "] has no parameters property!")), task)
    else
      let parameters :=
        match get_prop task "parameters" with Some p => p | None => JNull end in
      let error :=
        if is_true (get_prop parameters "error")
        then Some (Error ("Task [" +:+ taskName +:+ "] is raising a deliberate error"))
        else None in
      let task :=
        if is_true (get_prop parameters "paused")
        then set_prop task "status" (JStr "paused") else task in
      (error, task).

(** A module loader that knows the two handlers under the identifiers the
    scenarios of the specification use. *)
Definition demo_import (specifier : string) : module :=
  if String.eqb specifier "log" then DefaultExport logHandler
  else if String.eqb specifier "test" then DefaultExport testHandler
  else ImportFails ("Cannot find package '" +:+ specifier +:+ "'").

(** A clock that advances by one millisecond at every reading. *)
Definition demo_clock (tick : nat) : Z := 1700000000000 + Z.of_nat tick.

(** [a - b] on numbers; any other operand gives [NaN] here. *)
Definition demo_minus (a b : option jsval) : jsval :=
  match a, b with
  | Some (JNum x), Some (JNum y) => JNum (x - y)
  | _, _ => JNaN
  end.

Definition demo_env : list (string * string) := [("HOME", "/tmp")].
Definition demo_uuid : string := "0f8fad5b-d9cb-469f-a165-70867728950e".

(** An empty data directory. *)
Definition empty_dir : FileStore.t := FileStore.Make "_data" ∅.

(** ** The scenarios of the specification *)

Definition task_log (text : string) : jsval :=
  JObj [("handler", JStr "log"); ("parameters", JObj [("log", JStr text)])].

(** Scenario 1: [{name:"A", tasks:{t1:{handler:"log", parameters:{log:"hi", level:"info"}}}}]. *)
Definition scenario_A : jsval :=
  JObj [("name", JStr "A");
        ("tasks",
         JObj [("t1", JObj [("handler", JStr "log");
                            ("parameters",
                             JObj [("log", JStr "hi"); ("level", JStr "info")])])])].

(** Scenario 5: [{name:"E", tasks:{t1:{handler:"log",
    parameters:{log:"val=$[environment.HOME]"}}}}] with [HOME=/tmp]. *)
Definition scenario_E : jsval :=
  JObj [("name", JStr "E");
        ("tasks", JObj [("t1", task_log "val=$[environment.HOME]")])].


(** [execute] in the demo world, on the file backend. *)
Definition demo_execute (st : FileStore.t) (tick : nat) (workflow : jsval)
  : execution :=
  execute demo_clock demo_minus demo_import demo_env demo_uuid 16 st tick workflow.

Definition instance_after (e : execution (St := FileStore.t)) : jsval :=
  match outcome e with Some r => run_instance r | None => JNull end.

Definition store_after (e : execution (St := FileStore.t)) : FileStore.t :=
  match outcome e with Some r => run_store r | None => empty_dir end.

Definition tick_after (e : execution (St := FileStore.t)) : nat :=
  match outcome e with Some r => run_tick r | None => O end.

(** The backspace character, U+0008. *)
Definition backspace : ascii := "008"%char.

(** The store the first scenario leaves behind, and the instance id it
    was given. *)
Definition store_after_A : FileStore.t := store_after (demo_execute empty_dir 0 scenario_A).
Definition instance_after_A : jsval := instance_after (demo_execute empty_dir 0 scenario_A).

(** A gate without handler and without children whose [errorIf] is true. *)
Definition scenario_gate : jsval :=
  JObj [("name", JStr "G"); ("tasks", JObj [("gate", JObj [("errorIf", JBool true)])])].

(** The task of scenario 2 as the scheduler dispatches it. *)
Definition skipped_task : jsval :=
  JObj [("skipIf", JBool true); ("handler", JStr "log");
        ("parameters", JObj [("log", JStr "x")]); ("status", JStr "executing");
        ("timeOpened", JNum 1700000000001)].

(** A task whose handler fails on purpose and whose error is to be ignored. *)
Definition failing_task : jsval :=
  JObj [("handler", JStr "test"); ("parameters", JObj [("error", JBool true)]);
        ("ignoreError", JBool true); ("status", JStr "executing");
        ("timeOpened", JNum 1700000000001)].


(** ** Sequences of saves *)

(** The file store after the saves of [saves], each a clock reading and the
    workflow saved. *)
Definition save_all (st : FileStore.t) (saves : list (Z * jsval)) : FileStore.t :=
  fold_left (fun st save => fst (fst (FileStore.saveInstance st (fst save) (snd save))))
    saves st.

(** The state of the data directory [dir] once some saves of instance [id]
    have archived under the clock readings [used]: the current file holds
    [contents], and the history files are exactly those readings. *)
Definition tracks (dir id : string) (st : FileStore.t) (used : list Z)
  (contents : string) : Prop :=
  let current := FileStore.join dir id in
  FileStore.dataDirectory st = dir
  /\ FileStore.files st !! current = Some contents
  /\ (forall name,
        is_Some (FileStore.glob_history current (FileStore.files st) !! name) ->
        exists t, In t used /\ name = current +:+ "_" +:+ pretty t)
  /\ size (FileStore.glob_history current (FileStore.files st)) = List.length used.

(** Three saves of the instance scenario 1 ends with, one millisecond apart. *)
Definition three_saves : list (Z * jsval) :=
  [(1700000000010, instance_after_A); (1700000000011, instance_after_A);
   (1700000000012, instance_after_A)].

(** ** The scan, entry by entry *)

Section ScanEntries.
Context {S : Type}.
Variable callback : S -> path -> jsval -> string -> S * jsval * bool.

(** The loop of [scanAllTasks] over the entries of a mapping, as a
    function of its own. *)
Fixpoint scan_entries (deep : bool) (here : path) (l : props) (s : S)
  : S * props * bool :=
  match l with
  | [] => (s, [], true)
  | (taskName, task) :: l' =>
      match task with
      | JObj fields =>
          let '(s1, task1, continueScan) :=
            callback s (here ++ [taskName]) task taskName in
          if negb continueScan then (s1, (taskName, task1) :: l', false)
          else
            let '(s2, task2, childScan) :=
              if deep then
                match lookup_prop "tasks" fields with
                | Some children =>
                    let '(s2, children2, c) :=
                      scanAllTasks callback true (here ++ [taskName; "tasks"])
                        children s1 in
                    (s2, (if is_object children
                          then set_prop task1 "tasks" children2
                          else task1), c)
                | None => (s1, task1, true)
                end
              else (s1, task1, true) in
            if negb childScan then (s2, (taskName, task2) :: l', false)
            else
              let '(s3, l3, c3) := scan_entries deep here l' s2 in
              (s3, (taskName, task2) :: l3, c3)
      | _ =>
          let '(s3, l3, c3) := scan_entries deep here l' s in
          (s3, (taskName, task) :: l3, c3)
      end
  end.
End ScanEntries.

(** ** What the status scans decide *)

(** Every task of the mapping, at every depth, has the given status. *)
Fixpoint every_task (status : string) (tasks : jsval) : bool :=
  match tasks with
  | JObj entries =>
      forallb
        (fun entry =>
           let '(_, task) := entry in
           match task with
           | JObj fields =>
               (str_is (lookup_prop "status" fields) status
                && on_prop "tasks" (every_task status) true fields)%bool
           | _ => true
           end)
        entries
  | _ => true
  end.

(** The mapping holds at least one task. *)
Definition some_task (tasks : jsval) : bool :=
  match tasks with
  | JObj entries => existsb (fun entry => is_object (snd entry)) entries
  | _ => false
  end.

(** [{a: {status: "error", blocking: true}, b: {status: "waiting"}}]. *)
Definition blocking_failed_then_waiting : jsval :=
  JObj [("a", JObj [("status", JStr "error"); ("blocking", JBool true)]);
        ("b", JObj [("status", JStr "waiting")])].

(** An instance whose blocking task [a] failed in an earlier run, with a
    successor [b] that has not run yet. *)
Definition scenario_failed_blocker : jsval :=
  JObj [("name", JStr "B");
        ("tasks",
         JObj [("a", JObj [("handler", JStr "log"); ("blocking", JBool true);
                           ("parameters", JObj [("log", JStr "one"); ("level", JStr "info")]);
                           ("status", JStr "error")]);
               ("b", JObj [("handler", JStr "log");
                           ("parameters", JObj [("log", JStr "two"); ("level", JStr "info")])])])].

(** The visitor [openTasks] hands to [scanAllTasks], as a function of its
    own; the scan state is the tick counter of the clock. *)
Definition open_visit (clock : nat -> Z)
  : nat -> path -> jsval -> string -> nat * jsval * bool :=
  fun (tick : nat) (_ : path) (task : jsval) (_ : string) =>
    match task with
    | JObj fields =>
        if str_is (status_of task) "open" then
          let '(tick1, task1) :=
            if childHasStatus task "waiting" false then
              on_prop "tasks"
                (fun children =>
                   let '(t, children') := openTasks clock children tick in
                   (t, set_prop task "tasks" children'))
                (tick, task) fields
            else (tick, task) in
          (tick1, task1, negb (isBlocking task1))
        else if str_is (status_of task) "waiting" then
          let task1 := set_prop task "status" (JStr "open") in
          let task2 := set_prop task1 "timeOpened" (JNum (clock tick)) in
          let '(tick3, task3) :=
            if truthy (get_prop task "tasks") then
              on_prop "tasks"
                (fun children =>
                   let '(t, children') := openTasks clock children (S tick) in
                   (t, set_prop task2 "tasks" children'))
                (S tick, task2) fields
            else (S tick, task2) in
          (tick3, task3, negb (isBlocking task3))
        else (tick, task, true)
    | _ => (tick, task, true)
    end.



(** ** JSON values and the clone *)

(** What a value becomes through [JSON.parse(JSON.stringify(v))]: [NaN] is
    written as [null]. *)
Fixpoint json_norm (v : jsval) : jsval :=
  match v with
  | JNaN => JNull
  | JArr items => JArr (map json_norm items)
  | JObj fields => JObj (map (fun kv => (fst kv, json_norm (snd kv))) fields)
  | _ => v
  end.

(** No string occurs twice in the list. *)
Fixpoint nodup_keys (ks : list string) : bool :=
  match ks with
  | [] => true
  | k :: ks' => (negb (existsb (String.eqb k) ks') && nodup_keys ks')%bool
  end.

(** The keys of every object of the value are pairwise distinct, as the
    keys of a JS object are. *)
Fixpoint distinct_keys (v : jsval) : bool :=
  match v with
  | JArr items => forallb distinct_keys items
  | JObj fields =>
      (nodup_keys (map fst fields)
       && forallb (fun kv => distinct_keys (snd kv)) fields)%bool
  | _ => true
  end.

(** An upper bound on the fuel [parse_value] needs to read a value back. *)
Fixpoint parse_cost (v : jsval) : nat :=
  match v with
  | JArr items => S (fold_right (fun x acc => S (parse_cost x + acc)) O items)
  | JObj fields => S (fold_right (fun kv acc => S (parse_cost (snd kv) + acc)) O fields)
  | _ => 1
  end.

(** The text [stringify] writes for the items of an array after the first,
    and for the fields of an object after the first, at depth [n]. *)
Definition stringify_items (n : nat) : list jsval -> string :=
  fix more (l : list jsval) : string :=
    match l with
    | [] => EmptyString
    | y :: l' => "," +:+ nl_indent n +:+ stringify n y +:+ more l'
    end.

Definition stringify_fields (n : nat) : props -> string :=
  fix more (l : props) : string :=
    match l with
    | [] => EmptyString
    | (k', y) :: l' =>
        "," +:+ nl_indent n +:+ quote k' +:+ ": " +:+ stringify n y +:+ more l'
    end.

(** [parse_value] reads the text of [v] back, whatever follows it, when the
    fuel covers [parse_cost v]. *)
Definition reads_back (v : jsval) : Prop :=
  forall n rest fuel,
    distinct_keys v = true -> ends_number rest = true -> (parse_cost v <= fuel)%nat ->
    parse_value fuel (stringify n v +:+ rest) = Some (json_norm v, rest).

(** The clone [validateWorkflow] hands back for an instance that has an id
    and whose tasks all have a status: the JSON clone of the instance with
    its environment, with status [open]. *)
Definition reopened (process_env : list (string * string)) (w : jsval) : jsval :=
  set_prop (json_norm (addEnvVars process_env w)) "status" (JStr "open").
(** * The domain of the model

    The values of the model are those of a JSON document.  Some things a
    JavaScript caller can hand to the engine have no counterpart in it: an
    array that stands where a task or a mapping of tasks is expected (the
    scan would visit it, since [typeof [] === 'object'], and write named
    properties on it), a task named by an array index (which [Object.keys]
    lists before the other names), a property found on [Object.prototype],
    a number that is not a safe integer, and a name that is more than a
    file name when the file backend joins it to the data directory or puts
    it into a glob pattern.  The predicates below say when a value stays
    clear of them; the theorems that depend on it carry them as
    hypotheses. *)

(** Every character of the string satisfies [P]. *)
Fixpoint all_chars (P : ascii -> bool) (s : string) : bool :=
  match s with
  | EmptyString => true
  | String c s' => (P c && all_chars P s')%bool
  end.

(** A name that [Object.keys] lists in insertion order: not an array
    index (those come first, in ascending order). *)
Definition task_name (k : string) : bool :=
  match array_index k with Some _ => false | None => true end.

(** A mapping of tasks made of plain objects: neither the mapping, nor a
    task, nor the mapping of the children of a task, at any depth, is an
    array, and no task is named by an array index. *)
Fixpoint plain_mapping (tasks : jsval) : bool :=
  match tasks with
  | JArr _ => false
  | JObj entries =>
      forallb
        (fun entry =>
           (task_name (fst entry)
            && match snd entry with
               | JArr _ => false
               | JObj fields => on_prop "tasks" plain_mapping true fields
               | _ => true
               end)%bool)
        entries
  | _ => true
  end.

(** [parent.tasks], when there is one, is a plain mapping. *)
Definition plain_tasks (parent : jsval) : bool :=
  match get_prop parent "tasks" with
  | Some tasks => plain_mapping tasks
  | None => true
  end.

(** A character of a plain file name: a letter, a digit, an underscore or
    a hyphen. *)
Definition id_char (c : ascii) : bool := (is_word c || Ascii.eqb c "-")%bool.

(** An instance id or definition name that is a plain file name: not
    empty, at most 200 characters, each a letter, a digit, an underscore or
    a hyphen (as the ids [uuidv4()] makes are).  For such a name
    [path.join(dir, name)] is [dir/name], the name holds nothing a glob
    pattern reads as a pattern, and a file of that name can be written in
    an existing directory. *)
Definition plain_id (id : string) : bool :=
  (negb (String.eqb id EmptyString) && Nat.leb (String.length id) 200
   && all_chars id_char id)%bool.

(** The property names every object inherits from [Object.prototype]. *)
Definition Object_prototype : list string :=
  ["constructor"; "__defineGetter__"; "__defineSetter__"; "hasOwnProperty";
   "__lookupGetter__"; "__lookupSetter__"; "isPrototypeOf";
   "propertyIsEnumerable"; "toString"; "valueOf"; "__proto__"; "toLocaleString"].

(** A key that an object has only as an own property, if at all. *)
Definition own_name (k : string) : bool :=
  negb (existsb (String.eqb k) Object_prototype).

(** Every number of the value is a safe integer ([Number.isSafeInteger]),
    so that [String] prints its decimal digits. *)
Fixpoint safe_numbers (v : jsval) : bool :=
  match v with
  | JNum z => (Z.abs z <=? 9007199254740991)
  | JArr items => forallb safe_numbers items
  | JObj fields => forallb (fun kv => safe_numbers (snd kv)) fields
  | _ => true
  end.

(** A task at which the opening scan of [openTasks] stops: an object
    that is blocking and whose status is [waiting] or [open]. *)
Definition barrier (task : jsval) : bool :=
  (is_object task && isBlocking task
   && (str_is (status_of task) "waiting" || str_is (status_of task) "open"))%bool.

(** The opening scan meets no barrier among the entries. *)
Definition no_barrier (entries : props) : bool :=
  forallb (fun entry => negb (barrier (snd entry))) entries.


(** ** Tasks for the test handler *)

(** A dispatched task of the test handler with the given parameters. *)
Definition test_task (parameters : props) : jsval :=
  JObj [("handler", JStr "test"); ("parameters", JObj parameters);
        ("status", JStr "executing"); ("timeOpened", JNum 1700000000001)].

(** A dispatched task whose handler module does not exist. *)
Definition lost_task : jsval :=
  JObj [("handler", JStr "nowhere"); ("status", JStr "executing");
        ("timeOpened", JNum 1700000000001)].

(** The task as the handler receives it: [timeStarted] read from the clock
    and [handlerExecuted] set. *)
Definition started (clock : nat -> Z) (t : jsval) (tick : nat) : jsval :=
  set_prop (set_prop t "timeStarted" (JNum (clock tick))) "handlerExecuted" (JBool true).

(** ** Properties of every task of a tree *)



(** ** The other operations of the file backend (persistence/file.js) *)

Module FileAdmin.
Import FileStore.

(** [deleteInstance(id, callback)]: unlinks the current file, which fails
    when it is not there, then every file the glob [`${current}_*`] finds. *)
Definition deleteInstance (st : t) (id : string) : t * option exn :=
  let current := join (dataDirectory st) id in
  match files st !! current with
  | Some _ =>
      (Make (dataDirectory st)
         (filter (fun kv => is_history_of current (fst kv) = false)
            (delete current (files st))),
       None)
  | None => (st, Some (Error "ENOENT: no such file or directory"))
  end.

(** [s.endsWith(suffix)]. *)
Definition ends_with (suffix s : string) : bool :=
  (Nat.leb (String.length suffix) (String.length s)
   && String.eqb (drop_str (String.length s - String.length suffix) s) suffix)%bool.




(** The text a template literal gives a value. *)
Definition template (v : option jsval) : string :=
  match v with Some v => js_String v | None => "undefined" end.

(** [path.join(gConfig.dataDirectory, `${name}.def`)] for a name that is
    a plain file name ([plain_id]). *)
Definition definition_file (dir name : string) : string :=
  join dir (name +:+ ".def").

(** [saveDefinition(workflowDef, callback)]: the file is overwritten, no
    history is kept; the callback gets the definition it was given.  The
    data directory exists and the name is a plain file name ([plain_id]),
    so that the file system does not refuse the write. *)
Definition saveDefinition (st : t) (workflowDef : jsval) : t * (exn + jsval) :=
  match workflowDef with
  | JNull => (st, inl (TypeError "Cannot read properties of null"))
  | _ =>
      (Make (dataDirectory st)
         (<[definition_file (dataDirectory st) (template (get_prop workflowDef "name"))
            := JSON_stringify workflowDef]> (files st)),
       inr workflowDef)
  end.

(** [getDefinition(name, callback)]. *)
Definition getDefinition (st : t) (name : string) : exn + jsval :=
  match files st !! definition_file (dataDirectory st) name with
  | Some data =>
      match JSON_parse data with
      | Some workflowDef => inr workflowDef
      | None => inl (SyntaxError "Unexpected token")
      end
  | None => inl (Error "ENOENT: no such file or directory")
  end.

(** [deleteDefinition(name, callback)]. *)
Definition deleteDefinition (st : t) (name : string) : t * option exn :=
  match files st !! definition_file (dataDirectory st) name with
  | Some _ =>
      (Make (dataDirectory st) (delete (definition_file (dataDirectory st) name) (files st)),
       None)
  | None => (st, Some (Error "ENOENT: no such file or directory"))
  end.

(** [isYaml(file)]. *)
Definition isYaml (file : string) : bool :=
  (ends_with ".yml" file || ends_with ".yaml" file)%bool.

(** [loadDefinition(id, callback)]: [id] is the path of the file, used as
    it is; [yaml_load] stands for [yaml.load] of js-yaml. *)
Definition loadDefinition (yaml_load : string -> exn + jsval) (st : t) (id : string)
  : exn + jsval :=
  match files st !! id with
  | Some workflowTaskFile =>
      if isYaml id then yaml_load workflowTaskFile
      else match JSON_parse workflowTaskFile with
           | Some workflowTaskJSON => inr workflowTaskJSON
           | None => inl (SyntaxError "Unexpected token")
           end
  | None => inl (Error "ENOENT: no such file or directory")
  end.

End FileAdmin.

(** The store after two saves of an instance, at the clock readings [t1]
    and [t2]. *)
Definition saved_twice (st : FileStore.t) (t1 : Z) (w1 : jsval) (t2 : Z) (w2 : jsval)
  : FileStore.t :=
  save_all st [(t1, w1); (t2, w2)].

(** The instance scenario 1 ends with, under the id [a]. *)
Definition instance_after_A_named : jsval := set_prop instance_after_A "id" (JStr "a").


(** Some task of the mapping, at some depth, has the given status. *)
Fixpoint any_task (status : string) (tasks : jsval) : bool :=
  match tasks with
  | JObj entries =>
      existsb
        (fun entry =>
           match snd entry with
           | JObj fields =>
               (str_is (lookup_prop "status" fields) status
                || on_prop "tasks" (any_task status) false fields)%bool
           | _ => false
           end)
        entries
  | _ => false
  end.

(** The status a task has once [openTasks] has passed over it: a waiting
    task is opened, any other keeps its status. *)
Definition opened_status (task : jsval) : option jsval :=
  if str_is (status_of task) "waiting" then Some (JStr "open") else status_of task.

(** No task of the mapping is blocking. *)
Definition none_blocking (entries : props) : bool :=
  forallb (fun entry => negb (isBlocking (snd entry))) entries.

(** The names of the tasks of a tree, at every depth, in scan order. *)
Fixpoint task_names (tasks : jsval) : list string :=
  match tasks with
  | JObj entries =>
      flat_map
        (fun entry =>
           match snd entry with
           | JObj fields => fst entry :: on_prop "tasks" task_names [] fields
           | _ => []
           end)
        entries
  | _ => []
  end.

(** The properties [mergeTask] copies from the injected task. *)
Definition merged_properties : list string :=
  ["parameters"; "status"; "errorIf"; "skipIf"; "tasks"].

(** None of the names is the name of a task of the instance. *)
Definition unknown_names (names : list string) (workflow : jsval) : bool :=
  match get_prop workflow "tasks" with
  | Some wtasks =>
      forallb (fun t => negb (existsb (String.eqb t) (task_names wtasks))) names
  | None => true
  end.

(** [v !== null]. *)
Definition not_null (v : jsval) : bool :=
  match v with JNull => false | _ => true end.

(** An instance with a paused task [t1] and a task [t2] that waits for it. *)
Definition paused_instance : jsval :=
  JObj [("id", JStr "a"); ("status", JStr "open");
        ("tasks",
         JObj [("t1", JObj [("handler", JStr "test"); ("blocking", JBool true);
                            ("parameters", JObj [("paused", JBool true)]);
                            ("status", JStr "paused");
                            ("timeOpened", JNum 1700000000001)]);
               ("t2", JObj [("handler", JStr "log");
                            ("parameters", JObj [("log", JStr "done")]);
                            ("status", JStr "waiting")])])].



(** ** Paths for [getData] *)

(** The keys joined by dots. *)
Fixpoint dotted (keys : list string) : string :=
  match keys with
  | [] => EmptyString
  | [k] => k
  | k :: ks => k +:+ "." +:+ dotted ks
  end.

(** A key that [getData] reads as it is: it has no dot, and not both an
    opening and a closing bracket. *)
Definition plain_key (k : string) : bool :=
  (negb (contains_char "." k)
   && negb (contains_char "[" k && contains_char "]" k))%bool.

(** The path segment [key[index]]. *)
Definition indexed (key : string) (index : nat) : string :=
  key +:+ "[" +:+ pretty (N.of_nat index) +:+ "]".

(** A workflow with an array. *)
Definition workflow_with_list : jsval :=
  JObj [("result", JObj [("items", JArr [JStr "a"; JStr "b"; JStr "c"]);
                         ("count", JNum 3);
                         ("none", JNull)])].

(** ** Texts for reference resolution *)

(** A character that [JSON.stringify] writes as it is. *)
Definition unescaped (c : ascii) : bool :=
  (negb (Nat.ltb (nat_of_ascii c) 32) && negb (Ascii.eqb c dquote)
   && negb (Ascii.eqb c backslash))%bool.

(** An unescaped character other than the dollar sign. *)
Definition ordinary (c : ascii) : bool :=
  (unescaped c && negb (Ascii.eqb c "$"))%bool.

(** A character a reference path may hold: unescaped and not the closing
    bracket. *)
Definition path_char (c : ascii) : bool :=
  (unescaped c && negb (Ascii.eqb c "]"))%bool.

(** The text [$[ref]]. *)
Definition reference (ref : string) : string := "$[" +:+ ref +:+ "]".

(** [getData(workflow, ref)], with [null] for [undefined]. *)
Definition data_or_null (workflow : jsval) (ref : string) : jsval :=
  match getData workflow ref with Some v => v | None => JNull end.

Definition is_string (v : jsval) : bool :=
  match v with JStr _ => true | _ => false end.

(** [null], a boolean or a number: a value that [String] prints without
    calling a method of the value. *)
Definition is_scalar (v : jsval) : bool :=
  match v with JNull | JBool _ | JNum _ | JNaN => true | _ => false end.

(** The properties of the task hold no dollar sign in their JSON text. *)
Definition without_references (fields : props) : bool :=
  forallb (fun kv => negb (contains_char "$" (JSON_stringify (snd kv)))) fields.

Definition workflow_with_data : jsval :=
  JObj [("environment", JObj [("USER", JStr "alice"); ("PORT", JNum 8080)])].

(* ================================================================== *)
(** * Properties *)
(* ================================================================== *)

(** ** Objects and references *)

Lemma lookup_assign_eq k v ps : lookup_prop k (assign_prop k v ps) = Some v.
Proof.
  induction ps as [|[k' v'] ps IH]; simpl.
  - by rewrite String.eqb_refl.
  - destruct (String.eqb k k') eqn:E; simpl; rewrite ?String.eqb_refl, ?E; auto.
Qed.

Lemma lookup_assign_ne k k' v ps :
  k <> k' -> lookup_prop k' (assign_prop k v ps) = lookup_prop k' ps.
Proof.
  intros Hne. induction ps as [|[k0 v0] ps IH]; simpl.
  - destruct (String.eqb k' k) eqn:E; [apply String.eqb_eq in E; congruence | done].
  - destruct (String.eqb k k0) eqn:E; simpl.
    + apply String.eqb_eq in E. subst k0.
      destruct (String.eqb k' k) eqn:E'; [apply String.eqb_eq in E'; congruence | done].
    + by rewrite IH.
Qed.

Lemma get_set_eq o k v : is_object o = true -> get_prop (set_prop o k v) k = Some v.
Proof. destruct o; try discriminate. intros _. apply lookup_assign_eq. Qed.

Lemma get_set_ne o k k' v : k <> k' -> get_prop (set_prop o k v) k' = get_prop o k'.
Proof. intros Hne. destruct o; try done. by apply lookup_assign_ne. Qed.

Lemma is_object_set o k v : is_object (set_prop o k v) = is_object o.
Proof. by destruct o. Qed.

Lemma str_is_eq v s : str_is v s = true <-> v = Some (JStr s).
Proof.
  destruct v as [[]|]; simpl; split; try done; try congruence.
  - by intros ->%String.eqb_eq.
  - intros [= ->]. apply String.eqb_refl.
Qed.


(** ** The public API *)

Section ApiFacts.
Context {St : Type} `{Store St}.
Variable clock : nat -> Z.
Variable js_minus : option jsval -> option jsval -> jsval.
Variable import : string -> module.
Variable process_env : list (string * string).
Variable uuidv4 : string.

(** processus.js exports no binding named [execute]. *)
Lemma processus_has_no_execute :
  namespace_get "execute" (processus clock js_minus import process_env uuidv4) = None.
Proof. reflexivity. Qed.

(** Whatever workflow object and callback function it is given, the
    [execute] of api.js throws before the engine is entered. *)
Lemma api_execute_always_throws fuel st tick workflow :
  truthy (Some workflow) = true ->
  api_execute clock js_minus import process_env uuidv4 fuel st tick (Some workflow) true
  = Throws (TypeError "p.execute is not a function").
Proof. intros Hw. unfold api_execute. by rewrite Hw. Qed.
End ApiFacts.

(** C1 (the code fails the claim).  The claim: the API operation [execute]
    runs the engine on the workflow and hands the final instance to the
    callback, without throwing for a well-formed workflow.  On the workflow of
    scenario 1 and a callback function, api.js calls [p.execute], which
    processus.js does not export, and the call throws a [TypeError]; the
    callback is never reached. *)
Theorem api_execute_throws_on_scenario_A :
  api_execute demo_clock demo_minus demo_import demo_env demo_uuid 16 empty_dir 0
    (Some scenario_A) true
  = Throws (TypeError "p.execute is not a function").
Proof. reflexivity. Qed.

(** ** Reference resolution *)

(** The escaping chain writes the two characters [\b] at every word
    boundary of the value, and [JSON.parse] reads them back as U+0008. *)
Lemma escape_for_json_tmp :
  escape_for_json "/tmp"
  = String backslash ("/" +:+ String backslash ("btmp" +:+ String backslash "b")).
Proof. reflexivity. Qed.

(** C2 (the code fails the claim).  The claim: an embedded reference is
    replaced by exactly the stringified value and no other character
    changes, so scenario 5 leaves [t1.parameters.log] equal to [val=/tmp].
    Executing scenario 5 with [HOME=/tmp] leaves the ten-character string
    [val=/], U+0008, [tmp], U+0008: the step [replace(/\b/g, "\\b")] of
    [setTaskDataValues] matches word boundaries, not backspace characters. *)
Theorem scenario_E_log_gets_backspaces :
  read_path ["tasks"; "t1"; "parameters"; "log"]
    (instance_after (demo_execute empty_dir 0 scenario_E))
  = Some (JStr ("val=/" +:+ String backspace ("tmp" +:+ str1 backspace)))
  /\ read_path ["tasks"; "t1"; "parameters"; "log"]
       (instance_after (demo_execute empty_dir 0 scenario_E))
     <> Some (JStr "val=/tmp").
Proof. split; [vm_compute; reflexivity | vm_compute; discriminate]. Qed.

(** ** The caller's object *)

Section ExecuteFacts.
Context {St : Type} `{Store St}.
Variable clock : nat -> Z.
Variable js_minus : option jsval -> option jsval -> jsval.
Variable import : string -> module.
Variable process_env : list (string * string).
Variable uuidv4 : string.

(** [execute] assigns [environment] on the object it was passed, before
    [validateWorkflow] clones it. *)
Lemma execute_writes_environment fuel st tick workflow :
  is_object workflow = true ->
  caller_object (execute clock js_minus import process_env uuidv4 fuel st tick workflow)
  = addEnvVars process_env workflow.
Proof.
  intros Hobj. unfold execute. rewrite Hobj. simpl. by case_match.
Qed.

(** C7.  When the current stored record of an instance id has status
    [completed], [updateTasks] calls back with the dedicated error and
    nothing else happens: no task is merged, no handler runs, the store
    and the clock are as they were, and no instance is handed back. *)
Theorem update_of_completed_instance_is_rejected fuel st tick id tasks workflow :
  loadInstance st id 0 = inr workflow ->
  str_is (get_prop workflow "status") "completed" = true ->
  updateTasks clock js_minus import process_env uuidv4 fuel st tick id tasks
  = Some (Reply st tick
            (Some (Error ("Update failed, workflow [" +:+ id
                          +:+ "] has already completed!")))
            None []).
Proof.
  intros Hload Hdone. unfold updateTasks. rewrite Hload.
  destruct workflow; try discriminate. by rewrite Hdone.
Qed.
End ExecuteFacts.

(** C5 (the code fails the claim).  The claim: [execute] clones the
    instance before any mutation, so nothing is added to the object the
    caller passed.  Scenario 1 has no [environment]; after [execute] the
    caller's object has one, written by [addEnvVars] before the clone. *)
Theorem execute_mutates_the_callers_instance :
  get_prop scenario_A "environment" = None
  /\ get_prop (caller_object (demo_execute empty_dir 0 scenario_A)) "environment"
     = Some (JObj [("HOME", JStr "/tmp")]).
Proof. split; reflexivity. Qed.


Lemma update_of_completed_instance_is_rejected_witness :
  loadInstance store_after_A demo_uuid 0 = inr instance_after_A
  /\ str_is (get_prop instance_after_A "status") "completed" = true
  /\ updateTasks demo_clock demo_minus demo_import demo_env demo_uuid 16
       store_after_A 6 demo_uuid (JObj [("t1", JObj [("status", JStr "executing")])])
     = Some (Reply store_after_A 6
               (Some (Error ("Update failed, workflow [" +:+ demo_uuid
                             +:+ "] has already completed!")))
               None []).
Proof.
  split; [vm_compute; reflexivity|].
  split; [vm_compute; reflexivity|].
  apply (update_of_completed_instance_is_rejected demo_clock demo_minus demo_import
           demo_env demo_uuid 16 store_after_A 6 demo_uuid _ instance_after_A);
    vm_compute; reflexivity.
Defined.

(** ** [executeTask] *)

Ltac props :=
  repeat first
    [ rewrite get_set_eq by (rewrite ?is_object_set; assumption)
    | rewrite get_set_ne by discriminate
    | rewrite is_object_set ].

Section ExecuteTaskFacts.
Variable clock : nat -> Z.
Variable js_minus : option jsval -> option jsval -> jsval.
Variable import : string -> module.

Lemma skip_of_timeStarted t v : skip_of (set_prop t "timeStarted" v) = skip_of t.
Proof. unfold skip_of. by props. Qed.

Lemma complete_if_executing_status t tick :
  is_object t = true ->
  str_is (status_of t) "executing" = true ->
  str_is (status_of (snd (complete_if_executing clock js_minus t tick))) "completed" = true.
Proof.
  intros Hobj Hst. unfold complete_if_executing. rewrite Hst. simpl.
  unfold status_of. by props.
Qed.

(** What [executeTask] does with a task whose gate is closed. *)
Lemma executeTask_skipped wid name t tick :
  skip_of t = true ->
  executeTask clock js_minus import wid name t tick
  = let t1 := set_prop (set_prop t "timeStarted" (JNum (clock tick)))
                "handlerExecuted" (JBool false) in
    let '(err, t2) :=
      if is_true (get_prop t "errorIf") then
        (Some (Error ("Task [" +:+ name +:+ "] has error condition set.")),
         set_prop (set_prop t1 "errorMsg"
                     (JStr ("Task [" +:+ name +:+ "] has error condition set.")))
           "status" (JStr "error"))
      else (None, t1) in
    let '(tick', t3) := complete_if_executing clock js_minus t2 (S tick) in
    Executed tick' err t3 false.
Proof.
  intros Hskip. unfold executeTask. rewrite skip_of_timeStarted, Hskip. simpl.
  by props.
Qed.
End ExecuteTaskFacts.


Section ExecuteTaskClaims.
Variable clock : nat -> Z.
Variable js_minus : option jsval -> option jsval -> jsval.
Variable import : string -> module.

(** A gated task never reaches its handler. *)
Lemma skipped_not_invoked wid name t tick :
  skip_of t = true ->
  ex_invoked (executeTask clock js_minus import wid name t tick) = false.
Proof.
  intros Hskip. rewrite executeTask_skipped by done. cbv zeta.
  destruct (is_true (get_prop t "errorIf")); by destruct (complete_if_executing _ _ _ _).
Qed.

Lemma complete_if_executing_keeps t tick k :
  k <> "status" -> k <> "timeCompleted" -> k <> "handlerDuration" -> k <> "totalDuration" ->
  get_prop (snd (complete_if_executing clock js_minus t tick)) k = get_prop t k.
Proof.
  intros. unfold complete_if_executing. case_match; [|done]. simpl.
  by rewrite !get_set_ne by done.
Qed.

Lemma skipped_flag wid name t tick :
  is_object t = true ->
  skip_of t = true ->
  get_prop (ex_task (executeTask clock js_minus import wid name t tick)) "handlerExecuted"
  = Some (JBool false).
Proof.
  intros Hobj Hskip. rewrite executeTask_skipped by done. cbv zeta.
  destruct (is_true (get_prop t "errorIf"));
    match goal with
    | |- context [complete_if_executing ?c ?m ?x ?y] =>
        pose proof (complete_if_executing_keeps x y "handlerExecuted") as Hk;
        destruct (complete_if_executing c m x y)
    end; simpl in *; rewrite Hk by discriminate; by props.
Qed.

Lemma skipped_completes wid name t tick :
  is_object t = true ->
  skip_of t = true ->
  is_true (get_prop t "errorIf") = false ->
  str_is (status_of t) "executing" = true ->
  let r := executeTask clock js_minus import wid name t tick in
  ex_err r = None /\ ex_invoked r = false
  /\ str_is (status_of (ex_task r)) "completed" = true.
Proof.
  intros Hobj Hskip Herr Hst r. subst r.
  rewrite executeTask_skipped by done. cbv zeta. rewrite Herr.
  match goal with
  | |- context [complete_if_executing ?c ?m ?x ?y] =>
      pose proof (complete_if_executing_status c m x y) as Hc;
      destruct (complete_if_executing c m x y)
  end. simpl in *. repeat split. apply Hc; [by props|].
  unfold status_of in *. by props.
Qed.

Lemma gated_by_errorIf wid name t tick :
  is_object t = true ->
  is_true (get_prop t "errorIf") = true ->
  let r := executeTask clock js_minus import wid name t tick in
  ex_err r = Some (Error ("Task [" +:+ name +:+ "] has error condition set."))
  /\ ex_invoked r = false
  /\ get_prop (ex_task r) "status" = Some (JStr "error")
  /\ get_prop (ex_task r) "errorMsg"
     = Some (JStr ("Task [" +:+ name +:+ "] has error condition set.")).
Proof.
  intros Hobj Herr r. subst r.
  rewrite executeTask_skipped
    by (unfold skip_of; rewrite Herr; by rewrite orb_true_r).
  cbv zeta. rewrite Herr. unfold complete_if_executing, status_of.
  props. change (str_is (Some (JStr "error")) "executing") with false. cbv iota.
  cbn [ex_err ex_invoked ex_task]. by props.
Qed.

Lemma open_gate_invokes wid name t tick h f :
  skip_of t = false ->
  get_prop t "handler" = Some h ->
  import (js_String h) = DefaultExport f ->
  ex_invoked (executeTask clock js_minus import wid name t tick) = true.
Proof.
  intros Hskip Hh Himp. unfold executeTask.
  rewrite skip_of_timeStarted, Hskip. cbv zeta. simpl negb. cbv iota.
  props. rewrite Hh, Himp.
  destruct (f _ _ _) as [err t']. by repeat case_match.
Qed.

(** C8, as amended.  For a dispatched task (an object): when [skipIf] is
    true, [errorIf] is true or [handler] is falsy, the handler function is
    not called and the task carries [handlerExecuted = false]; otherwise
    the handler is called as soon as its module loads.  A task skipped with
    [skipIf] true and [errorIf] not true goes from [executing] to
    [completed], and so does a task without handler whose [errorIf] is not
    true, both within the same call and without an error.  With [errorIf]
    true the task, with or without handler, does not complete: it ends in
    status [error] with the message of the gate as [errorMsg], and that
    error is reported. *)
Theorem gates_decide_whether_the_handler_runs wid name t tick :
  is_object t = true ->
  let r := executeTask clock js_minus import wid name t tick in
  let gated :=
    (is_true (get_prop t "skipIf") || is_true (get_prop t "errorIf")
     || negb (truthy (get_prop t "handler")))%bool in
  (gated = true ->
     ex_invoked r = false
     /\ get_prop (ex_task r) "handlerExecuted" = Some (JBool false))
  /\ (gated = false ->
      (forall h, get_prop t "handler" = Some h ->
                 exists f, import (js_String h) = DefaultExport f) ->
      ex_invoked r = true)
  /\ (is_true (get_prop t "skipIf") = true ->
      is_true (get_prop t "errorIf") = false ->
      str_is (status_of t) "executing" = true ->
      ex_err r = None /\ ex_invoked r = false
      /\ str_is (status_of (ex_task r)) "completed" = true)
  /\ (truthy (get_prop t "handler") = false ->
      is_true (get_prop t "errorIf") = false ->
      str_is (status_of t) "executing" = true ->
      ex_err r = None /\ ex_invoked r = false
      /\ str_is (status_of (ex_task r)) "completed" = true)
  /\ (is_true (get_prop t "errorIf") = true ->
      ex_err r = Some (Error ("Task [" +:+ name +:+ "] has error condition set."))
      /\ ex_invoked r = false
      /\ get_prop (ex_task r) "status" = Some (JStr "error")
      /\ get_prop (ex_task r) "errorMsg"
         = Some (JStr ("Task [" +:+ name +:+ "] has error condition set."))).
Proof.
  intros Hobj r gated. change gated with (skip_of t). subst r.
  split; [|split; [|split; [|split]]].
  - intros Hskip. split; [by apply skipped_not_invoked | by apply skipped_flag].
  - intros Hopen Hloads.
    destruct (get_prop t "handler") as [h|] eqn:Hh.
    + destruct (Hloads h eq_refl) as [f Hf]. by eapply open_gate_invokes.
    + unfold skip_of in Hopen. rewrite Hh in Hopen. simpl in Hopen.
      by rewrite orb_true_r in Hopen.
  - intros Hskip Herr Hst. apply skipped_completes; try done.
    unfold skip_of. by rewrite Hskip.
  - intros Hno Herr Hst. apply skipped_completes; try done.
    unfold skip_of. rewrite Hno. apply orb_true_r.
  - intros Herr. by apply gated_by_errorIf.
Qed.

(** C9.  A task that is not gated, whose handler reports an error [e] and
    hands back the task with [ignoreError === true]: [executeTask] reports
    no error, the task ends [completed] with [timeCompleted],
    [handlerDuration] and [totalDuration] set ([errorMsg] keeps the
    message), and a batch made of that task reports no error, so the
    scheduler goes on to the next pass instead of marking the instance. *)
Theorem ignored_error_completes_the_task wid name t tick h f e t' :
  skip_of t = false ->
  get_prop t "handler" = Some h ->
  import (js_String h) = DefaultExport f ->
  f wid name
    (set_prop (set_prop t "timeStarted" (JNum (clock tick)))
       "handlerExecuted" (JBool true))
  = (Some e, t') ->
  is_object t' = true ->
  is_true (get_prop t' "ignoreError") = true ->
  let r := executeTask clock js_minus import wid name t tick in
  ex_err r = None
  /\ ex_invoked r = true
  /\ get_prop (ex_task r) "status" = Some (JStr "completed")
  /\ get_prop (ex_task r) "errorMsg" = Some (JStr (message_of e))
  /\ get_prop (ex_task r) "timeCompleted" = Some (JNum (clock (S tick)))
  /\ is_Some (get_prop (ex_task r) "handlerDuration")
  /\ is_Some (get_prop (ex_task r) "totalDuration")
  /\ (forall workflow p,
        get_prop workflow "id" = wid ->
        read_path p workflow = Some t ->
        snd (fst (run_batch clock js_minus import [(name, p)] tick workflow)) = None).
Proof.
  intros Hskip Hh Himp Hf Hobj Hign r.
  assert (Hr : r = Executed (S (S tick)) None
                 (snd (complete_if_executing clock js_minus
                         (set_prop (set_prop (set_prop t' "errorMsg" (JStr (message_of e)))
                                      "status" (JStr "error"))
                            "status" (JStr "executing")) (S tick))) true).
  { subst r. unfold executeTask. rewrite skip_of_timeStarted, Hskip.
    cbv zeta. simpl negb. cbv iota.
    props. rewrite Hh, Himp, Hf. props. rewrite Hign.
    unfold complete_if_executing, status_of. props.
    change (str_is (Some (JStr "executing")) "executing") with true.
    cbv beta iota zeta. props.
    by change (str_is (Some (JStr "completed")) "paused") with false. }
  assert (Hbatch : ex_err r = None) by (by rewrite Hr).
  rewrite Hr. unfold complete_if_executing, status_of. props.
  change (str_is (Some (JStr "executing")) "executing") with true.
  cbv beta iota zeta. cbn [ex_err ex_invoked ex_task snd]. props.
  repeat split; try done; try by eexists.
  intros workflow p Hid Hp. unfold run_batch. simpl. rewrite Hp, Hid.
  fold r. by rewrite Hbatch.
Qed.
End ExecuteTaskClaims.


(** C8, the claim as stated fails.  The claim ends: a task with no handler
    and no children completes immediately.  The gate of [scenario_gate] has
    neither, and the run leaves it in status [error]. *)
Lemma gate_with_errorIf_does_not_complete :
  read_path ["tasks"; "gate"; "status"]
    (instance_after (demo_execute empty_dir 0 scenario_gate))
  = Some (JStr "error")
  /\ read_path ["tasks"; "gate"; "status"]
       (instance_after (demo_execute empty_dir 0 scenario_gate))
     <> Some (JStr "completed").
Proof. split; [vm_compute; reflexivity | vm_compute; discriminate]. Qed.


Lemma gates_decide_whether_the_handler_runs_witness :
  is_object skipped_task = true
  /\ ex_invoked (executeTask demo_clock demo_minus demo_import None "t1" skipped_task 2)
     = false
  /\ str_is (status_of (ex_task (executeTask demo_clock demo_minus demo_import None "t1"
                                   skipped_task 2))) "completed" = true.
Proof.
  pose proof (gates_decide_whether_the_handler_runs demo_clock demo_minus demo_import
                None "t1" skipped_task 2 eq_refl) as (Hgated & _ & Hskip & _ & _).
  split; [reflexivity|]. split.
  - apply Hgated. reflexivity.
  - apply Hskip; reflexivity.
Defined.


Lemma ignored_error_completes_the_task_witness :
  skip_of failing_task = false
  /\ is_true (get_prop failing_task "ignoreError") = true
  /\ ex_err (executeTask demo_clock demo_minus demo_import None "t1" failing_task 2) = None
  /\ get_prop (ex_task (executeTask demo_clock demo_minus demo_import None "t1"
                          failing_task 2)) "status"
     = Some (JStr "completed").
Proof.
  pose proof (ignored_error_completes_the_task demo_clock demo_minus demo_import
                None "t1" failing_task 2 (JStr "test") testHandler
                (Error "Task [t1] is raising a deliberate error")
                (set_prop (set_prop failing_task "timeStarted" (JNum (demo_clock 2)))
                   "handlerExecuted" (JBool true))
                eq_refl eq_refl eq_refl eq_refl eq_refl eq_refl) as (Herr & _ & Hst & _).
  split; [reflexivity|]. split; [reflexivity|]. split; [exact Herr | exact Hst].
Defined.

(** ** Persistence *)

Lemma app_cons c s t : String c s +:+ t = String c (s +:+ t).
Proof. reflexivity. Qed.

Lemma prefix_app p s : String.prefix p (p +:+ s) = true.
Proof.
  induction p as [|c p IH]; [by destruct s|].
  rewrite app_cons. simpl. by destruct (ascii_dec c c).
Qed.

Lemma prefix_longer p c : String.prefix (p +:+ String c EmptyString) p = false.
Proof.
  induction p as [|x p IH]; [done|].
  rewrite app_cons. simpl. by destruct (ascii_dec x x).
Qed.

Lemma drop_str_app p s : drop_str (String.length p) (p +:+ s) = s.
Proof. induction p as [|c p IH]; [by destruct s|]. by rewrite app_cons. Qed.

Lemma length_app_str a b : String.length (a +:+ b) = (String.length a + String.length b)%nat.
Proof. induction a as [|x a IH]; [done|]. rewrite app_cons. simpl. by rewrite IH. Qed.

Lemma app_assoc_str a b c : (a +:+ b) +:+ c = a +:+ (b +:+ c).
Proof. induction a as [|x a IH]; [done|]. by rewrite !app_cons, IH. Qed.

Lemma pretty_N_go_no_slash x s :
  contains_char "/" s = false -> contains_char "/" (pretty_N_go x s) = false.
Proof.
  revert s. induction (N.lt_wf_0 x) as [x _ IH]; intros s Hs.
  assert (x = 0 ∨ 0 < x)%N as [->|?] by lia.
  - by rewrite pretty_N_go_0.
  - rewrite pretty_N_go_step by done. apply IH; [by apply N.div_lt|].
    simpl. rewrite Hs. unfold pretty_N_char. by repeat case_match.
Qed.

Lemma pretty_Z_no_slash (z : Z) : contains_char "/" (pretty z) = false.
Proof.
  assert (HN : forall n : N, contains_char "/" (pretty n) = false).
  { intros n. unfold pretty, pretty_N. case_decide; [done|]. by apply pretty_N_go_no_slash. }
  destruct z; [done| apply HN | simpl; apply HN].
Qed.

Lemma last_nonempty {A} (l : list A) x d d' :
  List.last (x :: l) d = List.last (x :: l) d'.
Proof. revert x; induction l as [|y l IH]; intros x; [done|]. apply (IH y). Qed.

Section FileHistory.
Variables (dir id : string).
Let current := FileStore.join dir id.
Let hist (t : Z) : string := current +:+ "_" +:+ pretty t.

Lemma hist_is_history t : FileStore.is_history_of current (hist t) = true.
Proof.
  unfold FileStore.is_history_of, hist.
  rewrite <-app_assoc_str, prefix_app. simpl.
  replace (String.length current + 1)%nat with (String.length (current +:+ "_"))
    by (rewrite length_app_str; simpl; lia).
  by rewrite drop_str_app, pretty_Z_no_slash.
Qed.

Lemma current_not_history : FileStore.is_history_of current current = false.
Proof. unfold FileStore.is_history_of. by rewrite (prefix_longer current "_"). Qed.

Lemma hist_inj t1 t2 : hist t1 = hist t2 -> t1 = t2.
Proof.
  unfold hist. intros Heq. apply (inj (String.app current)) in Heq.
  apply (inj (String.app "_")) in Heq. by apply (inj pretty) in Heq.
Qed.

Lemma hist_ne_current t : hist t <> current.
Proof.
  intros Heq. pose proof (hist_is_history t) as Hh. rewrite Heq in Hh.
  by rewrite current_not_history in Hh.
Qed.

Lemma save_first files now workflow :
  files !! current = None ->
  FileStore.glob_history current files = ∅ ->
  get_prop workflow "id" = Some (JStr id) ->
  tracks dir id (fst (fst (FileStore.saveInstance (FileStore.Make dir files) now workflow)))
    [] (JSON_stringify workflow).
Proof.
  intros Hnone Hempty Hid. unfold FileStore.saveInstance. rewrite Hid. simpl.
  fold current. rewrite Hnone. unfold tracks. cbv zeta. fold current.
  repeat split; simpl.
  - by rewrite lookup_insert_eq.
  - unfold FileStore.glob_history in *.
    rewrite map_filter_insert_False by (simpl; rewrite current_not_history; done).
    rewrite delete_id by done. rewrite Hempty. intros name [x Hx].
    by rewrite lookup_empty in Hx.
  - unfold FileStore.glob_history in *.
    rewrite map_filter_insert_False by (simpl; rewrite current_not_history; done).
    rewrite delete_id by done. by rewrite Hempty.
Qed.

Lemma save_next st used contents now workflow :
  tracks dir id st used contents ->
  ¬ In now used ->
  get_prop workflow "id" = Some (JStr id) ->
  tracks dir id (fst (fst (FileStore.saveInstance st now workflow)))
    (now :: used) (JSON_stringify workflow).
Proof.
  unfold tracks at 1. cbv zeta. fold current.
  intros (Hdir & Hcur & Hdom & Hsize) Hfresh Hid.
  unfold FileStore.saveInstance. rewrite Hid, Hdir. simpl. fold current.
  rewrite Hcur. fold (hist now).
  assert (Hglob : FileStore.glob_history current
                    (<[current:=JSON_stringify workflow]>
                       (<[hist now:=contents]> (delete current (FileStore.files st))))
                  = <[hist now:=contents]>
                      (FileStore.glob_history current (FileStore.files st))).
  { unfold FileStore.glob_history.
    rewrite map_filter_insert_False by (simpl; rewrite current_not_history; done).
    rewrite delete_insert_ne by (intros E; symmetry in E; by apply hist_ne_current in E).
    rewrite delete_delete_eq.
    rewrite map_filter_insert_True by (simpl; apply hist_is_history).
    rewrite map_filter_delete. rewrite delete_id; [done|].
    apply map_lookup_filter_None. right. intros x _. simpl.
    by rewrite current_not_history. }
  assert (Hnew : FileStore.glob_history current (FileStore.files st) !! hist now = None).
  { destruct (_ !! hist now) eqn:E; [|done].
    destruct (Hdom (hist now)) as (t & Ht & Heq); [by eexists|].
    apply hist_inj in Heq. by subst. }
  unfold tracks. cbv zeta. fold current. repeat split; simpl.
  - by rewrite lookup_insert_eq.
  - rewrite Hglob. intros name Hname.
    destruct (decide (name = hist now)) as [->|Hne].
    + exists now. split; [by left|done].
    + rewrite lookup_insert_ne in Hname by done.
      destruct (Hdom name Hname) as (t & Ht & ->). exists t. split; [by right|done].
  - rewrite Hglob, map_size_insert_None by done. by rewrite Hsize.
Qed.

Lemma save_more rest : forall st used contents,
  tracks dir id st used contents ->
  Forall (fun save => get_prop (snd save) "id" = Some (JStr id)) rest ->
  List.NoDup (map fst rest) ->
  (forall t, In t (map fst rest) -> ¬ In t used) ->
  exists used' contents',
    tracks dir id (save_all st rest) used' contents'
    /\ List.length used' = (List.length rest + List.length used)%nat
    /\ contents' = List.last (map (fun save => JSON_stringify (snd save)) rest) contents.
Proof.
  induction rest as [|[now workflow] rest IH]; intros st used contents Ht Hids Hnd Hfresh.
  - exists used, contents. split; [exact Ht|]. by split.
  - inversion Hids as [|? ? Hid Hids']; subst. inversion Hnd as [|? ? Hnew Hnd']; subst.
    simpl in *.
    destruct (IH (fst (fst (FileStore.saveInstance st now workflow))) (now :: used)
                (JSON_stringify workflow)) as (used' & contents' & Ht' & Hlen & Hc).
    + apply (save_next st used contents); auto.
    + done.
    + done.
    + intros t Ht1 [<-|Ht2]; [done|]. by apply (Hfresh t); [right|].
    + exists used', contents'. split; [exact Ht'|]. split.
      * rewrite Hlen. simpl. lia.
      * rewrite Hc. destruct rest as [|save rest']; [done|].
        apply last_nonempty.
Qed.

(** What one save writes. *)
Lemma save_writes (st : FileStore.t) now workflow :
  FileStore.dataDirectory st = dir ->
  get_prop workflow "id" = Some (JStr id) ->
  fst (fst (FileStore.saveInstance st now workflow))
  = FileStore.Make dir
      (<[current := JSON_stringify workflow]>
         match FileStore.files st !! current with
         | Some contents => <[hist now := contents]> (delete current (FileStore.files st))
         | None => FileStore.files st
         end).
Proof. intros Hdir Hid. unfold FileStore.saveInstance. by rewrite Hid, Hdir. Qed.

(** A save touches the current file and the file it archives to, and no
    other. *)
Lemma save_keeps_other_files (st : FileStore.t) now workflow name :
  FileStore.dataDirectory st = dir ->
  get_prop workflow "id" = Some (JStr id) ->
  name <> current -> name <> hist now ->
  FileStore.files (fst (fst (FileStore.saveInstance st now workflow))) !! name
  = FileStore.files st !! name.
Proof.
  intros Hdir Hid Hc Hh. rewrite save_writes by done. cbn [FileStore.files].
  rewrite lookup_insert_ne by done.
  destruct (FileStore.files st !! current); [|done].
  rewrite lookup_insert_ne by done. by rewrite lookup_delete_ne.
Qed.

Lemma saves_keep_other_files rest : forall (st : FileStore.t) name,
  FileStore.dataDirectory st = dir ->
  Forall (fun save => get_prop (snd save) "id" = Some (JStr id)) rest ->
  name <> current ->
  (forall t, In t (map fst rest) -> name <> hist t) ->
  FileStore.files (save_all st rest) !! name = FileStore.files st !! name.
Proof.
  induction rest as [|[now workflow] rest IH]; intros st name Hdir Hids Hc Hh; [done|].
  apply List.Forall_cons_iff in Hids as [Hid Hids']. cbn [save_all fold_left fst snd] in *.
  fold (save_all (fst (fst (FileStore.saveInstance st now workflow))) rest).
  rewrite IH; try done.
  - apply save_keeps_other_files; try done. apply Hh. by left.
  - by rewrite save_writes.
  - intros t Ht. apply Hh. by right.
Qed.

Lemma lookup_map {A B} (f : A -> B) (l : list A) i :
  map f l !! i = option_map f (l !! i).
Proof. revert i. induction l as [|x l IH]; intros [|i]; try done. apply IH. Qed.

(** Every save after the first archives what the current file held: the
    file named after the clock reading of a save holds the record the save
    before it wrote. *)
Lemma save_archives rest : forall (st : FileStore.t) contents,
  FileStore.dataDirectory st = dir ->
  FileStore.files st !! current = Some contents ->
  Forall (fun save => get_prop (snd save) "id" = Some (JStr id)) rest ->
  List.NoDup (map fst rest) ->
  forall i previous next,
    (contents :: map (fun save => JSON_stringify (snd save)) rest) !! i = Some previous ->
    rest !! i = Some next ->
    FileStore.files (save_all st rest) !! hist (fst next) = Some previous.
Proof.
  induction rest as [|[now workflow] rest IH]; intros st contents Hdir Hcur Hids Hnd;
    [by intros i previous next _ Hnone|].
  apply List.Forall_cons_iff in Hids as [Hid Hids'].
  apply List.NoDup_cons_iff in Hnd as [Hnew Hnd'].
  cbn [map fst snd] in *.
  assert (Hdir1 : FileStore.dataDirectory (fst (fst (FileStore.saveInstance st now workflow)))
                  = dir) by (by rewrite save_writes).
  assert (Hcur1 : FileStore.files (fst (fst (FileStore.saveInstance st now workflow)))
                  !! current = Some (JSON_stringify workflow)).
  { rewrite save_writes by done. cbn [FileStore.files]. by rewrite lookup_insert_eq. }
  assert (Harch : FileStore.files (fst (fst (FileStore.saveInstance st now workflow)))
                  !! hist now = Some contents).
  { rewrite save_writes by done. cbn [FileStore.files]. rewrite Hcur.
    rewrite lookup_insert_ne by (intros E; symmetry in E; by apply hist_ne_current in E).
    by rewrite lookup_insert_eq. }
  intros [|i] previous next Hprev Hnext; cbn in Hprev, Hnext.
  - injection Hprev as <-. injection Hnext as <-. cbn [fst].
    cbn [save_all fold_left fst snd].
    fold (save_all (fst (fst (FileStore.saveInstance st now workflow))) rest).
    rewrite saves_keep_other_files; try done.
    + apply hist_ne_current.
    + intros t Ht Heq. apply hist_inj in Heq. by subst.
  - cbn [save_all fold_left fst snd].
    fold (save_all (fst (fst (FileStore.saveInstance st now workflow))) rest).
    by apply (IH _ (JSON_stringify workflow) Hdir1 Hcur1 Hids' Hnd' i).
Qed.
End FileHistory.

Lemma replace_where_In p doc docs r :
  MongoStore.replace_where p doc docs = Some r -> In doc r.
Proof.
  revert r. induction docs as [|d docs IH]; intros r; simpl; [done|].
  destruct (p d).
  - intros [= <-]. by left.
  - destruct (MongoStore.replace_where p doc docs); [|done].
    intros [= <-]. right. by apply IH.
Qed.

Lemma history_row_counts st now workflow id :
  get_prop workflow "id" = Some (JStr id) ->
  MongoStore.is_history_row id (MongoStore.history_row st now workflow) = true.
Proof.
  intros Hid. assert (is_object workflow = true) by (by destruct workflow).
  unfold MongoStore.is_history_row, MongoStore.history_row. rewrite Hid. simpl.
  props. rewrite <-app_assoc_str. apply prefix_app.
Qed.

Lemma mongo_history_grows (st : MongoStore.t) row id :
  MongoStore.is_history_row id row = true ->
  List.length (List.filter (MongoStore.is_history_row id) (MongoStore.history st ++ [row]))
  = S (List.length (List.filter (MongoStore.is_history_row id) (MongoStore.history st))).
Proof.
  intros Hrow. rewrite List.filter_app, List.length_app. simpl. rewrite Hrow. simpl. lia.
Qed.

(** C3, as amended.  Every [saveInstance] of the file backend, for an id
    that is a plain file name, writes the current record of the instance id
    and, when a current record was there, archives it under the clock
    reading: starting from a directory without records of that id, after
    [N = 1 + length rest] saves whose archiving clock readings differ, the
    directory holds [N - 1] historical records and the last workflow as
    current record, and the historical record named after the clock reading
    of a save holds what the save before it wrote.  Every successful
    [saveInstance] of the document backend appends exactly one history row
    for the id and leaves a current row with that id. *)
Theorem each_save_archives_the_previous_record dir files id first rest :
  plain_id id = true ->
  files !! FileStore.join dir id = None ->
  FileStore.glob_history (FileStore.join dir id) files = ∅ ->
  Forall (fun save => get_prop (snd save) "id" = Some (JStr id)) (first :: rest) ->
  List.NoDup (map fst rest) ->
  (let st := save_all (FileStore.Make dir files) (first :: rest) in
   FileStore.history_count st id = List.length rest
   /\ FileStore.current_record st id
      = Some (List.last (map (fun save => JSON_stringify (snd save)) rest)
                (JSON_stringify (snd first)))
   /\ (forall i previous next,
         (first :: rest) !! i = Some previous ->
         rest !! i = Some next ->
         FileStore.files st !! (FileStore.join dir id +:+ "_" +:+ pretty (fst next))
         = Some (JSON_stringify (snd previous))))
  /\ (forall (st : MongoStore.t) now workflow st' workflow',
        get_prop workflow "id" = Some (JStr id) ->
        MongoStore.saveInstance st now workflow = (st', workflow', None) ->
        MongoStore.history_count st' id = S (MongoStore.history_count st id)
        /\ existsb (MongoStore.has_id (Some (JStr id))) (MongoStore.instances st') = true).
Proof.
  intros _ Hnone Hempty Hids Hnd. split.
  - inversion Hids as [|? ? Hid Hids']; subst. simpl.
    pose proof (save_first dir id files (fst first) (snd first) Hnone Hempty Hid)
      as Hfirst.
    destruct (save_more dir id rest
                (fst (fst (FileStore.saveInstance (FileStore.Make dir files)
                             (fst first) (snd first))))
                [] (JSON_stringify (snd first)))
      as (used' & contents' & (Hdir & Hcur & _ & Hsize) & Hlen & ->); auto.
    unfold FileStore.history_count, FileStore.current_record.
    rewrite Hdir. split; [|split; [done|]].
    + rewrite Hsize, Hlen. simpl. lia.
    + intros i previous next Hprev Hnext.
      destruct Hfirst as (Hdir1 & Hcur1 & _).
      apply (save_archives dir id rest _ (JSON_stringify (snd first)) Hdir1 Hcur1
               Hids' Hnd i); [|done].
      change (JSON_stringify (snd first) :: map (fun save => JSON_stringify (snd save)) rest)
        with (map (fun save => JSON_stringify (snd save)) (first :: rest)).
      by rewrite lookup_map, Hprev.
  - intros st now workflow st' workflow' Hid.
    assert (Hobj : is_object workflow = true) by (by destruct workflow).
    assert (Hsame : MongoStore.has_id (Some (JStr id)) workflow = true).
    { unfold MongoStore.has_id. rewrite Hid. apply String.eqb_refl. }
    unfold MongoStore.saveInstance, MongoStore.history_count.
    destruct (negb (truthy (get_prop workflow "_id"))).
    + simpl. rewrite get_set_ne by done.
      destruct (existsb _ _); [done|]. intros [= <- <-]. simpl. split.
      * apply mongo_history_grows, history_row_counts. by rewrite get_set_ne.
      * rewrite existsb_app. simpl. unfold MongoStore.has_id.
        rewrite get_set_ne by done. rewrite Hid, String.eqb_refl. simpl.
        apply orb_true_r.
    + destruct (MongoStore.replace_where _ _ _) as [docs|] eqn:Hrep; [|done].
      intros [= <- <-]. simpl. split.
      * by apply mongo_history_grows, history_row_counts.
      * apply existsb_exists. exists workflow. split; [|done].
        by eapply replace_where_In.
Qed.

(** C3, the claim as stated fails.  The claim: every save writes a current
    record and one historical record, so N saves leave N historical records.
    After one save into an empty directory the file backend holds the
    current record and no historical record. *)
Lemma first_save_writes_no_history :
  FileStore.history_count
    (fst (fst (FileStore.saveInstance empty_dir 1700000000010 instance_after_A))) demo_uuid
  = O
  /\ FileStore.history_count
       (fst (fst (FileStore.saveInstance empty_dir 1700000000010 instance_after_A)))
       demo_uuid
     <> 1%nat.
Proof. split; [vm_compute; reflexivity | vm_compute; discriminate]. Qed.

Lemma each_save_archives_the_previous_record_witness :
  FileStore.history_count (save_all empty_dir three_saves) demo_uuid = 2%nat.
Proof.
  refine (proj1 (proj1 (each_save_archives_the_previous_record "_data" ∅ demo_uuid
                          (1700000000010, instance_after_A)
                          [(1700000000011, instance_after_A);
                           (1700000000012, instance_after_A)] _ _ _ _ _))).
  - reflexivity.
  - reflexivity.
  - apply map_filter_empty.
  - repeat constructor.
  - repeat constructor; vm_compute; intuition discriminate.
Defined.

(** ** The scan *)

Lemma on_prop_lookup {A} k (f : jsval -> A) d fields :
  on_prop k f d fields
  = match lookup_prop k fields with Some v => f v | None => d end.
Proof.
  induction fields as [|[k' v] fields IH]; simpl; [done|].
  by destruct (String.eqb k k').
Qed.

Lemma scanAllTasks_entries {S} (cb : S -> path -> jsval -> string -> S * jsval * bool)
  deep here entries s :
  scanAllTasks cb deep here (JObj entries) s
  = let '(s', entries', c) := scan_entries cb deep here entries s in
    (s', JObj entries', c).
Proof.
  simpl.
  match goal with
  | |- match ?x with _ => _ end = _ =>
      match x with
      | ?f entries s =>
          assert (Heq : forall l s, f l s = scan_entries cb deep here l s)
      end
  end; [|by rewrite Heq].
  clear. induction l as [|[n task] l IH]; intros s; simpl; [done|].
  destruct task; try (by rewrite IH).
  destruct (cb s (here ++ [n])%list (JObj props) n) as [[s1 task1] cont].
  destruct (negb cont); [done|].
  rewrite on_prop_lookup.
  destruct deep; [|by rewrite IH].
  destruct (lookup_prop "tasks" props) as [children|]; [|by rewrite IH].
  destruct (scanAllTasks cb true _ children s1) as [[s2 c2] cs].
  destruct (negb cs); [done|]. by rewrite IH.
Qed.

Lemma assign_same k v ps : lookup_prop k ps = Some v -> assign_prop k v ps = ps.
Proof.
  induction ps as [|[k' v'] ps IH]; simpl; [done|].
  destruct (String.eqb k k') eqn:E.
  - apply String.eqb_eq in E. by intros [= ->]; subst.
  - intros H. by rewrite IH.
Qed.

Lemma set_same o k v : get_prop o k = Some v -> set_prop o k v = o.
Proof. destruct o; try done. simpl. intros H. by rewrite assign_same. Qed.

Lemma lookup_prop_In k ps v : lookup_prop k ps = Some v -> In (k, v) ps.
Proof.
  induction ps as [|[k' v'] ps IH]; [done|]. cbn [lookup_prop In].
  destruct (String.eqb k k') eqn:E.
  - apply String.eqb_eq in E. intros [= ->]. left. by subst.
  - right. auto.
Qed.

Lemma jsval_forall_ind (Q : jsval -> Prop) :
  (forall v, is_object v = false -> Q v) ->
  (forall fields, Forall (fun kv => Q (snd kv)) fields -> Q (JObj fields)) ->
  forall v, Q v.
Proof.
  intros Hleaf Hobj. fix IH 1. intros [| | | | | |fields]; try (by apply Hleaf).
  apply Hobj. induction fields as [|[k v] fields IHf]; constructor;
    [apply IH | apply IHf].
Qed.

(** Induction over a tree of tasks: a property of mappings holds of every
    value as soon as it holds of what is not an object and passes from the
    child mappings of the entries to the mapping. *)
Lemma tasks_ind (P : jsval -> Prop) :
  (forall v, is_object v = false -> P v) ->
  (forall entries,
      (forall n fields children,
          In (n, JObj fields) entries ->
          lookup_prop "tasks" fields = Some children -> P children) ->
      P (JObj entries)) ->
  forall v, P v.
Proof.
  intros Hleaf Hnode.
  assert (Hall : forall v,
             P v /\ (forall fields children,
                        v = JObj fields ->
                        lookup_prop "tasks" fields = Some children -> P children)).
  { apply jsval_forall_ind.
    - intros v Hv. split; [by apply Hleaf|]. intros fields children ->. done.
    - intros fields Hall. rewrite Forall_forall in Hall. split.
      + apply Hnode. intros n fs children Hin Hlook.
        destruct (Hall (n, JObj fs)) as [_ Hsub]; [by apply list_elem_of_In|].
        by apply (Hsub fs children).
      + intros fs children [= <-] Hlook.
        apply lookup_prop_In in Hlook.
        by destruct (Hall ("tasks", children)) as [HP _]; [by apply list_elem_of_In|]. }
  intros v. apply Hall.
Qed.

(** ** The status scans *)

Lemma status_scan_all status : forall tasks here hc ms,
  scanAllTasks
    (fun (_ : bool * bool) (_ : path) task (_ : string) =>
       let matchStatus := str_is (status_of task) status in
       ((true, matchStatus), task,
        if (matchStatus && negb true)%bool then false
        else if (negb matchStatus && true)%bool then false
        else true))
    true here tasks (hc, ms)
  = if every_task status tasks
    then ((hc || some_task tasks, if some_task tasks then true else ms)%bool, tasks, true)
    else ((true, false), tasks, false).
Proof.
  intros tasks. induction tasks as [v Hv|entries IH] using tasks_ind; intros here hc ms.
  { destruct v; try done; simpl; rewrite orb_false_r; done. }
  rewrite scanAllTasks_entries.
  cut (forall l, (forall n fields children,
                     In (n, JObj fields) l ->
                     lookup_prop "tasks" fields = Some children ->
                     In (n, JObj fields) entries) ->
          forall hc ms,
            scan_entries
              (fun (_ : bool * bool) (_ : path) task (_ : string) =>
                 let matchStatus := str_is (status_of task) status in
                 ((true, matchStatus), task,
                  if (matchStatus && negb true)%bool then false
                  else if (negb matchStatus && true)%bool then false
                  else true))
              true here l (hc, ms)
            = if every_task status (JObj l)
              then ((hc || some_task (JObj l), if some_task (JObj l) then true else ms)%bool,
                    l, true)
              else ((true, false), l, false)).
  { intros Hcut. rewrite Hcut by auto. by destruct (every_task status (JObj entries)). }
  clear hc ms. induction l as [|[n task] l IHl]; intros Hsub hc ms.
  { simpl. by rewrite orb_false_r. }
  assert (IHl' := IHl (fun n f c Hin Hl => Hsub n f c (or_intror Hin) Hl)).
  destruct task as [| | | | | |fields];
    try (cbn [scan_entries every_task forallb some_task existsb snd is_object andb orb];
         rewrite IHl'; cbn [every_task some_task];
         by destruct (forallb _ l)).
  cbn [scan_entries]. cbv zeta. unfold status_of. cbn [get_prop].
  cbn [every_task forallb some_task existsb snd is_object orb].
  rewrite on_prop_lookup.
  destruct (str_is (lookup_prop "status" fields) status) eqn:Hst; cbn [andb negb]; [|done].
  destruct (lookup_prop "tasks" fields) as [children|] eqn:Hch.
  - rewrite (IH n fields children (Hsub n fields children (or_introl eq_refl) Hch) Hch).
    assert (Hsame : (if is_object children then set_prop (JObj fields) "tasks" children
                     else JObj fields) = JObj fields)
      by (destruct (is_object children); [by apply set_same|done]).
    destruct (every_task status children); cbn [negb andb]; rewrite Hsame; [|done].
    rewrite IHl'. cbn [every_task some_task].
    destruct (forallb _ l); [|done]. cbn [orb].
    destruct (existsb _ l); rewrite ?orb_true_r, ?Hst; [done|].
    by destruct (some_task children).
  - cbn [negb]. rewrite IHl'. cbn [every_task some_task].
    destruct (forallb _ l); [|done]. cbn [orb].
    destruct (existsb _ l); by rewrite ?orb_true_r, ?Hst.
Qed.

Lemma childHasStatus_all parent status :
  childHasStatus parent status true
  = match get_prop parent "tasks" with
    | Some tasks => (some_task tasks && every_task status tasks)%bool
    | None => false
    end.
Proof.
  unfold childHasStatus. destruct (get_prop parent "tasks") as [tasks|]; [|done].
  destruct tasks as [| | | | | |[|e entries]]; try done.
  rewrite status_scan_all.
  destruct (every_task status (JObj (e :: entries))); simpl;
    [by destruct (is_object _ || _)%bool | by rewrite andb_false_r].
Qed.

(** ** Opening the frontier *)

Lemma openTasks_unfold clock tasks tick :
  openTasks clock tasks tick
  = if negb (truthy (Some tasks)) then (tick, tasks)
    else let '(tick', tasks', _) := scanAllTasks (open_visit clock) false [] tasks tick in
         (tick', tasks').
Proof. by destruct tasks. Qed.

Lemma isBlocking_set t k v : k <> "blocking" -> isBlocking (set_prop t k v) = isBlocking t.
Proof. intros Hk. unfold isBlocking. by rewrite get_set_ne. Qed.

(** A task that is waiting or open and blocking makes the visitor of
    [openTasks] answer "stop". *)
Lemma open_visit_blocking clock tick p t name :
  is_object t = true ->
  isBlocking t = true ->
  (str_is (status_of t) "waiting" || str_is (status_of t) "open")%bool = true ->
  snd (open_visit clock tick p t name) = false.
Proof.
  intros Hobj Hblock Hst. destruct t as [| | | | | |fields]; try done.
  unfold open_visit. rewrite !on_prop_lookup.
  destruct (str_is (status_of (JObj fields)) "open").
  - destruct (childHasStatus _ _ _).
    + destruct (lookup_prop "tasks" fields) as [children|].
      * destruct (openTasks clock children tick) as [t c']. cbn [snd].
        by rewrite isBlocking_set, Hblock.
      * cbn [snd]. by rewrite Hblock.
    + cbn [snd]. by rewrite Hblock.
  - rewrite orb_false_r in Hst. rewrite Hst. cbv zeta.
    destruct (truthy _).
    + destruct (lookup_prop "tasks" fields) as [children|].
      * destruct (openTasks clock children (S tick)) as [t c']. cbn [snd].
        by rewrite !isBlocking_set, Hblock.
      * cbn [snd]. by rewrite !isBlocking_set, Hblock.
    + cbn [snd]. by rewrite !isBlocking_set, Hblock.
Qed.

(** Once a visitor answers "stop" on an entry, the scan leaves every later
    entry of the mapping as it found it. *)
Lemma scan_entries_stops {S} (cb : S -> path -> jsval -> string -> S * jsval * bool)
  deep here name t post :
  is_object t = true ->
  (forall s p, snd (cb s p t name) = false) ->
  forall pre s,
  exists s' pre' t',
    scan_entries cb deep here (pre ++ (name, t) :: post)%list s
    = (s', (pre' ++ (name, t') :: post)%list, false)
    /\ map fst pre' = map fst pre.
Proof.
  intros Hobj Hstop. induction pre as [|[n task] pre IH]; intros s.
  - destruct t as [| | | | | |fields]; try done. simpl.
    pose proof (Hstop s (here ++ [name])%list) as Hs.
    destruct (cb s _ (JObj fields) name) as [[s1 task1] cont]. simpl in Hs. subst cont.
    exists s1, [], task1. by split.
  - cbn [app scan_entries].
    destruct task as [| | | | | |fields];
      try (destruct (IH s) as (s' & pre' & t' & -> & Hk);
           eexists s', ((n, _) :: pre'), t'; split; [done | simpl; by rewrite Hk]).
    destruct (cb s _ (JObj fields) n) as [[s1 task1] cont].
    destruct cont; cbn [negb].
    2: { exists s1, ((n, task1) :: pre), t. by split. }
    match goal with
    | |- context [if deep then ?a else ?b] =>
        destruct (if deep then a else b) as [[s2 task2] childScan]
    end.
    destruct childScan; cbn [negb].
    2: { exists s2, ((n, task2) :: pre), t. by split. }
    destruct (IH s2) as (s' & pre' & t' & -> & Hk).
    exists s', ((n, task2) :: pre'), t'. split; [done | simpl; by rewrite Hk].
Qed.

Lemma scan_entries_app {S} (cb : S -> path -> jsval -> string -> S * jsval * bool)
  deep here rest : forall pre s s1 pre1,
  scan_entries cb deep here pre s = (s1, pre1, true) ->
  scan_entries cb deep here (pre ++ rest)%list s
  = let '(s2, rest2, c) := scan_entries cb deep here rest s1 in
    (s2, (pre1 ++ rest2)%list, c).
Proof.
  induction pre as [|[n task] pre IH]; intros s s1 pre1 Hpre.
  - cbn [scan_entries] in Hpre. injection Hpre as <- <-. cbn [app].
    by destruct (scan_entries cb deep here rest s) as [[s2 rest2] c].
  - cbn [app scan_entries] in Hpre |- *.
    destruct task as [| | | | | |fields];
      try (destruct (scan_entries cb deep here pre s) as [[s3 l3] c3] eqn:Hl;
           injection Hpre as <- <- ->; rewrite (IH s s3 l3 Hl);
           by destruct (scan_entries cb deep here rest s3) as [[s2 rest2] c]).
    destruct (cb s (here ++ [n])%list (JObj fields) n) as [[sa task1] cont].
    destruct cont; cbn [negb] in Hpre |- *; [|done].
    match goal with
    | |- context [if deep then ?a else ?b] =>
        destruct (if deep then a else b) as [[sb task2] childScan]
    end.
    destruct childScan; cbn [negb] in Hpre |- *; [|done].
    destruct (scan_entries cb deep here pre sb) as [[s3 l3] c3] eqn:Hl.
    injection Hpre as <- <- ->. rewrite (IH sb s3 l3 Hl).
    by destruct (scan_entries cb deep here rest s3) as [[s2 rest2] c].
Qed.

(** What the visitor of [openTasks] leaves of a task: the status is
    [opened_status], a task opened now carries the clock reading as
    [timeOpened], [blocking] is as it was. *)
Lemma open_visit_result clock tick p t name :
  is_object t = true ->
  exists tick' t',
    open_visit clock tick p t name
    = (tick', t',
       if (str_is (status_of t) "open" || str_is (status_of t) "waiting")%bool
       then negb (isBlocking t) else true)
    /\ is_object t' = true
    /\ status_of t' = opened_status t
    /\ (str_is (status_of t) "waiting" = true ->
        get_prop t' "timeOpened" = Some (JNum (clock tick)))
    /\ (str_is (status_of t) "waiting" = false ->
        get_prop t' "timeOpened" = get_prop t "timeOpened").
Proof.
  intros Hobj. destruct t as [| | | | | |fields]; try done.
  unfold open_visit, opened_status. rewrite !on_prop_lookup.
  destruct (str_is (status_of (JObj fields)) "open") eqn:Hopen.
  - assert (Hw : str_is (status_of (JObj fields)) "waiting" = false).
    { apply str_is_eq in Hopen. by rewrite Hopen. }
    rewrite Hw. cbn [orb].
    destruct (childHasStatus _ _ _);
      [destruct (lookup_prop "tasks" fields) as [children|];
       [destruct (openTasks clock children tick) as [t c']|]|];
      eexists _, _; (split; [rewrite ?isBlocking_set by done; reflexivity|]);
      unfold status_of; repeat split; try done; intros; by props.
  - cbn [orb]. destruct (str_is (status_of (JObj fields)) "waiting") eqn:Hw.
    + cbv zeta.
      destruct (truthy _);
        [destruct (lookup_prop "tasks" fields) as [children|];
         [destruct (openTasks clock children (S tick)) as [t c']|]|];
        eexists _, _; (split; [rewrite ?isBlocking_set by done; reflexivity|]);
        unfold status_of; repeat split; try done; intros; by props.
    + eexists _, _. split; [reflexivity|]. by repeat split.
Qed.

Lemma open_entries_fan_out clock here : forall l tick,
  none_blocking l = true ->
  exists tick' l',
    scan_entries (open_visit clock) false here l tick = (tick', l', true)
    /\ map (fun entry => (fst entry, status_of (snd entry))) l'
       = map (fun entry => (fst entry, opened_status (snd entry))) l.
Proof.
  induction l as [|[n task] l IH]; intros tick Hnone; [by exists tick, []|].
  cbn [none_blocking forallb snd] in Hnone. apply andb_true_iff in Hnone as [Hb Hrest].
  apply negb_true_iff in Hb.
  destruct (is_object task) eqn:Hobj.
  - destruct (open_visit_result clock tick (here ++ [n])%list task n Hobj)
      as (tick1 & task1 & Hvisit & _ & Hst & _).
    rewrite Hb in Hvisit. cbn [negb] in Hvisit.
    assert (Hcont : (if (str_is (status_of task) "open"
                         || str_is (status_of task) "waiting")%bool
                     then true else true) = true) by (by destruct (_ || _)%bool).
    rewrite Hcont in Hvisit.
    destruct task as [| | | | | |fields]; try done.
    cbn [scan_entries]. rewrite Hvisit. cbn [negb].
    destruct (IH tick1 Hrest) as (tick' & l' & -> & Hmap).
    exists tick', ((n, task1) :: l'). split; [done|].
    cbn [map fst snd]. by rewrite Hst, Hmap.
  - destruct (IH tick Hrest) as (tick' & l' & Hl & Hmap).
    exists tick', ((n, task) :: l'). split.
    + destruct task; try done; cbn [scan_entries]; by rewrite Hl.
    + cbn [map fst snd]. rewrite Hmap. f_equal. f_equal.
      unfold opened_status. by destruct task.
Qed.


Lemma openTasks_entries clock l tick :
  openTasks clock (JObj l) tick
  = let '(tick', l', _) := scan_entries (open_visit clock) false [] l tick in
    (tick', JObj l').
Proof.
  rewrite openTasks_unfold. cbn [truthy negb]. rewrite scanAllTasks_entries.
  by destruct (scan_entries (open_visit clock) false [] l tick) as [[tick' l'] c].
Qed.

(** A task that is neither waiting nor open is left as it is, and the scan
    goes on. *)
Lemma open_visit_other clock tick p t name :
  (str_is (status_of t) "waiting" || str_is (status_of t) "open")%bool = false ->
  open_visit clock tick p t name = (tick, t, true).
Proof.
  intros [Hw Ho]%orb_false_iff. destruct t as [| | | | | |fields]; try done.
  unfold open_visit. by rewrite Ho, Hw.
Qed.

(** Where the scan meets no barrier it runs to the end of the mapping. *)
Lemma open_scan_passes clock here : forall l tick,
  no_barrier l = true ->
  exists tick' l', scan_entries (open_visit clock) false here l tick = (tick', l', true).
Proof.
  induction l as [|[n task] l IH]; intros tick Hnone; [by exists tick, []|].
  cbn [no_barrier forallb snd] in Hnone. apply andb_true_iff in Hnone as [Hb Hrest].
  apply negb_true_iff in Hb. unfold barrier in Hb.
  destruct (is_object task) eqn:Hobj.
  - destruct (open_visit_result clock tick (here ++ [n])%list task n Hobj)
      as (tick1 & task1 & Hvisit & _).
    assert (Hcont : (if (str_is (status_of task) "open"
                         || str_is (status_of task) "waiting")%bool
                     then negb (isBlocking task) else true) = true).
    { cbn [andb] in Hb. destruct (isBlocking task); cbn [andb negb] in Hb |- *.
      - rewrite orb_comm in Hb. by rewrite Hb.
      - by destruct (_ || _)%bool. }
    rewrite Hcont in Hvisit.
    destruct task as [| | | | | |fields]; try done.
    cbn [scan_entries]. rewrite Hvisit. cbn [negb].
    destruct (IH tick1 Hrest) as (tick' & l' & ->). by eexists _, _.
  - destruct (IH tick Hrest) as (tick' & l' & Hl).
    exists tick', ((n, task) :: l').
    destruct task; try done; cbn [scan_entries]; by rewrite Hl.
Qed.

Lemma open_passes clock l tick :
  no_barrier l = true ->
  exists tick' l',
    scan_entries (open_visit clock) false [] l tick = (tick', l', true)
    /\ openTasks clock (JObj l) tick = (tick', JObj l').
Proof.
  intros Hnone. destruct (open_scan_passes clock [] l tick Hnone) as (tick' & l' & Hscan).
  exists tick', l'. split; [done|]. by rewrite openTasks_entries, Hscan.
Qed.

(** What the visitor does with a waiting task that has children. *)
Lemma open_visit_waiting clock tick p fields name children :
  str_is (status_of (JObj fields)) "waiting" = true ->
  lookup_prop "tasks" fields = Some children ->
  truthy (Some children) = true ->
  open_visit clock tick p (JObj fields) name
  = (fst (openTasks clock children (S tick)),
     set_prop
       (set_prop (set_prop (JObj fields) "status" (JStr "open"))
          "timeOpened" (JNum (clock tick)))
       "tasks" (snd (openTasks clock children (S tick))),
     negb (isBlocking (JObj fields))).
Proof.
  intros Hwait Hch Htruthy. unfold open_visit. rewrite !on_prop_lookup.
  assert (Hopen : str_is (status_of (JObj fields)) "open" = false).
  { apply str_is_eq in Hwait. by rewrite Hwait. }
  rewrite Hopen, Hwait. cbv zeta. cbn [get_prop]. rewrite Hch, Htruthy.
  destruct (openTasks clock children (S tick)) as [t c']. cbn [fst snd].
  by rewrite !isBlocking_set.
Qed.

(** What the visitor does with an open task one of whose descendants
    waits. *)
Lemma open_visit_open clock tick p fields name children :
  str_is (status_of (JObj fields)) "open" = true ->
  lookup_prop "tasks" fields = Some children ->
  childHasStatus (JObj fields) "waiting" false = true ->
  open_visit clock tick p (JObj fields) name
  = (fst (openTasks clock children tick),
     set_prop (JObj fields) "tasks" (snd (openTasks clock children tick)),
     negb (isBlocking (JObj fields))).
Proof.
  intros Hopen Hch Hsome. unfold open_visit. rewrite !on_prop_lookup.
  rewrite Hopen, Hsome, Hch.
  destruct (openTasks clock children tick) as [t c']. cbn [fst snd].
  by rewrite isBlocking_set.
Qed.

(** C10, as amended.  The opening step of a pass, in a mapping of plain
    task objects, at a task [t] whose [blocking] coerces to true.  When [t]
    is [waiting] or [open] as the scan meets it, every later sibling stays
    closed: the entries after it come out of [openTasks] as they went in.
    When [t] has any other status ([completed], but also [error],
    [executing] or [paused]) the scan goes on: [t] is left as it is and the
    later siblings are opened as a mapping of their own would be.  The
    children of [t] are opened by the same [openTasks], applied to its
    child mapping as to any mapping, both when [t] is [waiting] and has
    children and when [t] is [open] and a descendant waits, so the parent's
    flag puts no restriction between them: in a mapping none of whose tasks
    is blocking, every task that waits is opened. *)
Theorem blocking_task_keeps_later_siblings_closed clock pre name t post tick :
  plain_mapping (JObj (pre ++ (name, t) :: post)) = true ->
  is_object t = true ->
  isBlocking t = true ->
  ((str_is (status_of t) "waiting" || str_is (status_of t) "open")%bool = true ->
   exists tick' pre' t',
     openTasks clock (JObj (pre ++ (name, t) :: post)) tick
     = (tick', JObj (pre' ++ (name, t') :: post))
     /\ map fst pre' = map fst pre)
  /\ ((str_is (status_of t) "waiting" || str_is (status_of t) "open")%bool = false ->
      no_barrier pre = true ->
      exists tick1 pre' tick2 post',
        openTasks clock (JObj pre) tick = (tick1, JObj pre')
        /\ openTasks clock (JObj post) tick1 = (tick2, JObj post')
        /\ openTasks clock (JObj (pre ++ (name, t) :: post)) tick
           = (tick2, JObj (pre' ++ (name, t) :: post')))
  /\ (forall children,
        str_is (status_of t) "waiting" = true ->
        get_prop t "tasks" = Some children ->
        truthy (Some children) = true ->
        no_barrier pre = true ->
        exists tick1 pre',
          openTasks clock (JObj pre) tick = (tick1, JObj pre')
          /\ openTasks clock (JObj (pre ++ (name, t) :: post)) tick
             = (fst (openTasks clock children (S tick1)),
                JObj (pre'
                      ++ (name,
                          set_prop
                            (set_prop (set_prop t "status" (JStr "open"))
                               "timeOpened" (JNum (clock tick1)))
                            "tasks" (snd (openTasks clock children (S tick1))))
                      :: post)))
  /\ (forall children,
        str_is (status_of t) "open" = true ->
        get_prop t "tasks" = Some children ->
        childHasStatus t "waiting" false = true ->
        no_barrier pre = true ->
        exists tick1 pre',
          openTasks clock (JObj pre) tick = (tick1, JObj pre')
          /\ openTasks clock (JObj (pre ++ (name, t) :: post)) tick
             = (fst (openTasks clock children tick1),
                JObj (pre'
                      ++ (name, set_prop t "tasks" (snd (openTasks clock children tick1)))
                      :: post)))
  /\ (forall entries tick0,
        plain_mapping (JObj entries) = true ->
        none_blocking entries = true ->
        exists tick' entries',
          openTasks clock (JObj entries) tick0 = (tick', JObj entries')
          /\ map (fun entry => (fst entry, status_of (snd entry))) entries'
             = map (fun entry => (fst entry, opened_status (snd entry))) entries).
Proof.
  intros _ Hobj Hblock. split; [|split; [|split; [|split]]].
  - intros Hst. rewrite openTasks_unfold. cbn [truthy negb]. rewrite scanAllTasks_entries.
    destruct (scan_entries_stops (open_visit clock) false [] name t post Hobj
                (fun s p => open_visit_blocking clock s p t name Hobj Hblock Hst) pre tick)
      as (tick' & pre' & t' & -> & Hk).
    by exists tick', pre', t'.
  - intros Hst Hpre.
    destruct (open_passes clock pre tick Hpre) as (tick1 & pre' & Hscan & Hopen).
    destruct (scan_entries (open_visit clock) false [] post tick1)
      as [[tick2 post'] c] eqn:Hpost.
    exists tick1, pre', tick2, post'. split; [done|]. split.
    + by rewrite openTasks_entries, Hpost.
    + rewrite openTasks_entries.
      rewrite (scan_entries_app _ false [] _ pre tick tick1 pre' Hscan).
      destruct t as [| | | | | |fields]; try done.
      cbn [scan_entries]. rewrite open_visit_other by done. cbn [negb].
      by rewrite Hpost.
  - intros children Hwait Hch Htruthy Hpre.
    destruct (open_passes clock pre tick Hpre) as (tick1 & pre' & Hscan & Hopen).
    exists tick1, pre'. split; [done|].
    rewrite openTasks_entries.
    rewrite (scan_entries_app _ false [] _ pre tick tick1 pre' Hscan).
    destruct t as [| | | | | |fields]; try done.
    cbn [scan_entries].
    rewrite (open_visit_waiting clock tick1 _ fields name children) by done.
    by rewrite Hblock.
  - intros children Hopen Hch Hsome Hpre.
    destruct (open_passes clock pre tick Hpre) as (tick1 & pre' & Hscan & Hopen').
    exists tick1, pre'. split; [done|].
    rewrite openTasks_entries.
    rewrite (scan_entries_app _ false [] _ pre tick tick1 pre' Hscan).
    destruct t as [| | | | | |fields]; try done.
    cbn [scan_entries].
    rewrite (open_visit_open clock tick1 _ fields name children) by done.
    by rewrite Hblock.
  - intros entries tick0 _ Hnone. rewrite openTasks_entries.
    destruct (open_entries_fan_out clock [] entries tick0 Hnone)
      as (tick' & l' & -> & Hmap).
    by exists tick', l'.
Qed.

(** C10, the claim as stated fails.  The claim lets any task whose
    [blocking] coerces to true keep its later siblings closed.  In
    [{a: {status: "error", blocking: true}, b: {status: "waiting"}}] the
    opening step opens [b], and executing an instance whose blocking task
    [a] has failed runs its successor [b] to completion while [a] stays in
    [error]. *)
Lemma failed_blocking_task_does_not_block :
  isBlocking (JObj [("status", JStr "error"); ("blocking", JBool true)]) = true
  /\ read_path ["b"; "status"] (snd (openTasks demo_clock blocking_failed_then_waiting 0))
     = Some (JStr "open")
  /\ read_path ["tasks"; "a"; "status"]
       (instance_after (demo_execute empty_dir 0 scenario_failed_blocker))
     = Some (JStr "error")
  /\ read_path ["tasks"; "b"; "status"]
       (instance_after (demo_execute empty_dir 0 scenario_failed_blocker))
     = Some (JStr "completed").
Proof. repeat split; vm_compute; reflexivity. Qed.

Lemma blocking_task_keeps_later_siblings_closed_witness :
  exists tick' pre' t',
    openTasks demo_clock
      (JObj ([] ++ ("t1", JObj [("blocking", JStr "TRUE"); ("status", JStr "waiting")])
                :: [("t2", JObj [("status", JStr "waiting")])])) 0
    = (tick', JObj (pre' ++ ("t1", t') :: [("t2", JObj [("status", JStr "waiting")])]))
    /\ map fst pre' = map fst (@nil (string * jsval)).
Proof.
  exact (proj1 (blocking_task_keeps_later_siblings_closed demo_clock []
                  "t1" (JObj [("blocking", JStr "TRUE"); ("status", JStr "waiting")])
                  [("t2", JObj [("status", JStr "waiting")])] 0
                  eq_refl eq_refl eq_refl) eq_refl).
Defined.

(** ** What a pass leaves alone at the root of the instance *)

Section ReportedErrors.
Variable clock : nat -> Z.
Variable js_minus : option jsval -> option jsval -> jsval.
Variable import : string -> module.




End ReportedErrors.

Section RootFrame.
Context {St : Type} `{SaveFrame St}.
Variable clock : nat -> Z.
Variable js_minus : option jsval -> option jsval -> jsval.
Variable import : string -> module.


Lemma parse_value_brace fuel rest :
  parse_value (S fuel) (String "{" rest)
  = match skip_ws rest with
    | String "}" r => Some (JObj [], r)
    | _ => parse_members fuel rest []
    end.
Proof. reflexivity. Qed.











Lemma childHasStatus_tasks a b status all :
  get_prop a "tasks" = get_prop b "tasks" ->
  childHasStatus a status all = childHasStatus b status all.
Proof. intros Heq. unfold childHasStatus. by rewrite Heq. Qed.




Variable process_env : list (string * string).
Variable uuidv4 : string.



End RootFrame.

#[global] Instance file_save_frame : SaveFrame FileStore.t.
Proof.
  intros st now workflow k _. cbn. unfold FileStore.saveInstance.
  by repeat case_match.
Qed.

#[global] Instance mongo_save_frame : SaveFrame MongoStore.t.
Proof.
  intros st now workflow k Hk. cbn. unfold MongoStore.saveInstance.
  repeat case_match; simplify_eq/=; rewrite ?get_set_ne; done.
Qed.



(** ** The JSON round trip *)

Lemma jsval_nested_ind (P : jsval -> Prop) :
  P JNull -> (forall b, P (JBool b)) -> (forall n, P (JNum n)) -> P JNaN ->
  (forall s, P (JStr s)) ->
  (forall items, Forall P items -> P (JArr items)) ->
  (forall fields, Forall (fun kv => P (snd kv)) fields -> P (JObj fields)) ->
  forall v, P v.
Proof.
  intros Hnull Hbool Hnum Hnan Hstr Harr Hobj. fix IH 1.
  intros [|b|n| |s|items|fields];
    [exact Hnull | apply Hbool | apply Hnum | exact Hnan | apply Hstr | | ].
  - apply Harr. induction items as [|x items IHi]; constructor; [apply IH | apply IHi].
  - apply Hobj. induction fields as [|[k x] fields IHf]; constructor;
      [apply IH | apply IHf].
Qed.

(** *** Strings *)

Lemma parse_chars_quote_char c tail :
  parse_chars (quote_char c +:+ tail)
  = match parse_chars tail with
    | Some (body, rest) => Some (String c body, rest)
    | None => None
    end.
Proof.
  destruct c as [[] [] [] [] [] [] [] []]; reflexivity.
Qed.

Lemma parse_chars_quote_body s rest :
  parse_chars (quote_body s +:+ String dquote rest) = Some (s, rest).
Proof.
  induction s as [|c s IH]; [reflexivity|].
  cbn [quote_body]. rewrite app_assoc_str, parse_chars_quote_char. by rewrite IH.
Qed.

(** *** Numbers *)

Lemma pretty_N_char_digit x :
  (x < 10)%N ->
  is_digit (pretty_N_char x) = true /\ digit_val (pretty_N_char x) = Z.of_N x
  /\ (pretty_N_char x = "0"%char -> x = 0%N).
Proof.
  intros Hx.
  assert (x = 0 ∨ x = 1 ∨ x = 2 ∨ x = 3 ∨ x = 4 ∨ x = 5
          ∨ x = 6 ∨ x = 7 ∨ x = 8 ∨ x = 9)%N as Hcases by lia.
  destruct Hcases as [->|[->|[->|[->|[->|[->|[->|[->|[->| ->]]]]]]]]];
    (split; [reflexivity|split; [reflexivity|]]); first [done | intros Hc; discriminate Hc].
Qed.

Lemma pretty_N_go_app x : forall s rest,
  pretty_N_go x s +:+ rest = pretty_N_go x (s +:+ rest).
Proof.
  induction (N.lt_wf_0 x) as [x _ IH]; intros s rest.
  assert (x = 0 ∨ 0 < x)%N as [->|?] by lia.
  - by rewrite !pretty_N_go_0.
  - rewrite (pretty_N_go_step x s), (pretty_N_go_step x (s +:+ rest)) by done.
    by rewrite IH by (by apply N.div_lt).
Qed.

Lemma parse_digits_pretty_N_go x :
  exists k : Z, 0 <= k /\ forall s acc,
    parse_digits acc (pretty_N_go x s) = parse_digits (acc * 10 ^ k + Z.of_N x) s.
Proof.
  induction (N.lt_wf_0 x) as [x _ IH].
  assert (x = 0 ∨ 0 < x)%N as [->|Hpos] by lia.
  - exists 0. split; [done|]. intros s acc. rewrite pretty_N_go_0. f_equal. lia.
  - destruct (IH (x `div` 10)%N) as (k & Hk & Hparse); [by apply N.div_lt|].
    exists (k + 1). split; [lia|]. intros s acc.
    rewrite pretty_N_go_step, Hparse by done.
    destruct (pretty_N_char_digit (x `mod` 10)%N) as (Hd & Hv & _);
      [by apply N.mod_lt|].
    cbn [parse_digits]. rewrite Hd, Hv. f_equal.
    rewrite Z.pow_add_r by lia.
    pose proof (N.div_mod x 10 ltac:(done)) as Hdm.
    set (q := (x `div` 10)%N) in *. set (m := (x `mod` 10)%N) in *.
    assert (Z.of_N x = 10 * Z.of_N q + Z.of_N m) by lia.
    lia.
Qed.

Lemma pretty_N_go_head x s :
  (0 < x)%N ->
  exists c r, pretty_N_go x s = String c r /\ is_digit c = true /\ c <> "0"%char.
Proof.
  revert s. induction (N.lt_wf_0 x) as [x _ IH]; intros s Hpos.
  rewrite pretty_N_go_step by done.
  destruct (decide (x `div` 10 = 0)%N) as [Hz|Hd]; [|apply N.neq_0_lt_0 in Hd].
  - rewrite Hz, pretty_N_go_0.
    destruct (pretty_N_char_digit (x `mod` 10)%N) as (Hd & _ & H0);
      [by apply N.mod_lt|].
    eexists _, _. split; [done|]. split; [done|]. intros Hc. apply H0 in Hc.
    pose proof (N.div_mod x 10 ltac:(done)) as Hdm. rewrite Hz, Hc in Hdm. lia.
  - apply IH; [by apply N.div_lt | done].
Qed.

Lemma parse_digits_done acc s : ends_number s = true -> parse_digits acc s = (acc, s).
Proof.
  destruct s as [|c s]; [done|]. cbn [ends_number parse_digits].
  destruct (is_digit c); [|done]. by rewrite !orb_true_r.
Qed.

Lemma parse_unsigned_pretty_N (x : N) rest :
  ends_number rest = true ->
  parse_unsigned (pretty x +:+ rest) = Some (Z.of_N x, rest).
Proof.
  intros Hend. unfold pretty, pretty_N. case_decide as Hx.
  - subst x. change ("0" +:+ rest) with (String "0" rest). unfold parse_unsigned.
    change (Ascii.eqb "0" "0") with true. cbv iota. by rewrite Hend.
  - rewrite pretty_N_go_app.
    change (EmptyString +:+ rest) with rest.
    destruct (pretty_N_go_head x rest) as (c & r & Heq & Hd & Hc); [lia|].
    destruct (parse_digits_pretty_N_go x) as (k & _ & Hparse).
    pose proof (Hparse rest 0) as Hp. rewrite Heq in Hp |- *.
    unfold parse_unsigned.
    assert (Ascii.eqb c "0" = false) as -> by (by apply Ascii.eqb_neq).
    replace (0 * 10 ^ k + Z.of_N x) with (Z.of_N x) in Hp by lia.
    rewrite Hd, Hp, parse_digits_done by done. by rewrite Hend.
Qed.

Lemma parse_number_digit c r :
  is_digit c = true ->
  parse_number (String c r)
  = match parse_unsigned (String c r) with
    | Some (n, rest) => Some (JNum n, rest)
    | None => None
    end.
Proof.
  intros Hd. destruct c as [[] [] [] [] [] [] [] []]; try (by cbv in Hd); reflexivity.
Qed.

Lemma pretty_N_head (x : N) :
  exists c r, pretty x = String c r /\ is_digit c = true.
Proof.
  unfold pretty, pretty_N. case_decide; [by eexists _, _|].
  destruct (pretty_N_go_head x EmptyString) as (c & r & Heq & Hd & _); [lia|].
  by exists c, r.
Qed.

Lemma parse_number_pretty (z : Z) rest :
  ends_number rest = true ->
  parse_number (pretty z +:+ rest) = Some (JNum z, rest).
Proof.
  intros Hend.
  assert (HN : forall x : N,
             parse_number (pretty x +:+ rest) = Some (JNum (Z.of_N x), rest)).
  { intros x. pose proof (parse_unsigned_pretty_N x rest Hend) as Hu.
    destruct (pretty_N_head x) as (c & r & Heq & Hd). rewrite Heq in Hu |- *.
    rewrite app_cons in Hu |- *. rewrite parse_number_digit by done. by rewrite Hu. }
  destruct z as [|p|p].
  - apply (HN 0%N).
  - apply (HN (N.pos p)).
  - change (pretty (Z.neg p)) with ("-" +:+ pretty (N.pos p)).
    rewrite app_assoc_str.
    change ("-" +:+ (pretty (N.pos p) +:+ rest))
      with (String "-" (pretty (N.pos p) +:+ rest)).
    cbn [parse_number].
    by rewrite (parse_unsigned_pretty_N (N.pos p) rest Hend).
Qed.

Lemma parse_value_number fuel c r :
  (is_digit c || Ascii.eqb c "-")%bool = true ->
  parse_value (S fuel) (String c r) = parse_number (String c r).
Proof.
  intros Hd. destruct c as [[] [] [] [] [] [] [] []]; try (by cbv in Hd); reflexivity.
Qed.

Lemma pretty_Z_head (z : Z) :
  exists c r, pretty z = String c r /\ (is_digit c || Ascii.eqb c "-")%bool = true.
Proof.
  assert (HN : forall x : N, exists c r,
               pretty x = String c r /\ (is_digit c || Ascii.eqb c "-")%bool = true).
  { intros x. destruct (pretty_N_head x) as (c & r & Heq & Hd).
    exists c, r. by rewrite Hd. }
  destruct z as [|p|p]; [apply (HN 0%N) | apply (HN (N.pos p)) | by eexists _, _].
Qed.

(** *** White space *)

Lemma skip_ws_spaces k s : skip_ws (spaces k +:+ s) = skip_ws s.
Proof. induction k as [|k IH]; [done|]. cbn [spaces]. by rewrite app_cons. Qed.

Lemma skip_ws_nl n s : skip_ws (nl_indent n +:+ s) = skip_ws s.
Proof. unfold nl_indent. rewrite app_cons. cbn [skip_ws]. apply skip_ws_spaces. Qed.

Lemma skip_ws_idem s : skip_ws (skip_ws s) = skip_ws s.
Proof.
  induction s as [|c s IH]; [done|]. cbn [skip_ws].
  destruct (is_json_ws c) eqn:Hc; [done|]. cbn [skip_ws]. by rewrite Hc.
Qed.

Lemma parse_value_skip fuel s : parse_value fuel (skip_ws s) = parse_value fuel s.
Proof. destruct fuel; [done|]. cbn [parse_value]. by rewrite skip_ws_idem. Qed.

Lemma parse_members_skip fuel s acc :
  parse_members fuel (skip_ws s) acc = parse_members fuel s acc.
Proof. destruct fuel; [done|]. cbn [parse_members]. by rewrite skip_ws_idem. Qed.

Lemma parse_elements_skip fuel s acc :
  parse_elements fuel (skip_ws s) acc = parse_elements fuel s acc.
Proof. destruct fuel; [done|]. cbn [parse_elements]. by rewrite parse_value_skip. Qed.

(** *** The first character of a value *)

Lemma number_head c :
  (is_digit c || Ascii.eqb c "-")%bool = true ->
  is_json_ws c = false /\ c <> "]"%char.
Proof.
  intros Hd. destruct c as [[] [] [] [] [] [] [] []]; try (by cbv in Hd); by split.
Qed.

Lemma stringify_arr n x xs :
  stringify n (JArr (x :: xs))
  = "[" +:+ nl_indent (S n) +:+ stringify (S n) x +:+ stringify_items (S n) xs
    +:+ nl_indent n +:+ "]".
Proof. reflexivity. Qed.

Lemma stringify_obj n k x ps :
  stringify n (JObj ((k, x) :: ps))
  = "{" +:+ nl_indent (S n) +:+ quote k +:+ ": " +:+ stringify (S n) x
    +:+ stringify_fields (S n) ps +:+ nl_indent n +:+ "}".
Proof. reflexivity. Qed.

Lemma stringify_head n v :
  exists c r, stringify n v = String c r /\ is_json_ws c = false /\ c <> "]"%char.
Proof.
  destruct v as [|[]|z| |s|[|x xs]|[|[k x] ps]]; try (by eexists _, _).
  destruct (pretty_Z_head z) as (c & r & Heq & Hd).
  exists c, r. split; [exact Heq|by apply number_head].
Qed.

Lemma skip_ws_value n v t : skip_ws (stringify n v +:+ t) = stringify n v +:+ t.
Proof.
  destruct (stringify_head n v) as (c & r & -> & Hws & _).
  rewrite app_cons. cbn [skip_ws]. by rewrite Hws.
Qed.

(** What follows a value inside an array or an object ends a number. *)
Lemma ends_number_nl n t : ends_number (nl_indent n +:+ t) = true.
Proof. reflexivity. Qed.

Lemma ends_number_items n xs m t :
  ends_number (stringify_items n xs +:+ nl_indent m +:+ t) = true.
Proof. by destruct xs. Qed.

Lemma ends_number_fields n ps m t :
  ends_number (stringify_fields n ps +:+ nl_indent m +:+ t) = true.
Proof. by destruct ps as [|[k x] ps]. Qed.

(** *** Fresh keys *)

Lemma assign_fresh k v acc :
  ~ In k (map fst acc) -> assign_prop k v acc = (acc ++ [(k, v)])%list.
Proof.
  induction acc as [|[k' v'] acc IH]; [done|]. cbn [map fst In assign_prop app].
  intros Hn. destruct (String.eqb k k') eqn:Hk.
  - apply String.eqb_eq in Hk. destruct Hn. by left.
  - rewrite IH; [done|]. intros Hin. apply Hn. by right.
Qed.

Lemma nodup_keys_NoDup ks : nodup_keys ks = true -> List.NoDup ks.
Proof.
  induction ks as [|k ks IH]; [constructor|]. cbn [nodup_keys].
  intros [Hk Hks]%andb_true_iff. constructor; [|by apply IH].
  intros Hin. apply negb_true_iff in Hk.
  assert (existsb (String.eqb k) ks = true); [|congruence].
  apply existsb_exists. exists k. split; [done|]. apply String.eqb_refl.
Qed.

Lemma distinct_keys_arr x items :
  distinct_keys (JArr (x :: items))
  = (distinct_keys x && distinct_keys (JArr items))%bool.
Proof. reflexivity. Qed.

Lemma distinct_keys_obj fields :
  distinct_keys (JObj fields)
  = (nodup_keys (map fst fields)
     && forallb (fun kv => distinct_keys (snd kv)) fields)%bool.
Proof. reflexivity. Qed.

(** *** Values *)

Lemma parse_elements_items n m rest : forall items x acc fuel,
  Forall reads_back (x :: items) ->
  distinct_keys (JArr (x :: items)) = true ->
  (parse_cost (JArr (x :: items)) <= S fuel)%nat ->
  parse_elements fuel
    (nl_indent n +:+ stringify n x +:+ stringify_items n items
     +:+ nl_indent m +:+ "]" +:+ rest) acc
  = Some (JArr (rev acc ++ json_norm x :: map json_norm items), rest).
Proof.
  induction items as [|y items IH]; intros x acc fuel Hall Hdist Hfuel.
  - apply Forall_cons in Hall as [Hx _].
    rewrite distinct_keys_arr in Hdist. apply andb_true_iff in Hdist as [Hdx Hdist].
    cbn [parse_cost fold_right] in Hfuel.
    destruct fuel as [|fuel]; [lia|]. cbn [parse_elements].
    rewrite <- parse_value_skip, skip_ws_nl, skip_ws_value.
    rewrite (Hx n _ fuel) by (try apply ends_number_items; done || lia).
    cbn [stringify_items]. change (EmptyString +:+ ?s) with s.
    rewrite skip_ws_nl. reflexivity.
  - apply Forall_cons in Hall as [Hx Hall].
    rewrite distinct_keys_arr in Hdist. apply andb_true_iff in Hdist as [Hdx Hdist].
    cbn [parse_cost fold_right] in Hfuel.
    destruct fuel as [|fuel]; [lia|]. cbn [parse_elements].
    rewrite <- parse_value_skip, skip_ws_nl, skip_ws_value.
    rewrite (Hx n _ fuel) by (try apply ends_number_items; done || lia).
    cbn [stringify_items]. rewrite !app_assoc_str, app_cons. cbn [skip_ws].
    change (is_json_ws ",") with false. cbv iota.
    change (EmptyString +:+ ?s) with s.
    rewrite IH; [| done | done
                 | cbn [parse_cost fold_right]; lia].
    cbn [rev map]. by rewrite <- app_assoc.
Qed.

Lemma quote_app k t : quote k +:+ t = String dquote (quote_body k +:+ String dquote t).
Proof. unfold quote. by rewrite app_cons, app_assoc_str. Qed.

Lemma parse_members_fields n m rest : forall ps k x acc fuel,
  Forall (fun kv => reads_back (snd kv)) ((k, x) :: ps) ->
  List.NoDup (map fst acc ++ k :: map fst ps) ->
  forallb (fun kv => distinct_keys (snd kv)) ((k, x) :: ps) = true ->
  (parse_cost (JObj ((k, x) :: ps)) <= S fuel)%nat ->
  parse_members fuel
    (nl_indent n +:+ quote k +:+ ": " +:+ stringify n x +:+ stringify_fields n ps
     +:+ nl_indent m +:+ "}" +:+ rest) acc
  = Some (JObj (acc ++ (k, json_norm x)
                  :: map (fun kv => (fst kv, json_norm (snd kv))) ps), rest).
Proof.
  induction ps as [|[k' y] ps IH]; intros k x acc fuel Hall Hnodup Hdist Hfuel;
    apply Forall_cons in Hall as [Hx Hall]; cbn [snd] in Hx;
    cbn [forallb snd] in Hdist; apply andb_true_iff in Hdist as [Hdx Hdist];
    cbn [parse_cost fold_right snd] in Hfuel;
    (destruct fuel as [|fuel]; [lia|]);
    pose proof (NoDup_remove_2 _ _ _ Hnodup) as Hfresh;
    cbn [parse_members];
    rewrite skip_ws_nl, quote_app; cbn [skip_ws];
    change (is_json_ws dquote) with false; cbv iota;
    change (Ascii.eqb dquote dquote) with true; cbv iota;
    rewrite parse_chars_quote_body;
    rewrite app_cons; cbn [skip_ws]; change (is_json_ws ":") with false; cbv iota;
    rewrite <- parse_value_skip; rewrite app_cons; cbn [skip_ws];
    change (is_json_ws " ") with true; cbv iota;
    change (EmptyString +:+ ?s) with s; rewrite skip_ws_value;
    rewrite (Hx n _ fuel) by (try apply ends_number_fields; done || lia);
    (rewrite assign_fresh by (intros Hin; apply Hfresh, in_or_app; by left)).
  - cbn [stringify_fields]. change (EmptyString +:+ ?s) with s.
    rewrite skip_ws_nl. reflexivity.
  - cbn [stringify_fields]. rewrite !app_assoc_str, app_cons. cbn [skip_ws].
    change (is_json_ws ",") with false. cbv iota.
    change (EmptyString +:+ ?s) with s.
    rewrite IH; [| done | | done
                 | cbn [parse_cost fold_right snd]; lia].
    + cbn [map fst snd]. by rewrite <- app_assoc.
    + rewrite map_app. cbn [map fst]. by rewrite <- app_assoc.
Qed.

Lemma parse_value_bracket fuel rest :
  parse_value (S fuel) (String "[" rest)
  = match skip_ws rest with
    | String "]" r => Some (JArr [], r)
    | _ => parse_elements fuel rest []
    end.
Proof. reflexivity. Qed.

Lemma parse_value_quote fuel rest :
  parse_value (S fuel) (String dquote rest)
  = match parse_chars rest with
    | Some (body, r) => Some (JStr body, r)
    | None => None
    end.
Proof. reflexivity. Qed.

Lemma parse_value_literal fuel rest :
  parse_value (S fuel) ("null" +:+ rest) = Some (JNull, rest)
  /\ parse_value (S fuel) ("true" +:+ rest) = Some (JBool true, rest)
  /\ parse_value (S fuel) ("false" +:+ rest) = Some (JBool false, rest).
Proof.
  repeat split.
  - change (parse_value (S fuel) ("null" +:+ rest))
      with (expect "null" JNull ("null" +:+ rest)).
    unfold expect. by rewrite prefix_app, drop_str_app.
  - change (parse_value (S fuel) ("true" +:+ rest))
      with (expect "true" (JBool true) ("true" +:+ rest)).
    unfold expect. by rewrite prefix_app, drop_str_app.
  - change (parse_value (S fuel) ("false" +:+ rest))
      with (expect "false" (JBool false) ("false" +:+ rest)).
    unfold expect. by rewrite prefix_app, drop_str_app.
Qed.

(** [parse_value] reads back what [stringify] wrote, whatever follows it. *)
Lemma stringify_reads_back v : reads_back v.
Proof.
  induction v as [|b|z| |s|items IH|fields IH] using jsval_nested_ind;
    intros n rest fuel Hdist Hend Hfuel.
  - destruct fuel as [|fuel]; [cbn in Hfuel; lia|]. apply parse_value_literal.
  - destruct fuel as [|fuel]; [cbn in Hfuel; lia|].
    destruct b; apply parse_value_literal.
  - destruct fuel as [|fuel]; [cbn in Hfuel; lia|]. cbn [stringify json_norm].
    destruct (pretty_Z_head z) as (c & r & Heq & Hd).
    rewrite <- (parse_number_pretty z rest Hend). rewrite Heq, app_cons.
    by apply parse_value_number.
  - destruct fuel as [|fuel]; [cbn in Hfuel; lia|]. apply parse_value_literal.
  - destruct fuel as [|fuel]; [cbn in Hfuel; lia|]. cbn [stringify json_norm].
    rewrite quote_app, parse_value_quote. by rewrite parse_chars_quote_body.
  - destruct fuel as [|fuel]; [cbn in Hfuel; lia|].
    destruct items as [|x xs]; [reflexivity|].
    rewrite stringify_arr, !app_assoc_str, app_cons, parse_value_bracket.
    change (EmptyString +:+ ?s) with s.
    rewrite skip_ws_nl, skip_ws_value.
    destruct (stringify_head (S n) x) as (c & r & Heq & _ & Hc).
    rewrite (parse_elements_items (S n) n rest xs x [] fuel IH Hdist Hfuel).
    rewrite Heq, app_cons.
    destruct c as [[] [] [] [] [] [] [] []]; done.
  - destruct fuel as [|fuel]; [cbn in Hfuel; lia|].
    destruct fields as [|[k x] ps]; [reflexivity|].
    rewrite stringify_obj, !app_assoc_str, app_cons, parse_value_brace.
    change (EmptyString +:+ ?s) with s.
    rewrite skip_ws_nl, quote_app. cbn [skip_ws].
    change (is_json_ws dquote) with false. cbv iota.
    rewrite <- quote_app.
    rewrite distinct_keys_obj in Hdist. apply andb_true_iff in Hdist as [Hnodup Hdist].
    apply nodup_keys_NoDup in Hnodup.
    by rewrite (parse_members_fields (S n) n rest ps k x [] fuel IH Hnodup Hdist Hfuel).
Qed.

(** *** The fuel of [JSON_parse] suffices *)

Lemma length_nl_indent n : String.length (nl_indent n) = S (String.length (spaces (2 * n))).
Proof. reflexivity. Qed.

Lemma parse_cost_length v : forall n, (parse_cost v <= String.length (stringify n v))%nat.
Proof.
  induction v as [|b|z| |s|items IH|fields IH] using jsval_nested_ind; intros n.
  - cbn; lia.
  - destruct b; cbn; lia.
  - cbn [stringify parse_cost]. destruct (pretty_Z_head z) as (c & r & -> & _).
    cbn [String.length]. lia.
  - cbn; lia.
  - cbn [stringify parse_cost quote String.length]. lia.
  - destruct items as [|x xs]; [cbn; lia|].
    rewrite stringify_arr, !length_app_str, !length_nl_indent.
    apply Forall_cons in IH as [Hx IH]. specialize (Hx (S n)).
    cbn [parse_cost fold_right].
    assert (fold_right (fun x acc => S (parse_cost x + acc)) O xs
            <= String.length (stringify_items (S n) xs))%nat.
    { induction IH as [|y l Hy _ IHl]; [cbn; lia|].
      cbn [fold_right stringify_items]. rewrite !length_app_str, length_nl_indent.
      specialize (Hy (S n)). lia. }
    lia.
  - destruct fields as [|[k x] ps]; [cbn; lia|].
    rewrite stringify_obj, !length_app_str, !length_nl_indent.
    apply Forall_cons in IH as [Hx IH]. cbn [snd] in Hx. specialize (Hx (S n)).
    cbn [parse_cost fold_right snd].
    assert (fold_right (fun kv acc => S (parse_cost (snd kv) + acc)) O ps
            <= String.length (stringify_fields (S n) ps))%nat.
    { induction IH as [|[k' y] l Hy _ IHl]; [cbn; lia|].
      cbn [fold_right stringify_fields snd].
      rewrite !length_app_str, length_nl_indent. cbn [snd] in Hy.
      specialize (Hy (S n)). lia. }
    lia.
Qed.

Lemma app_empty_r s : s +:+ EmptyString = s.
Proof. induction s as [|c s IH]; [done|]. by rewrite app_cons, IH. Qed.

(** [JSON.parse(JSON.stringify(v))] succeeds on every value of the model and
    gives [json_norm v]. *)
Lemma JSON_clone v :
  distinct_keys v = true -> JSON_parse (JSON_stringify v) = Some (json_norm v).
Proof.
  intros Hdist. unfold JSON_parse, JSON_stringify.
  rewrite <- (app_empty_r (stringify 0%nat v)) at 2.
  rewrite (stringify_reads_back v 0%nat EmptyString); [done|done|done|].
  pose proof (parse_cost_length v 0%nat). lia.
Qed.

(** ** An instance whose tasks are all completed *)

(** A visitor that leaves the tasks of status [c] and the scan state alone
    leaves a mapping whose tasks all have status [c] as it is. *)
Section ScanAlone.
Context {S : Type}.
Variable callback : S -> path -> jsval -> string -> S * jsval * bool.
Variable c : string.
Hypothesis callback_alone : forall s p task name,
  str_is (status_of task) c = true -> callback s p task name = (s, task, true).

Lemma scan_leaves_alone deep : forall tasks here s,
  every_task c tasks = true ->
  scanAllTasks callback deep here tasks s = (s, tasks, true).
Proof.
  intros tasks. induction tasks as [v Hv|entries IH] using tasks_ind;
    intros here s Hall.
  { by destruct v. }
  rewrite scanAllTasks_entries.
  cut (forall l, (forall n fields children,
                     In (n, JObj fields) l ->
                     lookup_prop "tasks" fields = Some children ->
                     In (n, JObj fields) entries) ->
          every_task c (JObj l) = true ->
          scan_entries callback deep here l s = (s, l, true)).
  { intros Hcut. by rewrite Hcut. }
  clear Hall. induction l as [|[n task] l IHl]; intros Hsub Hall; [done|].
  assert (IHl' := IHl (fun n f c Hin Hl => Hsub n f c (or_intror Hin) Hl)).
  cbn [every_task forallb] in Hall. apply andb_true_iff in Hall as [Htask Hrest].
  destruct task as [| | | | | |fields];
    try (cbn [scan_entries]; by rewrite IHl').
  cbn [scan_entries].
  apply andb_true_iff in Htask as [Hst Hch]. rewrite on_prop_lookup in Hch.
  rewrite callback_alone by exact Hst.
  cbn [negb].
  destruct deep.
  - destruct (lookup_prop "tasks" fields) as [children|] eqn:Hlook.
    + rewrite (IH n fields children (Hsub n fields children (or_introl eq_refl) Hlook) Hlook)
        by done.
      cbv beta iota zeta. cbn [negb].
      replace (if is_object children then set_prop (JObj fields) "tasks" children
               else JObj fields) with (JObj fields)
        by (destruct (is_object children); [symmetry; by apply set_same|done]).
      by rewrite IHl'.
    + cbn [negb]. by rewrite IHl'.
  - cbn [negb]. by rewrite IHl'.
Qed.
End ScanAlone.

(** No task of the mapping has status [status], so the dictionary of
    [getTasksByStatus] stays as it was. *)
Lemma dict_scan_finds_nothing status c deep :
  status <> c ->
  forall tasks here (dict : list (string * path)),
    every_task c tasks = true ->
    scanAllTasks
      (fun openTasks p task name =>
         ((if str_is (status_of task) status
           then dict_set name p openTasks else openTasks), task, true))
      deep here tasks dict
    = (dict, tasks, true).
Proof.
  intros Hne tasks here dict Hall. apply (scan_leaves_alone _ c); [|done].
  intros s p task name Hst%str_is_eq. rewrite Hst.
  by replace (str_is (Some (JStr c)) status) with false
    by (symmetry; apply String.eqb_neq; congruence).
Qed.

Lemma getTasksByStatus_none parent tasks status c deep :
  status <> c ->
  get_prop parent "tasks" = Some tasks ->
  every_task c tasks = true ->
  getTasksByStatus parent status deep = [].
Proof.
  intros Hne Ht Hall. unfold getTasksByStatus. rewrite Ht.
  by rewrite (dict_scan_finds_nothing status c deep Hne).
Qed.

Lemma open_visit_completed clock tick p task name :
  str_is (status_of task) "completed" = true ->
  open_visit clock tick p task name = (tick, task, true).
Proof.
  intros Hst%str_is_eq. destruct task; try done. unfold open_visit. by rewrite Hst.
Qed.

(** [openTasks] leaves a mapping whose tasks are all completed as it is, and
    does not read the clock. *)
Lemma openTasks_all_completed clock tasks tick :
  every_task "completed" tasks = true ->
  openTasks clock tasks tick = (tick, tasks).
Proof.
  intros Hall. rewrite openTasks_unfold. destruct (negb (truthy (Some tasks))); [done|].
  destruct tasks as [| | | | | |entries]; try done.
  rewrite scanAllTasks_entries.
  cut (scan_entries (open_visit clock) false [] entries tick = (tick, entries, true)).
  { by intros ->. }
  induction entries as [|[n task] l IHl]; [done|].
  cbn [every_task forallb] in Hall. apply andb_true_iff in Hall as [Htask Hrest].
  destruct task as [| | | | | |fields];
    try (cbn [scan_entries]; by rewrite IHl).
  cbn [scan_entries]. apply andb_true_iff in Htask as [Hst _].
  rewrite open_visit_completed by done. cbn [negb]. by rewrite IHl.
Qed.

(** ** What the clone keeps *)

Lemma lookup_norm k fields :
  lookup_prop k (map (fun kv => (fst kv, json_norm (snd kv))) fields)
  = option_map json_norm (lookup_prop k fields).
Proof.
  induction fields as [|[k' v] fields IH]; [done|]. cbn [map fst snd lookup_prop].
  by destruct (String.eqb k k').
Qed.

Lemma get_prop_norm v k : get_prop (json_norm v) k = option_map json_norm (get_prop v k).
Proof. destruct v; try done. apply lookup_norm. Qed.

Lemma truthy_norm o : truthy (option_map json_norm o) = truthy o.
Proof. by destruct o as [[]|]. Qed.

Lemma str_is_norm o s : str_is (option_map json_norm o) s = str_is o s.
Proof. by destruct o as [[]|]. Qed.

Lemma is_object_norm v : is_object (json_norm v) = is_object v.
Proof. by destruct v. Qed.

Lemma some_task_norm tasks : some_task (json_norm tasks) = some_task tasks.
Proof.
  destruct tasks as [| | | | | |entries]; try done. cbn [json_norm some_task].
  induction entries as [|[n t] entries IH]; [done|]. cbn [map existsb fst snd].
  by rewrite is_object_norm, IH.
Qed.

Lemma every_task_norm c tasks : every_task c (json_norm tasks) = every_task c tasks.
Proof.
  induction tasks as [v Hv|entries IH] using tasks_ind; [by destruct v|].
  cbn [json_norm every_task].
  cut (forall l, (forall n fields children,
                     In (n, JObj fields) l ->
                     lookup_prop "tasks" fields = Some children ->
                     In (n, JObj fields) entries) ->
          every_task c (JObj (map (fun kv => (fst kv, json_norm (snd kv))) l))
          = every_task c (JObj l)).
  { intros Hcut. by apply Hcut. }
  induction l as [|[n task] l IHl]; intros Hsub; [done|].
  assert (IHl' := IHl (fun n f c Hin Hl => Hsub n f c (or_intror Hin) Hl)).
  cbn [every_task] in IHl'. cbn [every_task map forallb fst snd]. rewrite IHl'.
  f_equal. destruct task as [| | | | | |fields]; try done.
  cbn [json_norm]. rewrite !on_prop_lookup, !lookup_norm, str_is_norm. f_equal.
  destruct (lookup_prop "tasks" fields) as [children|] eqn:Hlook; [|done].
  cbn [option_map]. by apply (IH n fields children (Hsub n fields children (or_introl eq_refl) Hlook)).
Qed.

(** ** Distinct keys *)

Lemma existsb_assign_ne k k' v ps :
  k <> k' ->
  existsb (String.eqb k') (map fst (assign_prop k v ps))
  = existsb (String.eqb k') (map fst ps).
Proof.
  intros Hne. induction ps as [|[k0 v0] ps IH]; cbn [assign_prop map fst existsb].
  - replace (String.eqb k' k) with false; [done|].
    symmetry. apply String.eqb_neq. congruence.
  - destruct (String.eqb k k0) eqn:E; cbn [map fst existsb].
    + apply String.eqb_eq in E. by subst k0.
    + by rewrite IH.
Qed.

Lemma nodup_keys_assign k v ps :
  nodup_keys (map fst ps) = true -> nodup_keys (map fst (assign_prop k v ps)) = true.
Proof.
  induction ps as [|[k0 v0] ps IH]; [done|]. cbn [assign_prop map fst nodup_keys].
  intros [Hk Hps]%andb_true_iff.
  destruct (String.eqb k k0) eqn:E; cbn [map fst nodup_keys].
  - apply String.eqb_eq in E. subst k0. by rewrite Hk, Hps.
  - apply String.eqb_neq in E. rewrite existsb_assign_ne by done.
    by rewrite Hk, IH.
Qed.

Lemma distinct_keys_set w k v :
  distinct_keys w = true -> distinct_keys v = true ->
  distinct_keys (set_prop w k v) = true.
Proof.
  destruct w as [| | | | | |fields]; try done. cbn [set_prop].
  rewrite !distinct_keys_obj. intros [Hk Hall]%andb_true_iff Hv.
  rewrite nodup_keys_assign by done. cbn [andb].
  clear Hk. induction fields as [|[k0 v0] fields IH]; cbn [assign_prop forallb snd].
  - by rewrite Hv.
  - cbn [forallb snd] in Hall. apply andb_true_iff in Hall as [H0 Hall].
    destruct (String.eqb k k0); cbn [forallb snd].
    + by rewrite Hv, Hall.
    + by rewrite H0, IH.
Qed.

Lemma distinct_keys_env (env : list (string * string)) :
  nodup_keys (map fst env) = true ->
  distinct_keys (JObj (map (fun kv => (fst kv, JStr (snd kv))) env)) = true.
Proof.
  intros Hk. rewrite distinct_keys_obj.
  replace (map fst (map (fun kv : string * string => (fst kv, JStr (snd kv))) env))
    with (map fst env) by (by rewrite map_map).
  rewrite Hk. cbn [andb]. clear Hk.
  induction env as [|[k v] env IH]; [done|]. cbn [map forallb snd]. apply IH.
Qed.

(** ** Validation of an instance whose tasks are all completed *)

Section Validation.
Variable process_env : list (string * string).
Variable uuidv4 : string.

Lemma validateWorkflow_reopened w tasks :
  distinct_keys w = true ->
  nodup_keys (map fst process_env) = true ->
  get_prop w "tasks" = Some tasks ->
  some_task tasks = true ->
  every_task "completed" tasks = true ->
  truthy (get_prop w "id") = true ->
  validateWorkflow uuidv4 (addEnvVars process_env w) = Some (reopened process_env w).
Proof.
  intros Hdist Henv Ht Hsome Hall Hid. unfold validateWorkflow.
  rewrite JSON_clone
    by (unfold addEnvVars; apply distinct_keys_set; [done|by apply distinct_keys_env]).
  fold (reopened process_env w).
  assert (Htasks : get_prop (reopened process_env w) "tasks" = Some (json_norm tasks)).
  { unfold reopened, addEnvVars.
    rewrite get_set_ne, get_prop_norm, get_set_ne by done. by rewrite Ht. }
  assert (Hwait : setTaskStatusWaiting (json_norm (addEnvVars process_env w))
                  = reopened process_env w).
  { unfold setTaskStatusWaiting. fold (reopened process_env w). rewrite Htasks.
    assert (truthy (Some (json_norm tasks)) = true) as ->
        by (destruct tasks; done).
    cbn [negb].
    rewrite (scan_leaves_alone _ "completed").
    - cbn [fst snd]. by apply set_same.
    - intros [] p task name Hst. apply str_is_eq in Hst. rewrite Hst.
      cbn [truthy]. reflexivity.
    - by rewrite every_task_norm. }
  rewrite Hwait.
  assert (truthy (get_prop (reopened process_env w) "id") = true) as ->; [|done].
  unfold reopened, addEnvVars.
  rewrite get_set_ne, get_prop_norm, get_set_ne by done. by rewrite truthy_norm.
Qed.
End Validation.

Lemma file_save_succeeds (st : FileStore.t) now workflow id :
  get_prop workflow "id" = Some (JStr id) ->
  saveInstance st now workflow
  = (fst (fst (FileStore.saveInstance st now workflow)), workflow, None).
Proof. intros Hid. cbn. unfold FileStore.saveInstance. by rewrite Hid. Qed.

Section Resume.
Variable clock : nat -> Z.
Variable js_minus : option jsval -> option jsval -> jsval.
Variable import : string -> module.
Variable process_env : list (string * string).
Variable uuidv4 : string.

Lemma executePrePost_absent workflow taskName tick invoked :
  truthy (get_prop workflow taskName) = false ->
  executePrePost clock js_minus import workflow taskName tick invoked
  = inr (tick, workflow, invoked).
Proof.
  intros Hno. unfold executePrePost.
  destruct (get_prop workflow taskName) as [task|]; [|done]. by rewrite Hno.
Qed.

(** The pass over a validated clone [v] whose tasks are all completed. *)
Lemma resume_after_validation fuel (st : FileStore.t) tick w v tasks id :
  is_object w = true ->
  validateWorkflow uuidv4 (addEnvVars process_env w) = Some v ->
  get_prop v "tasks" = Some tasks ->
  some_task tasks = true ->
  every_task "completed" tasks = true ->
  truthy (get_prop v "pre workflow") = false ->
  truthy (get_prop v "post workflow") = false ->
  get_prop v "id" = Some (JStr id) ->
  outcome (execute clock js_minus import process_env uuidv4 (S fuel) st tick w)
  = Some (Run ExitIdle
            (save_all st [(clock tick, v);
                          (clock (S tick), set_prop v "status" (JStr "completed"))])
            (S (S tick)) None (set_prop v "status" (JStr "completed")) []).
Proof.
  intros Hobj Hv Ht Hsome Hall Hpre Hpost Hid.
  unfold execute. rewrite Hobj, Hv. cbn [negb outcome]. unfold doPre, doPost.
  rewrite executePrePost_absent by done.
  cbn [realExecute]. rewrite (file_save_succeeds st (clock tick) v id Hid).
  rewrite (getTasksByStatus_none v tasks "paused" "completed" true) by done.
  assert (Hnext : openNextAvailableTask clock v (S tick) = (S tick, v)).
  { unfold openNextAvailableTask. rewrite Ht.
    assert (truthy (Some tasks) = true) as -> by (by destruct tasks).
    rewrite openTasks_all_completed by done. by rewrite set_same. }
  rewrite Hnext.
  rewrite (getTasksByStatus_none v tasks "open" "completed" true) by done.
  cbn [fold_left].
  assert (Hdone : childHasStatus v "completed" true = true).
  { by rewrite childHasStatus_all, Ht, Hsome, Hall. }
  rewrite Hdone.
  rewrite (file_save_succeeds _ (clock (S tick)) (set_prop v "status" (JStr "completed")) id)
    by (by rewrite get_set_ne).
  cbn [run_err run_instance run_tick run_invoked run_store run_exit].
  rewrite executePrePost_absent by (by rewrite get_set_ne).
  reflexivity.
Qed.

Lemma get_prop_reopened w k :
  k <> "status" -> k <> "environment" ->
  get_prop (reopened process_env w) k = option_map json_norm (get_prop w k).
Proof.
  intros Hs He. unfold reopened, addEnvVars.
  by rewrite get_set_ne, get_prop_norm, get_set_ne by done.
Qed.

(** C4, as amended.  Executing, on the file backend, an instance whose id
    is a plain file name and that has at least one task, whose tasks are
    plain objects (no array standing for a task or a mapping), every one of
    them at every depth [completed], and which has no pre or post hook: no
    handler is called, the
    instance handed back is the JSON clone of the input with its
    environment and status [completed], its task tree the clone of the
    input's; but the run is not a no-op for the store, which receives the
    two saves of the pass, at save point a with status [open] and at save
    point c with status [completed]. *)
Theorem resume_of_a_completed_instance fuel (st : FileStore.t) tick w tasks id :
  distinct_keys w = true ->
  nodup_keys (map fst process_env) = true ->
  get_prop w "tasks" = Some tasks ->
  some_task tasks = true ->
  every_task "completed" tasks = true ->
  plain_mapping tasks = true ->
  truthy (get_prop w "pre workflow") = false ->
  truthy (get_prop w "post workflow") = false ->
  get_prop w "id" = Some (JStr id) ->
  plain_id id = true ->
  outcome (execute clock js_minus import process_env uuidv4 (S fuel) st tick w)
  = Some (Run ExitIdle
            (save_all st
               [(clock tick, reopened process_env w);
                (clock (S tick),
                 set_prop (reopened process_env w) "status" (JStr "completed"))])
            (S (S tick)) None
            (set_prop (reopened process_env w) "status" (JStr "completed")) [])
  /\ get_prop (set_prop (reopened process_env w) "status" (JStr "completed")) "tasks"
     = Some (json_norm tasks).
Proof.
  intros Hdist Henv Ht Hsome Hall _ Hpre Hpost Hid Hplain.
  assert (Hidt : truthy (get_prop w "id") = true).
  { rewrite Hid. cbn [truthy]. unfold plain_id in Hplain.
    by apply andb_true_iff in Hplain as [[Hne _]%andb_true_iff _]. }
  assert (Htasks : get_prop (reopened process_env w) "tasks" = Some (json_norm tasks))
    by (by rewrite get_prop_reopened, Ht).
  split; [|by rewrite get_set_ne].
  apply (resume_after_validation fuel st tick w (reopened process_env w)
           (json_norm tasks) id).
  - by destruct w.
  - by apply (validateWorkflow_reopened process_env uuidv4 w tasks).
  - exact Htasks.
  - by rewrite some_task_norm.
  - by rewrite every_task_norm.
  - by rewrite get_prop_reopened, truthy_norm.
  - by rewrite get_prop_reopened, truthy_norm.
  - by rewrite get_prop_reopened, Hid.
Qed.
End Resume.

(** C4, the claim as stated fails.  The claim: executing an instance whose
    every task is completed writes no new historical record.  The store that
    scenario 1 leaves holds two historical records of the instance; executing
    the completed instance again leaves four. *)
Lemma resume_of_a_completed_instance_writes_history :
  every_task "completed"
    (match get_prop instance_after_A "tasks" with Some tasks => tasks | None => JNull end)
  = true
  /\ FileStore.history_count store_after_A demo_uuid = 2%nat
  /\ FileStore.history_count
       (store_after (demo_execute store_after_A 6 instance_after_A)) demo_uuid
     = 4%nat.
Proof. repeat split; vm_compute; reflexivity. Qed.

Lemma resume_of_a_completed_instance_witness :
  outcome (demo_execute store_after_A 6 instance_after_A)
  = Some (Run ExitIdle
            (save_all store_after_A
               [(demo_clock 6, reopened demo_env instance_after_A);
                (demo_clock 7,
                 set_prop (reopened demo_env instance_after_A) "status"
                   (JStr "completed"))])
            8 None
            (set_prop (reopened demo_env instance_after_A) "status" (JStr "completed"))
            [])
  /\ get_prop (set_prop (reopened demo_env instance_after_A) "status"
                (JStr "completed")) "tasks"
     = Some (json_norm (JObj [("t1", match read_path ["tasks"; "t1"] instance_after_A with
                                     | Some t => t | None => JNull end)])).
Proof.
  apply (resume_of_a_completed_instance demo_clock demo_minus demo_import demo_env
           demo_uuid 15 store_after_A 6 instance_after_A
           (JObj [("t1", match read_path ["tasks"; "t1"] instance_after_A with
                         | Some t => t | None => JNull end)])
           demo_uuid);
    vm_compute; reflexivity.
Defined.
(** ** [executeTask]: what happens after the handler has reported *)

Section ExecuteTaskOutcomes.
Variable clock : nat -> Z.
Variable js_minus : option jsval -> option jsval -> jsval.
Variable import : string -> module.

(** [executeTask] on a task whose gate is open and whose handler loads:
    the handler is called on the started task and the rest works on what
    it reports. *)
Lemma executeTask_invoked wid name t tick h f err t' :
  skip_of t = false ->
  get_prop t "handler" = Some h ->
  import (js_String h) = DefaultExport f ->
  f wid name (started clock t tick) = (err, t') ->
  executeTask clock js_minus import wid name t tick
  = let '(err, returnedTask) :=
      match err with
      | Some e =>
          let r2 := set_prop (set_prop t' "errorMsg" (JStr (message_of e)))
                      "status" (JStr "error") in
          if is_true (get_prop r2 "ignoreError")
          then (None, set_prop r2 "status" (JStr "executing"))
          else (Some e, r2)
      | None => (None, t')
      end in
    let '(tick1, returnedTask) :=
      complete_if_executing clock js_minus returnedTask (S tick) in
    let '(tick2, returnedTask) :=
      if str_is (status_of returnedTask) "paused" then
        (S tick1,
         set_prop returnedTask "handlerDuration"
           (js_minus (Some (JNum (clock tick1))) (get_prop returnedTask "timeStarted")))
      else (tick1, returnedTask) in
    Executed tick2 err returnedTask true.
Proof.
  intros Hskip Hh Himp Hf. unfold executeTask.
  rewrite skip_of_timeStarted, Hskip. cbv zeta. simpl negb. cbv iota.
  rewrite get_set_ne by done. rewrite get_set_ne by done. rewrite Hh, Himp.
  fold (started clock t tick). rewrite Hf. by destruct err.
Qed.

(** X1.  A handler that reports an error [e], on a task whose
    [ignoreError] is not [true]: the task is handed back with
    [errorMsg = e.message] and [status = "error"], nothing else is written
    on it (no [timeCompleted], no duration), the error is passed on, and the
    clock has been read once, for [timeStarted]. *)
Theorem handler_error_marks_the_task wid name t tick h f e t' :
  skip_of t = false ->
  get_prop t "handler" = Some h ->
  import (js_String h) = DefaultExport f ->
  f wid name (started clock t tick) = (Some e, t') ->
  is_object t' = true ->
  is_true (get_prop t' "ignoreError") = false ->
  executeTask clock js_minus import wid name t tick
  = Executed (S tick) (Some e)
      (set_prop (set_prop t' "errorMsg" (JStr (message_of e))) "status" (JStr "error"))
      true.
Proof.
  intros Hskip Hh Himp Hf Hobj Hign.
  rewrite (executeTask_invoked wid name t tick h f (Some e) t') by done.
  cbv zeta. props. rewrite Hign.
  unfold complete_if_executing, status_of. props.
  change (str_is (Some (JStr "error")) "executing") with false. cbv iota.
  props. by change (str_is (Some (JStr "error")) "paused") with false.
Qed.

(** X2.  A task whose gate is open and whose handler module does not load,
    or loads without a default function: no handler runs although the task
    carries [handlerExecuted = true]; the task is handed back with the
    loader's message as [errorMsg] and [status = "error"], and the error
    reported is that message behind [Missing module or unexpected error! ]. *)
Theorem unloadable_handler_marks_the_task wid name t tick h failed :
  skip_of t = false ->
  get_prop t "handler" = Some h ->
  import (js_String h) = failed ->
  (forall f, failed <> DefaultExport f) ->
  let msg := match failed with
             | ImportFails m => m
             | _ => "Handler module must export a default function"
             end in
  executeTask clock js_minus import wid name t tick
  = Executed (S tick) (Some (Error ("Missing module or unexpected error! " +:+ msg)))
      (set_prop (set_prop (started clock t tick) "errorMsg" (JStr msg))
         "status" (JStr "error"))
      false.
Proof.
  intros Hskip Hh Himp Hfail msg. subst msg. unfold executeTask.
  rewrite skip_of_timeStarted, Hskip. cbv zeta. simpl negb. cbv iota.
  rewrite get_set_ne by done. rewrite get_set_ne by done. rewrite Hh, Himp.
  fold (started clock t tick).
  destruct failed as [m| |f]; [done|done|]. by destruct (Hfail f).
Qed.

(** X3.  A handler that reports no error and hands the task back with
    status [paused]: the task stays [paused], [handlerDuration] is the
    time since [timeStarted] at a second reading of the clock, and neither
    [status] nor [timeCompleted] nor [totalDuration] is written. *)
Theorem paused_handler_leaves_the_task_paused wid name t tick h f t' :
  skip_of t = false ->
  get_prop t "handler" = Some h ->
  import (js_String h) = DefaultExport f ->
  f wid name (started clock t tick) = (None, t') ->
  str_is (status_of t') "paused" = true ->
  executeTask clock js_minus import wid name t tick
  = Executed (S (S tick)) None
      (set_prop t' "handlerDuration"
         (js_minus (Some (JNum (clock (S tick)))) (get_prop t' "timeStarted")))
      true.
Proof.
  intros Hskip Hh Himp Hf Hst.
  rewrite (executeTask_invoked wid name t tick h f None t') by done.
  cbv zeta. unfold complete_if_executing.
  apply str_is_eq in Hst. unfold status_of in *. rewrite Hst.
  change (str_is (Some (JStr "paused")) "executing") with false. cbv iota.
  rewrite Hst. by change (str_is (Some (JStr "paused")) "paused") with true.
Qed.

(** X4.  A handler that reports no error and leaves the status
    [executing]: the task ends [completed]; [timeCompleted] is the second
    reading of the clock, [handlerDuration] is counted from [timeStarted]
    and [totalDuration] from [timeOpened] as the handler handed them back;
    every other property is as the handler left it. *)
Theorem successful_handler_completes_the_task wid name t tick h f t' :
  skip_of t = false ->
  get_prop t "handler" = Some h ->
  import (js_String h) = DefaultExport f ->
  f wid name (started clock t tick) = (None, t') ->
  str_is (status_of t') "executing" = true ->
  let r := executeTask clock js_minus import wid name t tick in
  ex_err r = None /\ ex_invoked r = true /\ ex_tick r = S (S tick)
  /\ get_prop (ex_task r) "status" = Some (JStr "completed")
  /\ get_prop (ex_task r) "timeCompleted" = Some (JNum (clock (S tick)))
  /\ get_prop (ex_task r) "handlerDuration"
     = Some (js_minus (Some (JNum (clock (S tick)))) (get_prop t' "timeStarted"))
  /\ get_prop (ex_task r) "totalDuration"
     = Some (js_minus (Some (JNum (clock (S tick)))) (get_prop t' "timeOpened"))
  /\ (forall k, k <> "status" -> k <> "timeCompleted" -> k <> "handlerDuration" ->
                k <> "totalDuration" -> get_prop (ex_task r) k = get_prop t' k).
Proof.
  intros Hskip Hh Himp Hf Hst r. subst r.
  rewrite (executeTask_invoked wid name t tick h f None t') by done.
  cbv zeta. unfold complete_if_executing. rewrite Hst.
  assert (Hobj : is_object t' = true).
  { apply str_is_eq in Hst. by destruct t'. }
  unfold status_of. props.
  change (str_is (Some (JStr "completed")) "paused") with false. cbv iota.
  cbn [ex_err ex_invoked ex_tick ex_task]. props.
  repeat split; try done. intros k H1 H2 H3 H4. by rewrite !get_set_ne by done.
Qed.
End ExecuteTaskOutcomes.

Lemma handler_error_marks_the_task_witness :
  executeTask demo_clock demo_minus demo_import None "t1"
    (test_task [("error", JBool true)]) 2
  = Executed 3 (Some (Error "Task [t1] is raising a deliberate error"))
      (set_prop
         (set_prop (started demo_clock (test_task [("error", JBool true)]) 2)
            "errorMsg" (JStr "Task [t1] is raising a deliberate error"))
         "status" (JStr "error"))
      true.
Proof.
  apply (handler_error_marks_the_task demo_clock demo_minus demo_import None "t1"
           (test_task [("error", JBool true)]) 2 (JStr "test") testHandler
           (Error "Task [t1] is raising a deliberate error")
           (started demo_clock (test_task [("error", JBool true)]) 2));
    reflexivity.
Defined.

Lemma unloadable_handler_marks_the_task_witness :
  executeTask demo_clock demo_minus demo_import None "t1" lost_task 2
  = Executed 3
      (Some (Error "Missing module or unexpected error! Cannot find package 'nowhere'"))
      (set_prop (set_prop (started demo_clock lost_task 2) "errorMsg"
                   (JStr "Cannot find package 'nowhere'"))
         "status" (JStr "error"))
      false.
Proof.
  apply (unloadable_handler_marks_the_task demo_clock demo_minus demo_import None "t1"
           lost_task 2 (JStr "nowhere") (ImportFails "Cannot find package 'nowhere'"));
    [reflexivity | reflexivity | reflexivity | discriminate].
Defined.

Lemma paused_handler_leaves_the_task_paused_witness :
  executeTask demo_clock demo_minus demo_import None "t1"
    (test_task [("paused", JBool true)]) 2
  = Executed 4 None
      (set_prop
         (set_prop (started demo_clock (test_task [("paused", JBool true)]) 2)
            "status" (JStr "paused"))
         "handlerDuration" (JNum 1))
      true.
Proof.
  apply (paused_handler_leaves_the_task_paused demo_clock demo_minus demo_import None
           "t1" (test_task [("paused", JBool true)]) 2 (JStr "test") testHandler
           (set_prop (started demo_clock (test_task [("paused", JBool true)]) 2)
              "status" (JStr "paused")));
    reflexivity.
Defined.

Lemma successful_handler_completes_the_task_witness :
  get_prop (ex_task (executeTask demo_clock demo_minus demo_import None "t1"
                       (test_task []) 2)) "status"
  = Some (JStr "completed")
  /\ get_prop (ex_task (executeTask demo_clock demo_minus demo_import None "t1"
                          (test_task []) 2)) "totalDuration"
     = Some (JNum 2).
Proof.
  pose proof (successful_handler_completes_the_task demo_clock demo_minus demo_import
                None "t1" (test_task []) 2 (JStr "test") testHandler
                (started demo_clock (test_task []) 2)
                eq_refl eq_refl eq_refl eq_refl eq_refl)
    as (_ & _ & _ & Hst & _ & _ & Htotal & _).
  split; [exact Hst | exact Htotal].
Defined.

(** ** [setConditionValues] *)








(** ** [setTaskStatusWaiting] and [validateWorkflow] *)


(** A visitor that leaves alone the tasks that satisfy [P], and the scan
    state, leaves a tree as it is when all its tasks satisfy [P]. *)
Section ScanAlonePredicate.
Context {S : Type}.
Variable callback : S -> path -> jsval -> string -> S * jsval * bool.
Variable P : jsval -> bool.
Hypothesis callback_alone : forall s p task name,
  P task = true -> callback s p task name = (s, task, true).

End ScanAlonePredicate.




Section ValidateWorkflow.
Variable uuidv4 : string.

End ValidateWorkflow.



(** ** The file backend: saving, loading, deleting *)

Section FileRoundTrip.
Variables (dir id : string).
Let current := FileStore.join dir id.
Let hist (t : Z) : string := current +:+ "_" +:+ pretty t.

(** Loading without rewinding, or with nothing to rewind into, reads the
    current record. *)
Lemma load_current_record (st : FileStore.t) rewind w :
  FileStore.dataDirectory st = dir ->
  FileStore.files st !! current = Some (JSON_stringify w) ->
  distinct_keys w = true ->
  (rewind <= 0 \/ FileStore.glob_history current (FileStore.files st) = ∅) ->
  FileStore.loadInstance st id rewind = inr (json_norm w).
Proof.
  intros Hdir Hcur Hdist Hwhich. unfold FileStore.loadInstance. rewrite Hdir.
  fold current. cbv zeta.
  destruct Hwhich as [Hle | Hempty].
  - replace (0 <? rewind) with false by (symmetry; apply Z.ltb_ge; lia).
    rewrite andb_false_r. cbv iota. rewrite Hcur. by rewrite JSON_clone.
  - rewrite Hempty, map_to_list_empty. cbn [map merge_sort List.length Z.of_nat].
    change (merge_sort String.le []) with (@nil string).
    match goal with
    | |- context [((0 <? ?n) && ?b)%bool] =>
        replace ((0 <? n) && b)%bool with false by done
    end. cbv iota.
    rewrite Hcur. by rewrite JSON_clone.
Qed.

Lemma saveInstance_files (st : FileStore.t) now w :
  FileStore.dataDirectory st = dir ->
  get_prop w "id" = Some (JStr id) ->
  fst (fst (FileStore.saveInstance st now w))
  = FileStore.Make dir
      (<[current := JSON_stringify w]>
         match FileStore.files st !! current with
         | Some contents => <[hist now := contents]> (delete current (FileStore.files st))
         | None => FileStore.files st
         end).
Proof.
  intros Hdir Hid. unfold FileStore.saveInstance. by rewrite Hid, Hdir.
Qed.

(** The history of an instance saved twice into a directory that held no
    record of it: one file, the first save, archived under the reading of
    the second. *)
Lemma history_after_two_saves files t1 w1 t2 w2 :
  files !! current = None ->
  FileStore.glob_history current files = ∅ ->
  get_prop w1 "id" = Some (JStr id) ->
  get_prop w2 "id" = Some (JStr id) ->
  let st := saved_twice (FileStore.Make dir files) t1 w1 t2 w2 in
  FileStore.dataDirectory st = dir
  /\ FileStore.files st !! current = Some (JSON_stringify w2)
  /\ FileStore.glob_history current (FileStore.files st)
     = {[ hist t2 := JSON_stringify w1 ]}.
Proof.
  intros Hnone Hempty Hid1 Hid2. unfold saved_twice, save_all. cbn [fold_left fst snd].
  rewrite (saveInstance_files (FileStore.Make dir files) t1 w1) by done.
  cbn [FileStore.files]. rewrite Hnone.
  rewrite saveInstance_files by done. cbn [FileStore.files FileStore.dataDirectory].
  rewrite !lookup_insert_eq.
  assert (Hne : hist t2 <> current) by apply hist_ne_current.
  pose proof (current_not_history dir id) as Hcn. fold current in Hcn.
  pose proof (hist_is_history dir id t2) as Hh. fold current in Hh. fold (hist t2) in Hh.
  split; [done|]. split; [done|].
  cbn [FileStore.files].
  - unfold FileStore.glob_history in *.
    rewrite map_filter_insert_False by (cbn [fst]; by rewrite Hcn).
    rewrite delete_insert_ne by done.
    rewrite map_filter_insert_True by (cbn [fst]; exact Hh).
    rewrite delete_insert_eq, !map_filter_delete, Hempty.
    by rewrite !delete_empty.
Qed.
(** X8.  What [saveInstance] writes, [loadInstance] reads back: after a
    save of a workflow whose id is a plain file name, loading that id
    without rewinding yields the JSON clone of the workflow, whatever files
    the directory held. *)
Theorem saved_instance_loads_back (st : FileStore.t) now w rewind :
  plain_id id = true ->
  FileStore.dataDirectory st = dir ->
  get_prop w "id" = Some (JStr id) ->
  distinct_keys w = true ->
  rewind <= 0 ->
  FileStore.loadInstance (fst (fst (FileStore.saveInstance st now w))) id rewind
  = inr (json_norm w).
Proof.
  intros _ Hdir Hid Hdist Hrewind. rewrite saveInstance_files by done.
  apply load_current_record; [done| |done|by left].
  cbn [FileStore.files]. by rewrite lookup_insert_eq.
Qed.

(** X9.  Rewinding on the file backend, for an id that is a plain file
    name.  In a directory that held no record of the instance: after the
    first save every rewind value loads that
    save, because there is no history to rewind into; after a second save,
    rewind 0 (or less) loads the second and every rewind from 1 upward loads
    the first. *)
Theorem rewind_reaches_the_previous_save files t1 w1 t2 w2 :
  plain_id id = true ->
  files !! current = None ->
  FileStore.glob_history current files = ∅ ->
  get_prop w1 "id" = Some (JStr id) ->
  get_prop w2 "id" = Some (JStr id) ->
  distinct_keys w1 = true ->
  distinct_keys w2 = true ->
  (forall rewind,
      FileStore.loadInstance
        (fst (fst (FileStore.saveInstance (FileStore.Make dir files) t1 w1))) id rewind
      = inr (json_norm w1))
  /\ (forall rewind, rewind <= 0 ->
        FileStore.loadInstance (saved_twice (FileStore.Make dir files) t1 w1 t2 w2)
          id rewind
        = inr (json_norm w2))
  /\ (forall rewind, 1 <= rewind ->
        FileStore.loadInstance (saved_twice (FileStore.Make dir files) t1 w1 t2 w2)
          id rewind
        = inr (json_norm w1)).
Proof.
  intros _ Hnone Hempty Hid1 Hid2 Hd1 Hd2.
  pose proof (current_not_history dir id) as Hcn. fold current in Hcn.
  destruct (history_after_two_saves files t1 w1 t2 w2 Hnone Hempty Hid1 Hid2)
    as (Hdir & Hcur & Hglob).
  split; [|split].
  - intros rewind. rewrite saveInstance_files by done.
    cbn [FileStore.files]. rewrite Hnone.
    apply load_current_record; [done| |done|right].
    + cbn [FileStore.files]. by rewrite lookup_insert_eq.
    + cbn [FileStore.files]. unfold FileStore.glob_history in *.
      rewrite map_filter_insert_False by (cbn [fst]; by rewrite Hcn).
      by rewrite delete_id.
  - intros rewind Hrewind. apply load_current_record; [done|done|done|by left].
  - intros rewind Hrewind.
    assert (Hfile : FileStore.files (saved_twice (FileStore.Make dir files) t1 w1 t2 w2)
                    !! hist t2 = Some (JSON_stringify w1)).
    { apply (map_lookup_filter_Some_1_1
               (fun kv => FileStore.is_history_of current (fst kv) = true)).
      fold (FileStore.glob_history current
              (FileStore.files (saved_twice (FileStore.Make dir files) t1 w1 t2 w2))).
      rewrite Hglob. apply lookup_singleton_eq. }
    unfold FileStore.loadInstance. rewrite Hdir. fold current. cbv zeta.
    rewrite Hglob, map_to_list_singleton. cbn [map fst].
    change (merge_sort String.le [hist t2]) with [hist t2].
    cbn [List.length]. change (Z.of_nat 1) with 1.
    replace (0 <? rewind) with true by (symmetry; apply Z.ltb_lt; lia).
    change (0 <? 1) with true. cbn [andb]. cbv iota.
    replace (if 1 <? rewind then 1 else rewind) with 1
      by (destruct (1 <? rewind) eqn:E; [done|apply Z.ltb_ge in E; lia]).
    change (Z.to_nat (if 0 <=? 1 - 1 then 1 - 1 else 0)) with O. cbn [nth].
    rewrite Hfile. by rewrite JSON_clone.
Qed.
End FileRoundTrip.

Lemma saved_instance_loads_back_witness :
  FileStore.loadInstance
    (fst (fst (FileStore.saveInstance store_after_A 1700000000010 instance_after_A)))
    demo_uuid 0
  = inr (json_norm instance_after_A).
Proof.
  apply (saved_instance_loads_back "_data" demo_uuid store_after_A 1700000000010
           instance_after_A 0);
    [reflexivity | reflexivity | reflexivity | vm_compute; reflexivity | lia].
Defined.

Lemma rewind_reaches_the_previous_save_witness :
  FileStore.loadInstance
    (saved_twice empty_dir 1700000000010 (set_prop scenario_A "id" (JStr "a"))
       1700000000011 instance_after_A_named) "a" 1
  = inr (json_norm (set_prop scenario_A "id" (JStr "a"))).
Proof.
  apply (rewind_reaches_the_previous_save "_data" "a" ∅ 1700000000010
           (set_prop scenario_A "id" (JStr "a")) 1700000000011 instance_after_A_named);
    [reflexivity | reflexivity | reflexivity | reflexivity | reflexivity
    | reflexivity | vm_compute; reflexivity | lia].
Defined.

Section FileDelete.
Variables (dir id : string).
Let current := FileStore.join dir id.

Lemma deleteInstance_files (st : FileStore.t) contents name :
  FileStore.dataDirectory st = dir ->
  FileStore.files st !! current = Some contents ->
  FileStore.files (fst (FileAdmin.deleteInstance st id)) !! name
  = if decide (name = current) then None
    else if FileStore.is_history_of current name then None
    else FileStore.files st !! name.
Proof.
  intros Hdir Hcur. unfold FileAdmin.deleteInstance. rewrite Hdir. fold current.
  rewrite Hcur. cbn [fst FileStore.files].
  destruct (decide (name = current)) as [->|Hne].
  - apply map_lookup_filter_None. left. apply lookup_delete_eq.
  - destruct (FileStore.is_history_of current name) eqn:Hh.
    + apply map_lookup_filter_None. right. intros x _. cbn [fst]. by rewrite Hh.
    + destruct (FileStore.files st !! name) as [x|] eqn:Hx.
      * apply map_lookup_filter_Some. split; [|done].
        by rewrite lookup_delete_ne.
      * apply map_lookup_filter_None. left. by rewrite lookup_delete_ne.
Qed.

(** X10.  [deleteInstance] on an instance whose id is a plain file name
    and that has a current record succeeds and leaves nothing of it: no
    current record, no historical record, and [loadInstance] fails for
    every rewind value.  On an instance without current record it reports
    the error of the failed unlink and removes nothing, historical records
    included. *)
Theorem deleteInstance_removes_every_record (st : FileStore.t) :
  plain_id id = true ->
  FileStore.dataDirectory st = dir ->
  (forall contents,
      FileStore.files st !! current = Some contents ->
      let st' := fst (FileAdmin.deleteInstance st id) in
      snd (FileAdmin.deleteInstance st id) = None
      /\ FileStore.current_record st' id = None
      /\ FileStore.history_count st' id = O
      /\ forall rewind,
           FileStore.loadInstance st' id rewind
           = inl (Error "ENOENT: no such file or directory"))
  /\ (FileStore.files st !! current = None ->
      FileAdmin.deleteInstance st id
      = (st, Some (Error "ENOENT: no such file or directory"))).
Proof.
  intros _ Hdir. split.
  - intros contents Hcur st'.
    assert (Hdir' : FileStore.dataDirectory st' = dir).
    { subst st'. unfold FileAdmin.deleteInstance. rewrite Hdir. fold current.
      by rewrite Hcur. }
    assert (Hgone : FileStore.files st' !! current = None).
    { subst st'. rewrite (deleteInstance_files st contents) by done.
      by destruct (decide (current = current)). }
    assert (Hhist : FileStore.glob_history current (FileStore.files st') = ∅).
    { apply map_empty. intros name. apply map_lookup_filter_None.
      destruct (FileStore.is_history_of current name) eqn:Hh.
      - left. subst st'. rewrite (deleteInstance_files st contents) by done.
        rewrite Hh. by destruct (decide (name = current)).
      - right. intros x _. cbn [fst]. by rewrite Hh. }
    split; [|split; [|split]].
    + unfold FileAdmin.deleteInstance. rewrite Hdir. fold current. by rewrite Hcur.
    + unfold FileStore.current_record. by rewrite Hdir'.
    + unfold FileStore.history_count. rewrite Hdir'. fold current.
      by rewrite Hhist, map_size_empty.
    + intros rewind. unfold FileStore.loadInstance. rewrite Hdir'. fold current.
      cbv zeta. rewrite Hhist, map_to_list_empty.
      match goal with
      | |- context [((0 <? ?n) && ?b)%bool] =>
          replace ((0 <? n) && b)%bool with false by done
      end. cbv iota. by rewrite Hgone.
  - intros Hnone. unfold FileAdmin.deleteInstance. rewrite Hdir. fold current.
    by rewrite Hnone.
Qed.

(** X11.  For an id that is a plain file name, [deleteInstance(id)]
    removes exactly the current file of [id] and the files the glob
    [`${current}_*`] matches: every other file of the directory is as it
    was, and the current record of an instance whose id is [id], an
    underscore and anything without a slash is removed with them. *)
Theorem deleteInstance_removes_what_the_glob_matches (st : FileStore.t) contents :
  plain_id id = true ->
  FileStore.dataDirectory st = dir ->
  FileStore.files st !! current = Some contents ->
  let st' := fst (FileAdmin.deleteInstance st id) in
  (forall name,
      name <> current -> FileStore.is_history_of current name = false ->
      FileStore.files st' !! name = FileStore.files st !! name)
  /\ (forall suffix,
        contains_char "/" suffix = false ->
        FileStore.current_record st' (id +:+ "_" +:+ suffix) = None).
Proof.
  intros _ Hdir Hcur st'. subst st'. split.
  - intros name Hne Hh. rewrite (deleteInstance_files st contents) by done.
    rewrite Hh. by destruct (decide (name = current)).
  - intros suffix Hsuffix. unfold FileStore.current_record.
    assert (Hdir' : FileStore.dataDirectory (fst (FileAdmin.deleteInstance st id)) = dir).
    { unfold FileAdmin.deleteInstance. rewrite Hdir. fold current. by rewrite Hcur. }
    rewrite Hdir'. rewrite (deleteInstance_files st contents) by done.
    assert (Hname : FileStore.join dir (id +:+ "_" +:+ suffix)
                    = (current +:+ "_") +:+ suffix).
    { unfold current, FileStore.join. by rewrite !app_assoc_str. }
    assert (Hh : FileStore.is_history_of current
                   (FileStore.join dir (id +:+ "_" +:+ suffix)) = true).
    { unfold FileStore.is_history_of. rewrite Hname, prefix_app. cbn [andb].
      replace (String.length current + 1)%nat with (String.length (current +:+ "_"))
        by (rewrite length_app_str; simpl; lia).
      by rewrite drop_str_app, Hsuffix. }
    rewrite Hh. by destruct (decide _).
Qed.
End FileDelete.

Lemma deleteInstance_removes_every_record_witness :
  snd (FileAdmin.deleteInstance store_after_A demo_uuid) = None
  /\ FileStore.history_count (fst (FileAdmin.deleteInstance store_after_A demo_uuid))
       demo_uuid = O
  /\ FileStore.history_count store_after_A demo_uuid = 2%nat.
Proof.
  destruct (deleteInstance_removes_every_record "_data" demo_uuid store_after_A
              eq_refl eq_refl)
    as [Hdel _].
  destruct (Hdel (JSON_stringify instance_after_A)) as (Herr & _ & Hcount & _).
  - vm_compute. reflexivity.
  - split; [exact Herr|]. split; [exact Hcount|]. vm_compute. reflexivity.
Defined.

Lemma deleteInstance_removes_what_the_glob_matches_witness :
  FileStore.current_record
    (fst (FileAdmin.deleteInstance
            (save_all empty_dir
               [(1700000000010, set_prop scenario_A "id" (JStr "a"));
                (1700000000011, set_prop scenario_A "id" (JStr "a_b"))]) "a")) "a_b"
  = None
  /\ FileStore.current_record
       (save_all empty_dir
          [(1700000000010, set_prop scenario_A "id" (JStr "a"));
           (1700000000011, set_prop scenario_A "id" (JStr "a_b"))]) "a_b"
     = Some (JSON_stringify (set_prop scenario_A "id" (JStr "a_b"))).
Proof.
  split; [|vm_compute; reflexivity].
  apply (deleteInstance_removes_what_the_glob_matches "_data" "a"
           (save_all empty_dir
              [(1700000000010, set_prop scenario_A "id" (JStr "a"));
               (1700000000011, set_prop scenario_A "id" (JStr "a_b"))])
           (JSON_stringify (set_prop scenario_A "id" (JStr "a"))));
    [reflexivity | reflexivity | vm_compute; reflexivity | reflexivity].
Defined.

(** ** Names of files *)

Lemma contains_char_app c a b :
  contains_char c (a +:+ b) = (contains_char c a || contains_char c b)%bool.
Proof.
  induction a as [|x a IH]; [done|]. rewrite app_cons. cbn [contains_char].
  by rewrite IH, orb_assoc.
Qed.


Lemma drop_str_take s : forall n,
  (n <= String.length s)%nat -> exists a, s = a +:+ drop_str n s.
Proof.
  induction s as [|c s IH]; intros n Hn.
  - exists EmptyString. by destruct n.
  - destruct n as [|n]; [by exists EmptyString|]. cbn [drop_str].
    destruct (IH n) as [a Ha]; [simpl in Hn; lia|].
    exists (String c a). by rewrite app_cons, <- Ha.
Qed.

Lemma ends_with_split suffix s :
  FileAdmin.ends_with suffix s = true -> exists a, s = a +:+ suffix.
Proof.
  unfold FileAdmin.ends_with. intros [Hlen Heq]%andb_true_iff.
  apply Nat.leb_le in Hlen. apply String.eqb_eq in Heq.
  destruct (drop_str_take s (String.length s - String.length suffix)) as [a Ha]; [lia|].
  exists a. by rewrite Heq in Ha.
Qed.

Lemma last_char_eq a b c d :
  a +:+ String c EmptyString = b +:+ String d EmptyString -> c = d.
Proof.
  revert b. induction a as [|x a IH]; intros [|y b]; rewrite ?app_cons;
    change (EmptyString +:+ ?s) with s; intros Heq.
  - by injection Heq.
  - injection Heq as _ Heq. by destruct b.
  - injection Heq as _ Heq. by destruct a.
  - injection Heq as _ Heq. by apply (IH b).
Qed.

(** A text that ends in a character other than the last one of [suffix]
    does not end with [suffix]. *)
Lemma ends_with_other_end suffix pre l a c :
  suffix = pre +:+ String l EmptyString -> c <> l ->
  FileAdmin.ends_with suffix (a +:+ String c EmptyString) = false.
Proof.
  intros -> Hne. destruct (FileAdmin.ends_with _ _) eqn:E; [|done].
  apply ends_with_split in E as [b Hb]. rewrite <- app_assoc_str in Hb.
  by apply last_char_eq in Hb.
Qed.




Section FileDirectory.
Variable dir : string.






(** X13.  A definition saved is the definition read, for a definition
    whose name is a plain file name: after [saveDefinition], [getDefinition] by name and [loadDefinition] by file
    path both yield the JSON clone of the definition, whatever was stored
    under the name before; [deleteDefinition] then succeeds and
    [getDefinition] fails. *)
Theorem saved_definition_is_read_back yaml_load (st : FileStore.t) def name :
  plain_id name = true ->
  FileStore.dataDirectory st = dir ->
  get_prop def "name" = Some (JStr name) ->
  distinct_keys def = true ->
  let st1 := fst (FileAdmin.saveDefinition st def) in
  snd (FileAdmin.saveDefinition st def) = inr def
  /\ FileAdmin.getDefinition st1 name = inr (json_norm def)
  /\ FileAdmin.loadDefinition yaml_load st1 (FileAdmin.definition_file dir name)
     = inr (json_norm def)
  /\ snd (FileAdmin.deleteDefinition st1 name) = None
  /\ FileAdmin.getDefinition (fst (FileAdmin.deleteDefinition st1 name)) name
     = inl (Error "ENOENT: no such file or directory").
Proof.
  intros _ Hdir Hname Hdist st1.
  assert (Hst1 : st1 = FileStore.Make dir
                         (<[FileAdmin.definition_file dir name := JSON_stringify def]>
                            (FileStore.files st))).
  { subst st1. unfold FileAdmin.saveDefinition. rewrite Hname, Hdir.
    by destruct def. }
  assert (Hfile : FileStore.files st1 !! FileAdmin.definition_file dir name
                  = Some (JSON_stringify def))
    by (rewrite Hst1; cbn [FileStore.files]; by rewrite lookup_insert_eq).
  assert (Hdir1 : FileStore.dataDirectory st1 = dir) by (by rewrite Hst1).
  split; [|split; [|split; [|split]]].
  - unfold FileAdmin.saveDefinition. by destruct def.
  - unfold FileAdmin.getDefinition. rewrite Hdir1, Hfile. by rewrite JSON_clone.
  - unfold FileAdmin.loadDefinition. rewrite Hfile.
    assert (FileAdmin.isYaml (FileAdmin.definition_file dir name) = false) as ->.
    { unfold FileAdmin.isYaml, FileAdmin.definition_file, FileStore.join.
      rewrite <- !app_assoc_str.
      change ".def" with (".de" +:+ String "f" EmptyString).
      rewrite <- !app_assoc_str.
      rewrite (ends_with_other_end ".yml" ".ym" "l") by done.
      by rewrite (ends_with_other_end ".yaml" ".yam" "l"). }
    by rewrite JSON_clone.
  - unfold FileAdmin.deleteDefinition. by rewrite Hdir1, Hfile.
  - unfold FileAdmin.deleteDefinition. rewrite Hdir1, Hfile.
    unfold FileAdmin.getDefinition. cbn [fst FileStore.dataDirectory FileStore.files].
    by rewrite lookup_delete_eq.
Qed.
End FileDirectory.


Lemma saved_definition_is_read_back_witness :
  FileAdmin.getDefinition (fst (FileAdmin.saveDefinition empty_dir scenario_A)) "A"
  = inr (json_norm scenario_A).
Proof.
  apply (saved_definition_is_read_back "_data" (fun _ => inr JNull) empty_dir
           scenario_A "A");
    reflexivity.
Defined.

(** ** [childHasStatus] with [all = false] *)

Lemma any_task_cons status n t l :
  any_task status (JObj ((n, t) :: l))
  = ((if is_object t
      then str_is (status_of t) status
           || match get_prop t "tasks" with
              | Some c => any_task status c
              | None => false
              end
      else false) || any_task status (JObj l))%bool.
Proof.
  cbn [any_task existsb snd]. f_equal.
  destruct t as [| | | | | |fields]; try done. cbn [is_object get_prop].
  by rewrite on_prop_lookup.
Qed.

Lemma some_task_cons n t l :
  some_task (JObj ((n, t) :: l)) = (is_object t || some_task (JObj l))%bool.
Proof. reflexivity. Qed.

Lemma status_scan_any status : forall tasks here hc ms,
  scanAllTasks
    (fun (_ : bool * bool) (_ : path) task (_ : string) =>
       let matchStatus := str_is (status_of task) status in
       ((true, matchStatus), task,
        if (matchStatus && negb false)%bool then false
        else if (negb matchStatus && false)%bool then false
        else true))
    true here tasks (hc, ms)
  = if any_task status tasks
    then ((true, true), tasks, false)
    else ((hc || some_task tasks, if some_task tasks then false else ms)%bool, tasks, true).
Proof.
  intros tasks. induction tasks as [v Hv|entries IH] using tasks_ind; intros here hc ms.
  { destruct v; try done; simpl; rewrite orb_false_r; done. }
  rewrite scanAllTasks_entries.
  cut (forall l, (forall n fields children,
                     In (n, JObj fields) l ->
                     lookup_prop "tasks" fields = Some children ->
                     In (n, JObj fields) entries) ->
          forall hc ms,
            scan_entries
              (fun (_ : bool * bool) (_ : path) task (_ : string) =>
                 let matchStatus := str_is (status_of task) status in
                 ((true, matchStatus), task,
                  if (matchStatus && negb false)%bool then false
                  else if (negb matchStatus && false)%bool then false
                  else true))
              true here l (hc, ms)
            = if any_task status (JObj l)
              then ((true, true), l, false)
              else ((hc || some_task (JObj l),
                     if some_task (JObj l) then false else ms)%bool, l, true)).
  { intros Hcut. rewrite Hcut by auto. by destruct (any_task status (JObj entries)). }
  clear hc ms. induction l as [|[n task] l IHl]; intros Hsub hc ms.
  { simpl. by rewrite orb_false_r. }
  assert (IHl' := IHl (fun n f c Hin Hl => Hsub n f c (or_intror Hin) Hl)).
  rewrite any_task_cons, some_task_cons.
  destruct task as [| | | | | |fields];
    try (cbn [scan_entries is_object orb]; rewrite IHl';
         by destruct (any_task status (JObj l))).
  cbn [scan_entries is_object orb]. cbv zeta.
  destruct (str_is (status_of (JObj fields)) status) eqn:Hst; cbn [andb negb orb]; [done|].
  cbn [get_prop].
  destruct (lookup_prop "tasks" fields) as [children|] eqn:Hch.
  - rewrite (IH n fields children (Hsub n fields children (or_introl eq_refl) Hch) Hch).
    assert (Hsame : (if is_object children then set_prop (JObj fields) "tasks" children
                     else JObj fields) = JObj fields)
      by (destruct (is_object children); [by apply set_same|done]).
    destruct (any_task status children); cbn [negb andb orb]; rewrite Hsame; [done|].
    rewrite IHl'. destruct (any_task status (JObj l)); [done|].
    rewrite !orb_true_r. cbn [orb].
    by destruct (some_task children), (some_task (JObj l)).
  - cbn [negb]. rewrite IHl'. destruct (any_task status (JObj l)); [done|].
    rewrite !orb_true_r. by destruct (some_task (JObj l)).
Qed.

(** X14.  For a parent whose tasks are plain objects, no array standing
    for a task or a mapping, [childHasStatus(parent, status, false)]
    answers whether some task below [parent], at any depth, has the status;
    it is false when [parent.tasks] is missing, empty or not a mapping. *)
Theorem childHasStatus_any parent status :
  plain_tasks parent = true ->
  childHasStatus parent status false
  = match get_prop parent "tasks" with
    | Some tasks => any_task status tasks
    | None => false
    end.
Proof.
  intros _.
  unfold childHasStatus. destruct (get_prop parent "tasks") as [tasks|]; [|done].
  destruct tasks as [| | | | | |[|e entries]]; try done.
  rewrite status_scan_any.
  destruct (any_task status (JObj (e :: entries))); [done|].
  cbn [fst]. by destruct (some_task _).
Qed.

Lemma childHasStatus_any_witness :
  childHasStatus instance_after_A "completed" false = true
  /\ childHasStatus instance_after_A "waiting" false = false.
Proof.
  split.
  - rewrite (childHasStatus_any instance_after_A "completed") by reflexivity.
    vm_compute. reflexivity.
  - rewrite (childHasStatus_any instance_after_A "waiting") by reflexivity.
    vm_compute. reflexivity.
Defined.

(** ** [openTasks] without blocking tasks *)

(** X15.  Fan-out.  When no task of a mapping is blocking, [openTasks]
    passes over all of it: the names and their order are kept, every task
    that was [waiting] is [open] afterwards and every other task has the
    status it had. *)
Theorem openTasks_opens_every_waiting_sibling clock entries tick :
  none_blocking entries = true ->
  exists tick' entries',
    openTasks clock (JObj entries) tick = (tick', JObj entries')
    /\ map (fun entry => (fst entry, status_of (snd entry))) entries'
       = map (fun entry => (fst entry, opened_status (snd entry))) entries.
Proof.
  intros Hnone. rewrite openTasks_unfold. cbn [truthy negb].
  rewrite scanAllTasks_entries.
  destruct (open_entries_fan_out clock [] entries tick Hnone) as (tick' & l' & -> & Hmap).
  by exists tick', l'.
Qed.

Lemma openTasks_opens_every_waiting_sibling_witness :
  exists tick' entries',
    openTasks demo_clock
      (JObj [("a", JObj [("status", JStr "waiting")]);
             ("b", JObj [("status", JStr "completed")]);
             ("c", JObj [("status", JStr "waiting")])]) 0
    = (tick', JObj entries')
    /\ map (fun entry => (fst entry, status_of (snd entry))) entries'
       = [("a", Some (JStr "open")); ("b", Some (JStr "completed"));
          ("c", Some (JStr "open"))].
Proof.
  apply (openTasks_opens_every_waiting_sibling demo_clock
           [("a", JObj [("status", JStr "waiting")]);
            ("b", JObj [("status", JStr "completed")]);
            ("c", JObj [("status", JStr "waiting")])] 0).
  reflexivity.
Defined.

(** ** [mergeTasks] *)

Lemma task_names_cons n t l :
  task_names (JObj ((n, t) :: l))
  = ((if is_object t
      then n :: match get_prop t "tasks" with
                | Some c => task_names c
                | None => []
                end
      else []) ++ task_names (JObj l))%list.
Proof.
  cbn [task_names flat_map snd fst]. f_equal.
  destruct t as [| | | | | |fields]; try done. cbn [is_object get_prop].
  by rewrite on_prop_lookup.
Qed.

(** A visitor that acts on the tasks named [t] only passes over a tree
    that has no task of that name. *)
Section ScanOtherNames.
Context {S : Type}.
Variable callback : S -> path -> jsval -> string -> S * jsval * bool.
Variable t : string.
Hypothesis callback_other : forall s p task name,
  name <> t -> callback s p task name = (s, task, true).

Lemma scan_passes_other_names deep : forall tasks here s,
  ~ In t (task_names tasks) ->
  scanAllTasks callback deep here tasks s = (s, tasks, true).
Proof.
  intros tasks. induction tasks as [v Hv|entries IH] using tasks_ind;
    intros here s Hnot.
  { by destruct v. }
  rewrite scanAllTasks_entries.
  cut (forall l, (forall n fields children,
                     In (n, JObj fields) l ->
                     lookup_prop "tasks" fields = Some children ->
                     In (n, JObj fields) entries) ->
          ~ In t (task_names (JObj l)) ->
          scan_entries callback deep here l s = (s, l, true)).
  { intros Hcut. by rewrite Hcut. }
  clear Hnot. induction l as [|[n task] l IHl]; intros Hsub Hnot; [done|].
  rewrite task_names_cons in Hnot.
  assert (Hl : scan_entries callback deep here l s = (s, l, true)).
  { apply IHl; [by intros n' f c Hin Hlk; apply (Hsub n' f c); [right|]|].
    intros Hin. apply Hnot, in_or_app. by right. }
  destruct task as [| | | | | |fields];
    try (cbn [scan_entries]; by rewrite Hl).
  cbn [scan_entries]. cbn [is_object get_prop] in Hnot.
  rewrite callback_other by (intros ->; apply Hnot; by left).
  cbn [negb].
  destruct deep.
  - destruct (lookup_prop "tasks" fields) as [children|] eqn:Hlook.
    + rewrite (IH n fields children (Hsub n fields children (or_introl eq_refl) Hlook) Hlook)
        by (intros Hin; apply Hnot; right; apply in_or_app; by left).
      cbv beta iota zeta. cbn [negb].
      replace (if is_object children then set_prop (JObj fields) "tasks" children
               else JObj fields) with (JObj fields)
        by (destruct (is_object children); [symmetry; by apply set_same|done]).
      by rewrite Hl.
    + cbn [negb]. by rewrite Hl.
  - cbn [negb]. by rewrite Hl.
Qed.
End ScanOtherNames.

Lemma not_in_names t names :
  negb (existsb (String.eqb t) names) = true -> ~ In t names.
Proof.
  intros Hn Hin. apply negb_true_iff in Hn.
  assert (existsb (String.eqb t) names = true); [|congruence].
  apply existsb_exists. exists t. split; [done|]. apply String.eqb_refl.
Qed.


(** ** [mergeTask]: what the merged task carries *)

Lemma lookup_remove_eq k ps :
  nodup_keys (map fst ps) = true -> lookup_prop k (remove_prop k ps) = None.
Proof.
  induction ps as [|[k0 v0] ps IH]; [done|]. cbn [map fst nodup_keys remove_prop].
  intros [Hk Hps]%andb_true_iff. destruct (String.eqb k k0) eqn:E.
  - apply String.eqb_eq in E. subst k0. apply negb_true_iff in Hk.
    destruct (lookup_prop k ps) as [v|] eqn:Hl; [|done].
    apply lookup_prop_In in Hl.
    assert (existsb (String.eqb k) (map fst ps) = true); [|congruence].
    apply existsb_exists. exists k. split; [|apply String.eqb_refl].
    apply in_map_iff. by exists (k, v).
  - cbn [lookup_prop]. rewrite E. by apply IH.
Qed.

Lemma lookup_remove_ne k k' ps :
  k <> k' -> lookup_prop k' (remove_prop k ps) = lookup_prop k' ps.
Proof.
  intros Hne. induction ps as [|[k0 v0] ps IH]; [done|]. cbn [remove_prop].
  destruct (String.eqb k k0) eqn:E.
  - apply String.eqb_eq in E. subst k0. cbn [lookup_prop].
    replace (String.eqb k' k) with false; [done|].
    symmetry. apply String.eqb_neq. congruence.
  - cbn [lookup_prop]. by rewrite IH.
Qed.

Lemma existsb_remove k k' ps :
  existsb (String.eqb k') (map fst (remove_prop k ps)) = true ->
  existsb (String.eqb k') (map fst ps) = true.
Proof.
  induction ps as [|[k0 v0] ps IH]; [done|]. cbn [remove_prop].
  destruct (String.eqb k k0); cbn [map fst existsb].
  - intros ->. apply orb_true_r.
  - intros [->|H]%orb_true_iff; [done|]. rewrite IH by done. apply orb_true_r.
Qed.

Lemma nodup_keys_remove k ps :
  nodup_keys (map fst ps) = true -> nodup_keys (map fst (remove_prop k ps)) = true.
Proof.
  induction ps as [|[k0 v0] ps IH]; [done|]. cbn [map fst nodup_keys remove_prop].
  intros [Hk Hps]%andb_true_iff. destruct (String.eqb k k0); [done|].
  cbn [map fst nodup_keys]. rewrite IH by done. rewrite andb_true_r.
  apply negb_true_iff. apply negb_true_iff in Hk.
  destruct (existsb (String.eqb k0) (map fst (remove_prop k ps))) eqn:E; [|done].
  apply existsb_remove in E. congruence.
Qed.

Lemma set_prop_opt_object fields k v :
  exists fields', set_prop_opt (JObj fields) k v = JObj fields'
                  /\ (nodup_keys (map fst fields) = true ->
                      nodup_keys (map fst fields') = true).
Proof.
  destruct v as [x|]; cbn [set_prop_opt set_prop]; eexists; (split; [done|]).
  - apply nodup_keys_assign.
  - apply nodup_keys_remove.
Qed.

Lemma get_set_opt_eq fields k v :
  nodup_keys (map fst fields) = true ->
  get_prop (set_prop_opt (JObj fields) k v) k = v.
Proof.
  intros Hnd. destruct v as [x|]; cbn [set_prop_opt].
  - by apply get_set_eq.
  - by apply lookup_remove_eq.
Qed.

Lemma get_set_opt_ne o k k' v :
  k <> k' -> get_prop (set_prop_opt o k v) k' = get_prop o k'.
Proof.
  intros Hne. destruct v as [x|]; cbn [set_prop_opt]; [by apply get_set_ne|].
  destruct o; try done. by apply lookup_remove_ne.
Qed.

Section MergeTasks.
Variable clock : nat -> Z.
Variable js_minus : option jsval -> option jsval -> jsval.

(** What [mergeTask] leaves on the task. *)
Lemma mergeTask_properties fields newTask tick :
  nodup_keys (map fst fields) = true ->
  let merged := mergeTask clock js_minus (JObj fields) newTask tick in
  (forall k, In k merged_properties -> get_prop merged k = get_prop newTask k)
  /\ get_prop merged "timeCompleted" = Some (JNum (clock tick))
  /\ get_prop merged "totalDuration"
     = Some (js_minus (Some (JNum (clock tick))) (get_prop (JObj fields) "timeOpened"))
  /\ (forall k, ~ In k merged_properties -> k <> "timeCompleted" ->
                k <> "totalDuration" ->
                get_prop merged k = get_prop (JObj fields) k).
Proof.
  intros Hnd merged. subst merged. unfold mergeTask.
  destruct (set_prop_opt_object fields "parameters" (get_prop newTask "parameters"))
    as (f1 & E1 & N1). specialize (N1 Hnd).
  pose proof (get_set_opt_eq fields "parameters" (get_prop newTask "parameters") Hnd) as G1.
  pose proof (fun k' H => get_set_opt_ne (JObj fields) "parameters" k'
                            (get_prop newTask "parameters") H) as O1.
  rewrite E1 in G1, O1 |- *.
  destruct (set_prop_opt_object f1 "status" (get_prop newTask "status"))
    as (f2 & E2 & N2). specialize (N2 N1).
  pose proof (get_set_opt_eq f1 "status" (get_prop newTask "status") N1) as G2.
  pose proof (fun k' H => get_set_opt_ne (JObj f1) "status" k'
                            (get_prop newTask "status") H) as O2.
  rewrite E2 in G2, O2 |- *.
  destruct (set_prop_opt_object f2 "errorIf" (get_prop newTask "errorIf"))
    as (f3 & E3 & N3). specialize (N3 N2).
  pose proof (get_set_opt_eq f2 "errorIf" (get_prop newTask "errorIf") N2) as G3.
  pose proof (fun k' H => get_set_opt_ne (JObj f2) "errorIf" k'
                            (get_prop newTask "errorIf") H) as O3.
  rewrite E3 in G3, O3 |- *.
  destruct (set_prop_opt_object f3 "skipIf" (get_prop newTask "skipIf"))
    as (f4 & E4 & N4). specialize (N4 N3).
  pose proof (get_set_opt_eq f3 "skipIf" (get_prop newTask "skipIf") N3) as G4.
  pose proof (fun k' H => get_set_opt_ne (JObj f3) "skipIf" k'
                            (get_prop newTask "skipIf") H) as O4.
  rewrite E4 in G4, O4 |- *.
  destruct (set_prop_opt_object f4 "tasks" (get_prop newTask "tasks"))
    as (f5 & E5 & N5). specialize (N5 N4).
  pose proof (get_set_opt_eq f4 "tasks" (get_prop newTask "tasks") N4) as G5.
  pose proof (fun k' H => get_set_opt_ne (JObj f4) "tasks" k'
                            (get_prop newTask "tasks") H) as O5.
  rewrite E5 in G5, O5 |- *.
  cbv zeta.
  split; [|split; [|split]].
  - intros k Hk. rewrite !get_set_ne
      by (intros <-; cbn in Hk; intuition discriminate).
    cbn in Hk. destruct Hk as [<-|[<-|[<-|[<-|[<-|[]]]]]].
    + by rewrite O5, O4, O3, O2, G1.
    + by rewrite O5, O4, O3, G2.
    + by rewrite O5, O4, G3.
    + by rewrite O5, G4.
    + by rewrite G5.
  - by rewrite get_set_ne, get_set_eq.
  - rewrite get_set_eq by done. rewrite get_set_eq by done.
    rewrite get_set_ne by done. by rewrite O5, O4, O3, O2, O1.
  - intros k Hk H1 H2. rewrite !get_set_ne by congruence.
    rewrite O5, O4, O3, O2, O1; [done|..];
      intros <-; apply Hk; cbn; tauto.
Qed.


(** X16.  On an instance whose tasks are plain objects (no array standing
    for a task or a mapping), [mergeTasks] with names that no task of the
    instance carries, at any depth, hands the instance back as it was and
    does not read the clock. *)
Theorem mergeTasks_ignores_unknown_names workflow entries tick :
  plain_tasks workflow = true ->
  unknown_names (map fst entries) workflow = true ->
  mergeTasks clock js_minus workflow (JObj entries) tick = (tick, None, workflow).
Proof.
  intros _ Hunknown. unfold mergeTasks.
  assert (Hall : forall names,
             (forall t, In t names -> In t (map fst entries)) ->
             fold_left (merge_named clock js_minus entries) names (tick, None, workflow)
             = (tick, None, workflow)).
  { induction names as [|t names IH]; intros Hsub; [done|]. cbn [fold_left].
    assert (Hone : merge_named clock js_minus entries (tick, None, workflow) t
                   = (tick, None, workflow)).
    { unfold merge_named.
      destruct (get_prop workflow "tasks") as [wtasks|] eqn:Hw; [|done].
      rewrite (scan_passes_other_names _ t).
      - cbn [fst snd]. by rewrite set_same.
      - intros s p task name Hne.
        replace (String.eqb t name) with false; [done|].
        symmetry. apply String.eqb_neq. congruence.
      - apply not_in_names. unfold unknown_names in Hunknown. rewrite Hw in Hunknown.
        rewrite forallb_forall in Hunknown. apply Hunknown, Hsub. by left. }
    rewrite Hone. apply IH. intros t' Hin. apply Hsub. by right. }
  by apply Hall.
Qed.

(** X17.  [mergeTasks], on an instance whose tasks are plain objects (no
    array standing for a task or a mapping), with one injected task [t]
    that is not [null]: the first task of that name in scan order, here a top-level task that no
    task before it (children included) shares its name with, is merged and
    the scan stops, so every other task is as it was and the clock is read
    once.  The merged task takes [parameters], [status], [errorIf],
    [skipIf] and [tasks] from the injected task, each removed when the
    injected task lacks it; [timeCompleted] is the clock reading and
    [totalDuration] is counted from [timeOpened]; the rest is kept. *)
Theorem mergeTasks_merges_the_named_task workflow pre t fields post newTask tick :
  plain_tasks workflow = true ->
  get_prop workflow "tasks" = Some (JObj (pre ++ (t, JObj fields) :: post)) ->
  negb (existsb (String.eqb t) (task_names (JObj pre))) = true ->
  not_null newTask = true ->
  nodup_keys (map fst fields) = true ->
  let merged := mergeTask clock js_minus (JObj fields) newTask tick in
  mergeTasks clock js_minus workflow (JObj [(t, newTask)]) tick
  = (S tick, None, set_prop workflow "tasks" (JObj (pre ++ (t, merged) :: post)))
  /\ (forall k, In k merged_properties -> get_prop merged k = get_prop newTask k)
  /\ get_prop merged "timeCompleted" = Some (JNum (clock tick))
  /\ get_prop merged "totalDuration"
     = Some (js_minus (Some (JNum (clock tick))) (get_prop (JObj fields) "timeOpened"))
  /\ (forall k, ~ In k merged_properties -> k <> "timeCompleted" ->
                k <> "totalDuration" ->
                get_prop merged k = get_prop (JObj fields) k).
Proof.
  intros _ Hw Hpre Hnull Hnd merged. split; [|by apply mergeTask_properties].
  unfold mergeTasks. cbn [map fst fold_left]. unfold merge_named. rewrite Hw.
  rewrite scanAllTasks_entries.
  set (cb := fun (s : nat * option exn) (_ : path) (task : jsval) (name : string) =>
               if String.eqb t name then
                 match lookup_prop t [(t, newTask)] with
                 | Some JNull | None =>
                     ((fst s, Some (TypeError "Cannot read properties of null")), task, false)
                 | Some newTask' =>
                     ((S (fst s), None), mergeTask clock js_minus task newTask' (fst s), false)
                 end
               else (s, task, true)).
  assert (Hscan_pre : scan_entries cb true ["tasks"] pre (tick, None) = (tick, None, pre, true)).
  { pose proof (scan_passes_other_names cb t) as Hpass.
    specialize (Hpass ltac:(intros s p task name Hne; subst cb; cbv beta;
                            replace (String.eqb t name) with false;
                            [done | symmetry; apply String.eqb_neq; congruence])).
    specialize (Hpass true (JObj pre) ["tasks"] (tick, None) (not_in_names _ _ Hpre)).
    rewrite scanAllTasks_entries in Hpass.
    destruct (scan_entries cb true ["tasks"] pre (tick, None)) as [[s' l'] c'].
    by injection Hpass as -> -> ->. }
  rewrite (scan_entries_app cb true ["tasks"] _ pre (tick, None) (tick, None) pre Hscan_pre).
  cbn [scan_entries]. unfold cb at 1. rewrite String.eqb_refl.
  cbn [lookup_prop]. rewrite String.eqb_refl.
  destruct newTask; try done.
Qed.
End MergeTasks.

Lemma mergeTasks_ignores_unknown_names_witness :
  mergeTasks demo_clock demo_minus instance_after_A
    (JObj [("t9", JObj [("status", JStr "completed")])]) 6
  = (6%nat, None, instance_after_A).
Proof.
  apply (mergeTasks_ignores_unknown_names demo_clock demo_minus instance_after_A
           [("t9", JObj [("status", JStr "completed")])] 6);
    vm_compute; reflexivity.
Defined.

Lemma mergeTasks_merges_the_named_task_witness :
  mergeTasks demo_clock demo_minus paused_instance
    (JObj [("t1", JObj [("status", JStr "completed")])]) 6
  = (7%nat, None,
     set_prop paused_instance "tasks"
       (JObj ([] ++ ("t1", mergeTask demo_clock demo_minus
                             (JObj [("handler", JStr "test"); ("blocking", JBool true);
                                    ("parameters", JObj [("paused", JBool true)]);
                                    ("status", JStr "paused");
                                    ("timeOpened", JNum 1700000000001)])
                             (JObj [("status", JStr "completed")]) 6)
                 :: [("t2", JObj [("handler", JStr "log");
                                  ("parameters", JObj [("log", JStr "done")]);
                                  ("status", JStr "waiting")])]))).
Proof.
  apply (mergeTasks_merges_the_named_task demo_clock demo_minus paused_instance
           [] "t1" _ _ (JObj [("status", JStr "completed")]) 6);
    reflexivity.
Defined.

(** ** [getTasksByStatus] *)







Section StatusDictionary.
Variable status : string.



End StatusDictionary.


(** ** [getData] *)

Lemma split_on_plain sep k :
  contains_char sep k = false -> split_on sep k = [k].
Proof.
  induction k as [|c k IH]; [done|]. cbn [contains_char split_on].
  intros [Hc Hk]%orb_false_iff. rewrite Hc, IH by done. done.
Qed.

Lemma split_on_app sep k rest :
  contains_char sep k = false ->
  split_on sep (k +:+ String sep rest) = k :: split_on sep rest.
Proof.
  induction k as [|c k IH].
  - intros _. change (EmptyString +:+ ?s) with s. cbn [split_on].
    by rewrite Ascii.eqb_refl.
  - cbn [contains_char]. intros [Hc Hk]%orb_false_iff. rewrite app_cons.
    cbn [split_on]. by rewrite Hc, IH.
Qed.

Lemma split_on_dotted ks :
  ks <> [] -> forallb plain_key ks = true -> split_on "." (dotted ks) = ks.
Proof.
  induction ks as [|k ks IH]; [done|]. intros _. cbn [forallb].
  intros [Hk Hks]%andb_true_iff.
  assert (Hdot : contains_char "." k = false).
  { unfold plain_key in Hk. apply andb_true_iff in Hk as [Hk _].
    by apply negb_true_iff in Hk. }
  destruct ks as [|k' ks]; [by apply split_on_plain|].
  change (dotted (k :: k' :: ks)) with (k +:+ "." +:+ dotted (k' :: ks)).
  change (k +:+ "." +:+ dotted (k' :: ks)) with (k +:+ String "." (dotted (k' :: ks))).
  rewrite split_on_app by done. by rewrite IH.
Qed.

Lemma getData_step_plain current k :
  plain_key k = true ->
  getData_step current k
  = match current with
    | None | Some JNull => current
    | Some cur => js_index cur k
    end.
Proof.
  intros Hk. unfold getData_step.
  assert ((contains_char "[" k && contains_char "]" k)%bool = false) as ->.
  { unfold plain_key in Hk. apply andb_true_iff in Hk as [_ Hk].
    by apply negb_true_iff in Hk. }
  by destruct current as [[]|].
Qed.

Lemma getData_steps_stuck ks current :
  current = None \/ current = Some JNull ->
  fold_left getData_step ks current = current.
Proof.
  revert current. induction ks as [|k ks IH]; intros current Hc; [done|].
  cbn [fold_left]. assert (getData_step current k = current) as ->; [|by apply IH].
  by destruct Hc as [-> | ->].
Qed.

Lemma getData_steps_follow ks : forall wf v,
  forallb plain_key ks = true ->
  read_path ks wf = Some v ->
  fold_left getData_step ks (Some wf) = Some v.
Proof.
  induction ks as [|k ks IH]; intros wf v Hks Hread.
  - by injection Hread as ->.
  - cbn [forallb] in Hks. apply andb_true_iff in Hks as [Hk Hks].
    cbn [read_path] in Hread. cbn [fold_left].
    destruct (get_prop wf k) as [c|] eqn:Hget; [|done].
    rewrite getData_step_plain by done.
    destruct wf as [| | | | | |fields]; try done.
    cbn [js_index]. cbn [get_prop] in Hget. rewrite Hget. by apply IH.
Qed.

Lemma getData_dotted wf ks :
  ks <> [] -> forallb plain_key ks = true -> String.eqb (dotted ks) EmptyString = false ->
  getData wf (dotted ks) = fold_left getData_step ks (Some wf).
Proof.
  intros Hne Hks Hnonempty. unfold getData. rewrite Hnonempty.
  by rewrite split_on_dotted.
Qed.

Lemma forallb_app_plain ks more :
  forallb plain_key (ks ++ more) = (forallb plain_key ks && forallb plain_key more)%bool.
Proof. apply forallb_app. Qed.

(** X19.  [getData] follows a dotted path of plain keys property by
    property: it yields the value the properties lead to; once they lead to
    [null] it yields [null] however the path goes on; and once an object on
    the way lacks the next key, a key that [Object.prototype] does not
    supply either, it yields [undefined]. *)
Theorem getData_follows_the_properties wf ks more :
  ks <> [] ->
  forallb plain_key (ks ++ more) = true ->
  String.eqb (dotted ks) EmptyString = false ->
  String.eqb (dotted (ks ++ more)) EmptyString = false ->
  (forall v, read_path ks wf = Some v -> getData wf (dotted ks) = Some v)
  /\ (read_path ks wf = Some JNull -> getData wf (dotted (ks ++ more)) = Some JNull)
  /\ (forall fields k rest,
        more = k :: rest ->
        read_path ks wf = Some (JObj fields) ->
        lookup_prop k fields = None ->
        own_name k = true ->
        getData wf (dotted (ks ++ more)) = None).
Proof.
  intros Hne Hplain Hd1 Hd2. rewrite forallb_app_plain in Hplain.
  apply andb_true_iff in Hplain as [Hks Hmore].
  assert (Hne2 : (ks ++ more)%list <> []) by (by destruct ks).
  assert (Hall : forallb plain_key (ks ++ more) = true)
    by (by rewrite forallb_app_plain, Hks, Hmore).
  split; [|split].
  - intros v Hread. rewrite getData_dotted by done. by apply getData_steps_follow.
  - intros Hread. rewrite getData_dotted by done.
    rewrite fold_left_app, (getData_steps_follow ks wf JNull) by done.
    apply getData_steps_stuck. by right.
  - intros fields k rest -> Hread Hmiss _. rewrite getData_dotted by done.
    rewrite fold_left_app, (getData_steps_follow ks wf (JObj fields)) by done.
    cbn [fold_left]. cbn [forallb] in Hmore. apply andb_true_iff in Hmore as [Hk _].
    rewrite getData_step_plain by done. cbn [js_index]. rewrite Hmiss.
    apply getData_steps_stuck. by left.
Qed.

Lemma getData_follows_the_properties_witness :
  getData workflow_with_list "result.count" = Some (JNum 3)
  /\ getData workflow_with_list "result.none.deeper" = Some JNull
  /\ getData workflow_with_list "result.missing.deeper" = None.
Proof.
  destruct (getData_follows_the_properties workflow_with_list ["result"; "count"] []
              ltac:(discriminate) eq_refl eq_refl eq_refl) as (Hfound & _).
  destruct (getData_follows_the_properties workflow_with_list ["result"; "none"]
              ["deeper"] ltac:(discriminate) eq_refl eq_refl eq_refl) as (_ & Hnull & _).
  destruct (getData_follows_the_properties workflow_with_list ["result"]
              ["missing"; "deeper"] ltac:(discriminate) eq_refl eq_refl eq_refl)
    as (_ & _ & Hmissing).
  split; [by apply Hfound|]. split; [by apply Hnull|].
  by apply (Hmissing
              [("items", JArr [JStr "a"; JStr "b"; JStr "c"]); ("count", JNum 3);
               ("none", JNull)] "missing" ["deeper"]).
Defined.

(** *** Array notation *)

Lemma all_digits_pretty_N_go x : forall s,
  all_digits s = true -> all_digits (pretty_N_go x s) = true.
Proof.
  induction (N.lt_wf_0 x) as [x _ IH]; intros s Hs.
  destruct (decide (x = 0)%N) as [->|Hx]; [done|].
  rewrite pretty_N_go_step by lia. apply IH.
  - apply N.div_lt; lia.
  - cbn [all_digits]. rewrite Hs, andb_true_r.
    apply pretty_N_char_digit. by apply N.mod_lt.
Qed.

Lemma all_digits_pretty (x : N) : all_digits (pretty x) = true.
Proof.
  unfold pretty, pretty_N. case_decide; [done|]. by apply all_digits_pretty_N_go.
Qed.

Lemma all_digits_without c s :
  is_digit c = false -> all_digits s = true -> contains_char c s = false.
Proof.
  intros Hc. induction s as [|x s IH]; [done|]. cbn [all_digits contains_char].
  intros [Hx Hs]%andb_true_iff. rewrite IH by done. rewrite orb_false_r.
  apply Ascii.eqb_neq. intros ->. congruence.
Qed.

Lemma parse_digits_pretty (x : N) : parse_digits 0 (pretty x) = (Z.of_N x, EmptyString).
Proof.
  unfold pretty, pretty_N. case_decide as Hx; [by subst|].
  destruct (parse_digits_pretty_N_go x) as (k & _ & Hk). by rewrite Hk.
Qed.

Lemma span_not_app close a rest :
  contains_char close a = false ->
  span_not close (a +:+ String close rest) = (a, String close rest).
Proof.
  induction a as [|c a IH].
  - intros _. change (EmptyString +:+ ?s) with s. cbn [span_not].
    by rewrite Ascii.eqb_refl.
  - cbn [contains_char]. intros [Hc Ha]%orb_false_iff. rewrite app_cons.
    cbn [span_not]. by rewrite Hc, IH.
Qed.

Lemma array_match_indexed key index :
  String.eqb key EmptyString = false ->
  contains_char "[" key = false ->
  array_match (indexed key index) = Some (key, index).
Proof.
  intros Hne Hkey. unfold array_match, indexed.
  change (key +:+ "[" +:+ pretty (N.of_nat index) +:+ "]")
    with (key +:+ String "[" (pretty (N.of_nat index) +:+ String "]" EmptyString)).
  rewrite span_not_app by done. destruct key as [|c key]; [done|].
  rewrite span_not_app by (by apply all_digits_without; [|apply all_digits_pretty]).
  pose proof (all_digits_pretty (N.of_nat index)) as Hd.
  pose proof (parse_digits_pretty (N.of_nat index)) as Hp.
  destruct (pretty (N.of_nat index)) as [|d digits] eqn:E.
  - destruct (pretty_N_head (N.of_nat index)) as (c' & r & Hc & _). congruence.
  - rewrite Hd, Hp. cbn [fst]. do 2 f_equal. lia.
Qed.

Lemma no_dot_split ks :
  ks <> [] -> forallb (fun k => negb (contains_char "." k)) ks = true ->
  split_on "." (dotted ks) = ks.
Proof.
  induction ks as [|k ks IH]; [done|]. intros _. cbn [forallb].
  intros [Hk Hks]%andb_true_iff. apply negb_true_iff in Hk.
  destruct ks as [|k' ks]; [by apply split_on_plain|].
  change (dotted (k :: k' :: ks)) with (k +:+ String "." (dotted (k' :: ks))).
  rewrite split_on_app by done. by rewrite IH.
Qed.

Lemma dotted_last_nonempty ks seg :
  String.eqb seg EmptyString = false ->
  String.eqb (dotted (ks ++ [seg])) EmptyString = false.
Proof.
  intros Hseg. destruct ks as [|k ks]; [done|].
  destruct (ks ++ [seg])%list as [|k' l] eqn:E; [by destruct ks|].
  cbn [app]. rewrite E.
  change (dotted (k :: k' :: l)) with (k +:+ String "." (dotted (k' :: l))).
  by destruct k.
Qed.

(** X20.  Array notation: the last segment [key[index]] of a path, for a
    key that [Object.prototype] does not supply, reads the property [key]
    of the object the path leads to and, when that is an array, its element
    at [index] ([undefined] beyond the end); when the property is not an
    array the index is dropped and the property itself is handed back. *)
Theorem getData_reads_array_elements wf ks fields key index :
  forallb plain_key ks = true ->
  String.eqb key EmptyString = false ->
  contains_char "." key = false ->
  contains_char "[" key = false ->
  own_name key = true ->
  read_path ks wf = Some (JObj fields) ->
  getData wf (dotted (ks ++ [indexed key index]))
  = match lookup_prop key fields with
    | Some (JArr items) => nth_error items index
    | other => other
    end.
Proof.
  intros Hks Hne Hdot Hbr _ Hread.
  assert (Hseg : String.eqb (indexed key index) EmptyString = false)
    by (unfold indexed; by destruct key).
  assert (Hnodot : contains_char "." (indexed key index) = false).
  { unfold indexed. rewrite !contains_char_app, Hdot.
    by rewrite (all_digits_without "." (pretty (N.of_nat index)))
      by (done || apply all_digits_pretty). }
  assert (Hbrackets : (contains_char "[" (indexed key index)
                       && contains_char "]" (indexed key index))%bool = true).
  { unfold indexed. rewrite !contains_char_app. cbn [contains_char].
    by rewrite !orb_true_r. }
  unfold getData. rewrite dotted_last_nonempty by done.
  rewrite no_dot_split.
  - rewrite fold_left_app, (getData_steps_follow ks wf (JObj fields)) by done.
    cbn [fold_left]. unfold getData_step. rewrite Hbrackets.
    rewrite array_match_indexed by done. cbn [js_index].
    by destruct (lookup_prop key fields) as [[]|].
  - by destruct ks.
  - rewrite forallb_app. cbn [forallb]. rewrite Hnodot. cbn [negb andb].
    rewrite andb_true_r. apply forallb_forall. intros k Hin.
    rewrite forallb_forall in Hks. specialize (Hks k Hin).
    unfold plain_key in Hks. by apply andb_true_iff in Hks as [Hk _].
Qed.

Lemma getData_reads_array_elements_witness :
  getData workflow_with_list "result.items[1]" = Some (JStr "b")
  /\ getData workflow_with_list "result.items[7]" = None
  /\ getData workflow_with_list "result.count[1]" = Some (JNum 3).
Proof.
  pose proof (fun key index =>
                getData_reads_array_elements workflow_with_list ["result"]
                  [("items", JArr [JStr "a"; JStr "b"; JStr "c"]); ("count", JNum 3);
                   ("none", JNull)] key index eq_refl) as Hget.
  split; [|split].
  - apply (Hget "items" 1%nat); reflexivity.
  - apply (Hget "items" 7%nat); reflexivity.
  - apply (Hget "count" 1%nat); reflexivity.
Defined.

(** ** [setTaskDataValues] *)

Lemma match_refs_no_dollar s : forall skip,
  contains_char "$" s = false -> match_refs skip s = [].
Proof.
  induction s as [|c s IH]; intros skip; [done|]. cbn [contains_char].
  intros [Hc Hs]%orb_false_iff. cbn [match_refs]. destruct skip; [|by apply IH].
  assert (ref_at (String c s) = None) as ->; [|by apply IH].
  unfold ref_at. apply Ascii.eqb_neq in Hc.
  destruct c as [[] [] [] [] [] [] [] []]; done.
Qed.

Lemma write_read_same p : forall wf task,
  read_path p wf = Some task -> write_path p task wf = wf.
Proof.
  induction p as [|k p IH]; intros wf task; cbn [read_path write_path].
  - by intros [= ->].
  - destruct (get_prop wf k) as [c|] eqn:Hget; [|done]. intros Hread.
    rewrite (IH c task Hread). by apply set_same.
Qed.

(** X21.  [setTaskDataValues] leaves alone a task whose property values
    hold no dollar sign: no property is re-parsed, and the workflow is as
    it was. *)
Theorem setTaskDataValues_needs_a_reference workflow p fields :
  read_path p workflow = Some (JObj fields) ->
  without_references fields = true ->
  setTaskDataValues workflow p = workflow.
Proof.
  intros Hread Hnone. unfold setTaskDataValues. rewrite Hread.
  assert (Hkeys : forall keys,
             (forall k, In k keys -> In k (map fst fields)) ->
             fold_left
               (fun wf propKey =>
                  match read_path p wf with
                  | Some task =>
                      match get_prop task propKey with
                      | Some value =>
                          write_path p (set_prop task propKey (resolve_value wf value)) wf
                      | None => wf
                      end
                  | None => wf
                  end) keys workflow = workflow).
  { induction keys as [|k keys IH]; intros Hsub; [done|]. cbn [fold_left].
    rewrite Hread. cbn [get_prop].
    destruct (lookup_prop k fields) as [value|] eqn:Hk.
    - assert (Hsame : resolve_value workflow value = value).
      { unfold resolve_value. rewrite match_refs_no_dollar; [done|].
        unfold without_references in Hnone. rewrite forallb_forall in Hnone.
        apply lookup_prop_In in Hk. specialize (Hnone (k, value) Hk).
        by apply negb_true_iff in Hnone. }
      rewrite Hsame.
      rewrite (set_same (JObj fields) k value) by done.
      rewrite (write_read_same p workflow (JObj fields) Hread).
      apply IH. intros k' Hin. apply Hsub. by right.
    - apply IH. intros k' Hin. apply Hsub. by right. }
  by apply Hkeys.
Qed.

Lemma setTaskDataValues_needs_a_reference_witness :
  setTaskDataValues scenario_A ["tasks"; "t1"] = scenario_A.
Proof.
  apply (setTaskDataValues_needs_a_reference scenario_A ["tasks"; "t1"]
           [("handler", JStr "log");
            ("parameters", JObj [("log", JStr "hi"); ("level", JStr "info")])]);
    reflexivity.
Defined.


Lemma all_chars_app P a b :
  all_chars P (a +:+ b) = (all_chars P a && all_chars P b)%bool.
Proof.
  induction a as [|c a IH]; [done|]. rewrite app_cons. cbn [all_chars].
  by rewrite IH, andb_assoc.
Qed.

Lemma all_chars_weaken (P Q : ascii -> bool) s :
  (forall c, P c = true -> Q c = true) -> all_chars P s = true -> all_chars Q s = true.
Proof.
  intros HPQ. induction s as [|c s IH]; [done|]. cbn [all_chars].
  intros [Hc Hs]%andb_true_iff. rewrite (HPQ c Hc). by apply IH.
Qed.

Lemma all_chars_without P x s :
  P x = false -> all_chars P s = true -> contains_char x s = false.
Proof.
  intros Hx. induction s as [|c s IH]; [done|]. cbn [all_chars contains_char].
  intros [Hc Hs]%andb_true_iff. rewrite (IH Hs), orb_false_r.
  apply Ascii.eqb_neq. intros ->. congruence.
Qed.

Lemma quote_char_unescaped c : unescaped c = true -> quote_char c = str1 c.
Proof. destruct c as [[] [] [] [] [] [] [] []]; done. Qed.

Lemma quote_body_unescaped s : all_chars unescaped s = true -> quote_body s = s.
Proof.
  induction s as [|c s IH]; [done|]. cbn [all_chars quote_body].
  intros [Hc Hs]%andb_true_iff. by rewrite (quote_char_unescaped c Hc), (IH Hs).
Qed.

Lemma quote_body_app a b : quote_body (a +:+ b) = quote_body a +:+ quote_body b.
Proof.
  induction a as [|c a IH]; [done|]. rewrite app_cons. cbn [quote_body].
  by rewrite IH, app_assoc_str.
Qed.

Lemma ordinary_unescaped s : all_chars ordinary s = true -> all_chars unescaped s = true.
Proof. apply all_chars_weaken. by intros c [H _]%andb_true_iff. Qed.

Lemma path_char_unescaped s : all_chars path_char s = true -> all_chars unescaped s = true.
Proof. apply all_chars_weaken. by intros c [H _]%andb_true_iff. Qed.

Lemma ordinary_no_dollar s : all_chars ordinary s = true -> contains_char "$" s = false.
Proof. by apply all_chars_without. Qed.

Lemma match_refs_before pre rest :
  contains_char "$" pre = false -> match_refs 0 (pre +:+ rest) = match_refs 0 rest.
Proof.
  induction pre as [|c pre IH]; [done|]. cbn [contains_char].
  intros [Hc Hs]%orb_false_iff. rewrite app_cons. cbn [match_refs].
  assert (ref_at (String c (pre +:+ rest)) = None) as ->; [|by apply IH].
  unfold ref_at. apply Ascii.eqb_neq in Hc.
  destruct c as [[] [] [] [] [] [] [] []]; done.
Qed.

Lemma match_refs_skip a rest :
  match_refs (String.length a) (a +:+ rest) = match_refs 0 rest.
Proof. induction a as [|c a IH]; [by destruct rest|]. by rewrite app_cons. Qed.

Lemma span_not_run close run rest :
  contains_char close run = false ->
  span_not close (run +:+ String close rest) = (run, String close rest).
Proof.
  induction run as [|x run IH]; intros Hrun.
  - change (EmptyString +:+ String close rest) with (String close rest).
    cbn [span_not]. by rewrite Ascii.eqb_refl.
  - cbn [contains_char] in Hrun. apply orb_false_iff in Hrun as [Hx Hr].
    rewrite app_cons. cbn [span_not]. rewrite Hx. by rewrite (IH Hr).
Qed.

Lemma path_char_no_bracket s : all_chars path_char s = true -> contains_char "]" s = false.
Proof. apply all_chars_without. done. Qed.

Lemma reference_app ref rest :
  reference ref +:+ rest = String "$" (String "[" (ref +:+ String "]" rest)).
Proof.
  unfold reference.
  change ("$[" +:+ ref +:+ "]") with (String "$" (String "[" (ref +:+ "]"))).
  by rewrite !app_cons, app_assoc_str.
Qed.

Lemma ref_at_reference c ref rest :
  all_chars path_char (String c ref) = true ->
  ref_at (reference (String c ref) +:+ rest) = Some (reference (String c ref)).
Proof.
  intros Hp. rewrite reference_app. unfold ref_at.
  rewrite (span_not_run "]" (String c ref) rest); [done|by apply path_char_no_bracket].
Qed.

Lemma match_refs_reference c ref rest :
  all_chars path_char (String c ref) = true ->
  contains_char "$" rest = false ->
  match_refs 0 (reference (String c ref) +:+ rest) = [reference (String c ref)].
Proof.
  intros Hp Hrest.
  pose proof (ref_at_reference c ref rest Hp) as Hat.
  remember (reference (String c ref)) as m eqn:Hm.
  assert (Hshape : exists m', m = String "$" m') by (by rewrite Hm; eexists).
  destruct Hshape as [m' ->]. rewrite app_cons in Hat |- *.
  cbn [match_refs]. rewrite Hat. f_equal.
  cbn [String.length]. rewrite Nat.sub_succ, Nat.sub_0_r.
  rewrite match_refs_skip. by apply match_refs_no_dollar.
Qed.

Lemma slice_reference ref : slice_2_m1 (reference ref) = ref.
Proof.
  unfold slice_2_m1. rewrite <- (app_empty_r (reference ref)), reference_app.
  cbn [drop_str String.length]. rewrite length_app_str. cbn [String.length].
  replace (S (S (String.length ref + 1)) - 3)%nat with (String.length ref) by lia.
  induction ref as [|c ref IH]; [done|]. rewrite app_cons. cbn [String.length take_str].
  by rewrite IH.
Qed.

Lemma get_substitution_plain m b a repl :
  contains_char "$" repl = false -> get_substitution m b a repl = repl.
Proof.
  induction repl as [|c repl IH]; [done|]. cbn [contains_char].
  intros [Hc Hr]%orb_false_iff. apply Ascii.eqb_neq in Hc.
  cbn [get_substitution]. rewrite (IH Hr).
  destruct c as [[] [] [] [] [] [] [] []]; done.
Qed.

Lemma prefix_other_head c p x s : c <> x -> String.prefix (String c p) (String x s) = false.
Proof. intros Hne. cbn. by destruct (ascii_dec c x). Qed.

Lemma split_first_after c pat a b :
  contains_char c a = false ->
  split_first (String c pat) (a +:+ String c pat +:+ b) = Some (a, b).
Proof.
  induction a as [|x a IH]; intros Ha.
  - change (EmptyString +:+ String c pat +:+ b) with (String c pat +:+ b).
    rewrite app_cons. cbn [split_first].
    change (String c (pat +:+ b)) with (String c pat +:+ b).
    by rewrite prefix_app, drop_str_app.
  - cbn [contains_char] in Ha. apply orb_false_iff in Ha as [Hx Hr].
    apply Ascii.eqb_neq in Hx. rewrite app_cons. cbn [split_first].
    rewrite prefix_other_head by congruence. by rewrite (IH Hr).
Qed.



Lemma split_first_never c x pat a :
  contains_char c a = false ->
  split_first (String c (String x pat)) (a +:+ str1 c) = None.
Proof.
  induction a as [|y a IH]; intros Ha.
  - change (EmptyString +:+ str1 c) with (str1 c). cbn. by destruct (ascii_dec c c).
  - cbn [contains_char] in Ha. apply orb_false_iff in Ha as [Hy Hr].
    apply Ascii.eqb_neq in Hy. rewrite app_cons. cbn [split_first].
    rewrite prefix_other_head by congruence. by rewrite (IH Hr).
Qed.

Lemma prefix_app_cancel p a b : String.prefix (p +:+ a) (p +:+ b) = String.prefix a b.
Proof.
  induction p as [|c p IH]; [done|]. rewrite !app_cons. cbn [String.prefix].
  by destruct (ascii_dec c c).
Qed.


Lemma resolve_ref_other workflow valueStr ref :
  is_string (data_or_null workflow ref) = false ->
  resolve_ref workflow valueStr (reference ref)
  = let d := data_or_null workflow ref in
    let before :=
      replace_first (String dquote (reference ref +:+ str1 dquote))
        (JSON_stringify d) valueStr in
    if String.eqb valueStr before
    then replace_first (reference ref) (js_String d) valueStr
    else before.
Proof.
  unfold resolve_ref, data_or_null. rewrite slice_reference.
  by destruct (match getData workflow ref with Some v => v | None => JNull end).
Qed.

Lemma reference_unescaped ref :
  all_chars path_char ref = true -> all_chars unescaped (reference ref) = true.
Proof.
  intros Hp. rewrite <- (app_empty_r (reference ref)), reference_app.
  cbn [all_chars]. rewrite all_chars_app, (path_char_unescaped ref Hp). done.
Qed.

Lemma reference_no_quote ref :
  all_chars path_char ref = true -> contains_char dquote (reference ref) = false.
Proof.
  intros Hp. apply (all_chars_without unescaped); [done|by apply reference_unescaped].
Qed.

Lemma match_refs_in_text pre ref post :
  all_chars ordinary pre = true -> all_chars ordinary post = true ->
  ref <> EmptyString -> all_chars path_char ref = true ->
  match_refs 0 (String dquote (pre +:+ reference ref +:+ post +:+ str1 dquote))
  = [reference ref].
Proof.
  intros Hpre Hpost Hne Hp. destruct ref as [|c ref]; [done|].
  change (match_refs 0 (String dquote ?s)) with (match_refs 0 s).
  rewrite match_refs_before by (by apply ordinary_no_dollar).
  apply match_refs_reference; [done|].
  rewrite contains_char_app, (ordinary_no_dollar post Hpost). done.
Qed.

Lemma stringify_text s :
  all_chars unescaped s = true ->
  JSON_stringify (JStr s) = String dquote (s +:+ str1 dquote).
Proof. intros Hs. cbn. unfold quote. by rewrite (quote_body_unescaped s Hs). Qed.

Section References.
Variable workflow : jsval.
Variables pre ref post : string.
Hypothesis Hpre : all_chars ordinary pre = true.
Hypothesis Hpost : all_chars ordinary post = true.
Hypothesis Hne : ref <> EmptyString.
Hypothesis Hpath : all_chars path_char ref = true.

Lemma text_unescaped :
  all_chars unescaped (pre +:+ reference ref +:+ post) = true.
Proof.
  rewrite !all_chars_app, (ordinary_unescaped pre Hpre), (ordinary_unescaped post Hpost).
  by rewrite (reference_unescaped ref Hpath).
Qed.

Lemma text_of_value :
  JSON_stringify (JStr (pre +:+ reference ref +:+ post))
  = String dquote (pre +:+ reference ref +:+ post +:+ str1 dquote).
Proof. rewrite (stringify_text _ text_unescaped). by rewrite !app_assoc_str. Qed.

Lemma splice repl :
  contains_char "$" repl = false ->
  replace_first (reference ref) repl
    (String dquote (pre +:+ reference ref +:+ post +:+ str1 dquote))
  = String dquote (pre +:+ repl +:+ post +:+ str1 dquote).
Proof.
  intros Hrepl. unfold replace_first.
  pose proof (split_first_after "$" (String "[" (ref +:+ "]")) (String dquote pre)
                (post +:+ str1 dquote)) as Hsplit.
  change (String "$" (String "[" (ref +:+ "]"))) with (reference ref) in Hsplit.
  rewrite app_cons in Hsplit. rewrite Hsplit.
  - rewrite (get_substitution_plain _ _ _ repl Hrepl). by rewrite app_cons.
  - cbn [contains_char]. by rewrite (ordinary_no_dollar pre Hpre).
Qed.

Lemma resolve_by_text dataValue :
  fold_left (resolve_ref workflow) [reference ref]
    (String dquote (pre +:+ reference ref +:+ post +:+ str1 dquote))
  = String dquote (pre +:+ quote_body dataValue +:+ post +:+ str1 dquote) ->
  resolve_value workflow (JStr (pre +:+ reference ref +:+ post))
  = JStr (pre +:+ dataValue +:+ post).
Proof.
  intros Hfold. unfold resolve_value.
  rewrite text_of_value, (match_refs_in_text pre ref post Hpre Hpost Hne Hpath), Hfold.
  assert (Htext : String dquote (pre +:+ quote_body dataValue +:+ post +:+ str1 dquote)
                  = JSON_stringify (JStr (pre +:+ dataValue +:+ post))).
  { cbn. unfold quote. rewrite !quote_body_app.
    rewrite (quote_body_unescaped pre (ordinary_unescaped pre Hpre)).
    rewrite (quote_body_unescaped post (ordinary_unescaped post Hpost)).
    by rewrite !app_assoc_str. }
  rewrite Htext, JSON_clone; done.
Qed.

End References.


Lemma replace_char_absent c repl s :
  contains_char c s = false -> replace_char c repl s = s.
Proof.
  induction s as [|x s IH]; [done|]. cbn [contains_char replace_char].
  intros [Hx Hs]%orb_false_iff. by rewrite Hx, (IH Hs).
Qed.

Lemma word_boundaries_of_a_word repl s :
  all_chars is_word s = true -> replace_word_boundaries true repl s = s +:+ repl.
Proof.
  induction s as [|c s IH]; [done|]. cbn [all_chars replace_word_boundaries].
  intros [Hc Hs]%andb_true_iff. by rewrite Hc, (IH Hs).
Qed.

Lemma escape_of_a_word s :
  s <> EmptyString -> all_chars is_word s = true ->
  escape_for_json s = String backslash "b" +:+ s +:+ String backslash "b".
Proof.
  intros Hne Hw. unfold escape_for_json.
  rewrite (replace_char_absent backslash) by (by apply (all_chars_without is_word)).
  rewrite (replace_char_absent "/") by (by apply (all_chars_without is_word)).
  assert (replace_word_boundaries false (String backslash "b") s
          = String backslash "b" +:+ s +:+ String backslash "b") as ->.
  { destruct s as [|c s]; [done|]. cbn [all_chars] in Hw.
    apply andb_true_iff in Hw as [Hc Hs]. cbn [replace_word_boundaries].
    by rewrite Hc, (word_boundaries_of_a_word _ s Hs). }
  assert (Hnone : forall x, is_word x = false -> x <> backslash -> x <> "b"%char ->
                    contains_char x (String backslash "b" +:+ s +:+ String backslash "b")
                    = false).
  { intros x Hx Hb1 Hb2. rewrite !contains_char_app. cbn [contains_char].
    rewrite (all_chars_without is_word x s Hx Hw).
    assert (Ascii.eqb backslash x = false) as Hb1' by (apply Ascii.eqb_neq; congruence).
    assert (Ascii.eqb "b" x = false) as Hb2' by (apply Ascii.eqb_neq; congruence).
    apply Ascii.eqb_neq in Hb1, Hb2.
    by rewrite ?Hb1, ?Hb2, ?Hb1', ?Hb2'. }
  rewrite (replace_char_absent "012") by (by apply Hnone).
  rewrite (replace_char_absent "010") by (by apply Hnone).
  rewrite (replace_char_absent "013") by (by apply Hnone).
  rewrite (replace_char_absent "009") by (by apply Hnone).
  rewrite (replace_char_absent dquote) by (by apply Hnone).
  by rewrite (replace_char_absent "'") by (by apply Hnone).
Qed.

Lemma word_unescaped s : all_chars is_word s = true -> all_chars unescaped s = true.
Proof.
  apply all_chars_weaken. intros c Hc. destruct c as [[] [] [] [] [] [] [] []]; done.
Qed.

Lemma word_no_dollar s : all_chars is_word s = true -> contains_char "$" s = false.
Proof. by apply all_chars_without. Qed.

(** X22.  A string property that holds a reference, with ordinary text
    around it, to a string made of word characters comes back from
    [setTaskDataValues] with the referenced string wrapped in two backspace
    characters: the pattern [\b] of the escaping chain is the word boundary,
    and [JSON.parse] reads the inserted [\b] as U+0008. *)
Theorem reference_to_a_word_gains_backspaces workflow pre ref post s :
  all_chars ordinary pre = true -> all_chars ordinary post = true ->
  ref <> EmptyString -> all_chars path_char ref = true ->
  getData workflow ref = Some (JStr s) ->
  s <> EmptyString -> all_chars is_word s = true ->
  resolve_value workflow (JStr (pre +:+ reference ref +:+ post))
  = JStr (pre +:+ String backspace (s +:+ str1 backspace) +:+ post).
Proof.
  intros Hpre Hpost Hne Hpath Hget Hs Hw.
  apply resolve_by_text; try done.
  cbn [fold_left]. unfold resolve_ref. rewrite slice_reference, Hget.
  rewrite (escape_of_a_word s Hs Hw).
  rewrite splice; try done.
  - cbn [quote_body]. rewrite quote_body_app, (quote_body_unescaped s (word_unescaped s Hw)).
    done.
  - rewrite !contains_char_app, (word_no_dollar s Hw). done.
Qed.

Lemma reference_to_a_word_gains_backspaces_witness :
  resolve_value workflow_with_data (JStr ("user=" +:+ reference "environment.USER" +:+ ";"))
  = JStr ("user=" +:+ String backspace ("alice" +:+ str1 backspace) +:+ ";").
Proof.
  apply (reference_to_a_word_gains_backspaces workflow_with_data
           "user=" "environment.USER" ";" "alice"); done.
Defined.

(** A reference with ordinary text beside it, to a value that is not a
    string, is replaced by what [js_String] gives for the value. *)
Lemma resolve_reference_beside_text workflow pre ref post :
  all_chars ordinary pre = true -> all_chars ordinary post = true ->
  pre +:+ post <> EmptyString ->
  ref <> EmptyString -> all_chars path_char ref = true ->
  is_string (data_or_null workflow ref) = false ->
  all_chars ordinary (js_String (data_or_null workflow ref)) = true ->
  resolve_value workflow (JStr (pre +:+ reference ref +:+ post))
  = JStr (pre +:+ js_String (data_or_null workflow ref) +:+ post).
Proof.
  intros Hpre Hpost Hbeside Hne Hpath Hd Hout.
  apply resolve_by_text; try done.
  cbn [fold_left]. rewrite (resolve_ref_other _ _ _ Hd). cbv zeta.
  set (valueStr := String dquote (pre +:+ reference ref +:+ post +:+ str1 dquote)).
  assert (Hsame : replace_first (String dquote (reference ref +:+ str1 dquote))
                    (JSON_stringify (data_or_null workflow ref)) valueStr = valueStr).
  { unfold replace_first.
    assert (split_first (String dquote (reference ref +:+ str1 dquote)) valueStr = None)
      as ->; [|done].
    unfold valueStr. cbn [split_first].
    assert (String.prefix (String dquote (reference ref +:+ str1 dquote))
              (String dquote (pre +:+ reference ref +:+ post +:+ str1 dquote)) = false)
      as ->.
    { cbn [String.prefix]. destruct (ascii_dec dquote dquote); [|done].
      destruct pre as [|x pre'].
      - change (EmptyString +:+ ?t) with t. rewrite prefix_app_cancel.
        destruct post as [|y post']; [done|]. rewrite app_cons.
        cbn [all_chars] in Hpost. apply andb_true_iff in Hpost as [Hy _].
        apply prefix_other_head. intros <-. done.
      - rewrite reference_app, app_cons.
        cbn [all_chars] in Hpre. apply andb_true_iff in Hpre as [Hx _].
        apply prefix_other_head. intros <-. done. }
    rewrite reference_app.
    pose proof (split_first_never dquote "$" (String "[" (ref +:+ String "]" (str1 dquote)))
                  (pre +:+ reference ref +:+ post)) as Hnever.
    rewrite !app_assoc_str in Hnever. rewrite Hnever; [done|].
    rewrite !contains_char_app, (reference_no_quote ref Hpath).
    rewrite (all_chars_without unescaped dquote pre eq_refl (ordinary_unescaped pre Hpre)).
    by rewrite (all_chars_without unescaped dquote post eq_refl (ordinary_unescaped post Hpost)). }
  rewrite Hsame, String.eqb_refl. unfold valueStr.
  rewrite splice; try done.
  - by rewrite (quote_body_unescaped _ (ordinary_unescaped _ Hout)).
  - by apply ordinary_no_dollar.
Qed.


Lemma data_at_the_path workflow ks d :
  ks <> [] -> forallb plain_key ks = true ->
  String.eqb (dotted ks) EmptyString = false ->
  read_path ks workflow = Some d ->
  data_or_null workflow (dotted ks) = d.
Proof.
  intros Hne Hks Hd Hread. unfold data_or_null.
  by rewrite getData_dotted, (getData_steps_follow ks workflow d) by done.
Qed.

Lemma digits_ordinary s : all_digits s = true -> all_chars ordinary s = true.
Proof.
  induction s as [|c s IH]; [done|]. cbn [all_digits all_chars].
  intros [Hc Hs]%andb_true_iff. rewrite (IH Hs), andb_true_r.
  destruct c as [[] [] [] [] [] [] [] []]; done.
Qed.

Lemma scalar_text_ordinary d :
  is_scalar d = true -> all_chars ordinary (js_String d) = true.
Proof.
  destruct d as [| [] | z | | | |]; try done. intros _. cbn [js_String].
  destruct z as [|p|p]; [done| |].
  - apply digits_ordinary, (all_digits_pretty (N.pos p)).
  - change (pretty (Z.neg p)) with ("-" +:+ pretty (N.pos p)).
    rewrite all_chars_app. cbn [all_chars andb].
    apply digits_ordinary, (all_digits_pretty (N.pos p)).
Qed.

(** X23.  A string property that holds, with ordinary text beside it, a
    reference whose dotted path of plain keys leads through own properties
    to [null], a boolean or a number that is a safe integer, comes back
    from [setTaskDataValues] as the same text with [String(value)] in
    place of the reference. *)
Theorem reference_in_a_text_is_spliced workflow pre ks post d :
  all_chars ordinary pre = true -> all_chars ordinary post = true ->
  pre +:+ post <> EmptyString ->
  ks <> [] -> forallb plain_key ks = true ->
  String.eqb (dotted ks) EmptyString = false ->
  all_chars path_char (dotted ks) = true ->
  read_path ks workflow = Some d ->
  is_scalar d = true ->
  safe_numbers d = true ->
  resolve_value workflow (JStr (pre +:+ reference (dotted ks) +:+ post))
  = JStr (pre +:+ js_String d +:+ post).
Proof.
  intros Hpre Hpost Hbeside Hne Hks Hd Hpath Hread Hscalar _.
  assert (Hstr : is_string d = false) by (by destruct d).
  pose proof (scalar_text_ordinary d Hscalar) as Hout.
  pose proof (data_at_the_path workflow ks d Hne Hks Hd Hread) as Hdata.
  rewrite <- Hdata in Hstr, Hout |- *.
  apply resolve_reference_beside_text; try done.
  intros Heq. by rewrite Heq in Hd.
Qed.

Lemma reference_in_a_text_is_spliced_witness :
  resolve_value workflow_with_data
    (JStr ("port " +:+ reference (dotted ["environment"; "PORT"]) +:+ EmptyString))
  = JStr ("port " +:+ js_String (JNum 8080) +:+ EmptyString).
Proof.
  apply (reference_in_a_text_is_spliced workflow_with_data
           "port " ["environment"; "PORT"] EmptyString (JNum 8080)); done.
Defined.



